(** * appleseed-max: the glass material plugin (appleseedglassmtl.cpp)

    A shallow embedding of [AppleseedGlassMtl]: the cached parameter
    snapshot and its refresh ([Update]), the persistence of the version
    tag ([Save], [Load]), the legacy shading queries, and the two
    translators to the renderer's scene description
    ([create_osl_material], [create_builtin_material]).

    C++ [float] is IEEE-754 binary32; it is modelled bit-exactly with the
    Standard Library's [SpecFloat] at precision 24 and maximal exponent
    128, so that [m_roughness / 100.0f] is the correctly rounded quotient
    the processor computes. *)

From Stdlib Require Import ZArith Lia List.
From Stdlib Require Import Floats.SpecFloat.
From stdpp Require Import base option list strings gmap stringmap.

Local Open Scope string_scope.
Local Open Scope list_scope.
Local Open Scope Z_scope.

(* ===================================================================== *)
(** ** binary32 arithmetic *)
(* ===================================================================== *)

Module F32.

Definition prec : Z := 24.
Definition emax : Z := 128.

(** A C++ [float]. *)
Definition float : Type := spec_float.

(** [make m e] is the binary32 value nearest to [m * 2^e]. *)
Definition make (m e : Z) : float := binary_normalize prec emax m e false.

Definition of_Z (n : Z) : float := make n 0.

Definition div (x y : float) : float := SFdiv prec emax x y.
Definition mul (x y : float) : float := SFmul prec emax x y.
Definition sub (x y : float) : float := SFsub prec emax x y.
Definition add (x y : float) : float := SFadd prec emax x y.

(** C++ [x == y], [x < y] on floats (false as soon as a NaN is involved). *)
Definition eqb (x y : float) : bool := SFeqb x y.
Definition ltb (x y : float) : bool := SFltb x y.

(** The literals of the source file. *)
Definition zero : float := S754_zero false.
Definition one : float := of_Z 1.
Definition half : float := make 1 (-1).          (* 0.5f *)
Definition one_and_half : float := make 3 (-1).  (* 1.5f *)
Definition hundred : float := of_Z 100.          (* 100.0f *)

(** The macros [max] and [min] of the Windows headers:
    [(a > b) ? a : b] and [(a < b) ? a : b]. *)
Definition max (a b : float) : float := if ltb b a then a else b.
Definition min (a b : float) : float := if ltb a b then a else b.

(** [x] is a positive normal float within half a unit in the last place
    of the fraction [p / q]: [x] is [m * 2^e] with a mantissa of 24 bits,
    and [|x - p / q| <= 2^(e - 1)], written without division. *)
Definition is_nearest_to_ratio (x : float) (p q : Z) : Prop :=
  match x with
  | S754_finite false m e =>
      2 ^ 23 <= Z.pos m < 2 ^ 24
      /\ e < 0 /\ 0 < q
      /\ Z.abs (2 * (Z.pos m * q - p * 2 ^ (- e))) <= q
  | _ => False
  end.

End F32.

Abbreviation float := F32.float.

(* ===================================================================== *)
(** ** Host (3ds Max SDK) types used by the material *)
(* ===================================================================== *)

(** [Color] of color.h: three floats. *)
Module Color.
Record t : Type := mk { r : float; g : float; b : float }.
End Color.
Abbreviation Color := Color.t.

Definition white : Color := Color.mk F32.one F32.one F32.one.
Definition black : Color := Color.mk F32.zero F32.zero F32.zero.

(** [TimeValue] is an [int] counting ticks. *)
Definition TimeValue : Type := Z.

Definition TIME_NegInfinity : TimeValue := - 2 ^ 31.
Definition TIME_PosInfinity : TimeValue := 2 ^ 31 - 1.

(** [Interval] of interval.h: a closed range of time values; the empty
    interval is the pair (TIME_NegInfinity, TIME_NegInfinity). *)
Module Interval.

Record t : Type := mk { start : TimeValue; end_ : TimeValue }.

Definition SetEmpty : t := mk TIME_NegInfinity TIME_NegInfinity.
Definition SetInfinite : t := mk TIME_NegInfinity TIME_PosInfinity.

Definition Empty (i : t) : bool :=
  (start i =? TIME_NegInfinity) && (end_ i =? TIME_NegInfinity).

(** "Nonzero if the TimeValue passed is greater than or equal to the
    start value and less than or equal to the end value and not equal
    to TIME_NegInfinity." *)
Definition InInterval (i : t) (x : TimeValue) : bool :=
  negb (x =? TIME_NegInfinity) && (start i <=? x) && (x <=? end_ i).

(** [operator&]: intersection. *)
Definition inter (i j : t) : t :=
  if Empty i || Empty j then SetEmpty
  else
    let s := Z.max (start i) (start j) in
    let e := Z.min (end_ i) (end_ j) in
    if e <? s then SetEmpty else mk s e.

End Interval.
Abbreviation Interval := Interval.t.

Definition FOREVER : Interval := Interval.SetInfinite.
Definition NEVER : Interval := Interval.SetEmpty.

Infix "&&&" := Interval.inter (at level 40, left associativity).

(** A [Texmap*] names a texture map object owned by the host; a null
    pointer is [None]. *)
Record Texmap : Type := mkTexmap { texmap_name : string; texmap_handle : positive }.

#[global] Instance Texmap_eq_dec : EqDecision Texmap.
Proof. solve_decision. Defined.

(** Reference messages and the parts they concern. *)
Inductive RefMessage : Type := REFMSG_CHANGE | REFMSG_OTHER (code : Z).
Inductive PartID : Type := PART_ALL.

(** One call of [NotifyDependents (changeInt, partID, message)]. *)
Record Notification : Type :=
  mkNotification { nt_interval : Interval; nt_part : PartID; nt_message : RefMessage }.

(* ===================================================================== *)
(** ** The parameter block *)
(* ===================================================================== *)

Inductive ParamId : Type :=
| ParamIdSurfaceColor
| ParamIdSurfaceColorTexmap
| ParamIdReflectionTint
| ParamIdReflectionTintTexmap
| ParamIdRefractionTint
| ParamIdRefractionTintTexmap
| ParamIdIOR
| ParamIdRoughness
| ParamIdRoughnessTexmap
| ParamIdAnisotropy
| ParamIdAnisotropyTexmap
| ParamIdVolumeColor
| ParamIdVolumeColorTexmap
| ParamIdScale
| ParamIdBumpMethod
| ParamIdBumpTexmap
| ParamIdBumpAmount
| ParamIdBumpUpVector.

#[global] Instance ParamId_eq_dec : EqDecision ParamId.
Proof. solve_decision. Defined.

(** [IParamBlock2], the host's store of the material's parameters,
    consumed as "value of parameter P at time T, with a validity
    interval".  The block descriptor [g_block_desc] fixes the type of every
    parameter, so the store is read through one accessor per type. *)
Record IParamBlock2 : Type := mkParamBlock {
  pb_color    : ParamId -> TimeValue -> Color;
  pb_float    : ParamId -> TimeValue -> float;
  pb_int      : ParamId -> TimeValue -> Z;
  pb_texmap   : ParamId -> TimeValue -> option Texmap;
  pb_validity : ParamId -> TimeValue -> Interval
}.

(** [pblock->GetValue(id, t, v, valid)]: [v] receives the value at [t] and
    [valid] is narrowed by the interval over which that value holds. *)
Definition GetValue {A : Type} (get : IParamBlock2 -> ParamId -> TimeValue -> A)
    (pb : IParamBlock2) (id : ParamId) (t : TimeValue) (valid : Interval)
    : A * Interval :=
  (get pb id t, valid &&& pb_validity pb id t).

(** [pblock->SetValue(id, t, c)] for a color parameter. *)
Definition SetValue_color (pb : IParamBlock2) (id : ParamId) (t : TimeValue)
    (c : Color) : IParamBlock2 :=
  {| pb_color := fun id' t' =>
       if decide (id' = id) then c else pb_color pb id' t';
     pb_float := pb_float pb;
     pb_int := pb_int pb;
     pb_texmap := pb_texmap pb;
     pb_validity := pb_validity pb |}.

(* ===================================================================== *)
(** ** The material and its cached snapshot *)
(* ===================================================================== *)

(** The data members of [AppleseedGlassMtl].  [m_bump_method] and
    [m_bump_up_vector] are C++ [int]s. *)
Record AppleseedGlassMtl : Type := mkGlassMtl {
  m_pblock                 : IParamBlock2;
  m_params_validity        : Interval;
  m_surface_color          : Color;
  m_surface_color_texmap   : option Texmap;
  m_reflection_tint        : Color;
  m_reflection_tint_texmap : option Texmap;
  m_refraction_tint        : Color;
  m_refraction_tint_texmap : option Texmap;
  m_ior                    : float;
  m_roughness              : float;
  m_roughness_texmap       : option Texmap;
  m_anisotropy             : float;
  m_anisotropy_texmap      : option Texmap;
  m_volume_color           : Color;
  m_volume_color_texmap    : option Texmap;
  m_scale                  : float;
  m_bump_method            : Z;
  m_bump_texmap            : option Texmap;
  m_bump_amount            : float;
  m_bump_up_vector         : Z
}.

(** The constructor's member initializers, around the parameter block that
    [MakeAutoParamBlocks] creates. *)
Definition AppleseedGlassMtl_new (pblock : IParamBlock2) : AppleseedGlassMtl :=
  {| m_pblock := pblock;
     m_params_validity := Interval.SetEmpty;
     m_surface_color := white;
     m_surface_color_texmap := None;
     m_reflection_tint := white;
     m_reflection_tint_texmap := None;
     m_refraction_tint := white;
     m_refraction_tint_texmap := None;
     m_ior := F32.one_and_half;
     m_roughness := F32.zero;
     m_roughness_texmap := None;
     m_anisotropy := F32.zero;
     m_anisotropy_texmap := None;
     m_volume_color := white;
     m_volume_color_texmap := None;
     m_scale := F32.zero;
     m_bump_method := 0;
     m_bump_texmap := None;
     m_bump_amount := F32.one;
     m_bump_up_vector := 1 |}.

Definition set_m_params_validity (v : Interval) (m : AppleseedGlassMtl)
    : AppleseedGlassMtl :=
  mkGlassMtl (m_pblock m) v
    (m_surface_color m) (m_surface_color_texmap m)
    (m_reflection_tint m) (m_reflection_tint_texmap m)
    (m_refraction_tint m) (m_refraction_tint_texmap m)
    (m_ior m) (m_roughness m) (m_roughness_texmap m)
    (m_anisotropy m) (m_anisotropy_texmap m)
    (m_volume_color m) (m_volume_color_texmap m) (m_scale m)
    (m_bump_method m) (m_bump_texmap m) (m_bump_amount m) (m_bump_up_vector m).

Definition set_m_pblock (pb : IParamBlock2) (m : AppleseedGlassMtl)
    : AppleseedGlassMtl :=
  mkGlassMtl pb (m_params_validity m)
    (m_surface_color m) (m_surface_color_texmap m)
    (m_reflection_tint m) (m_reflection_tint_texmap m)
    (m_refraction_tint m) (m_refraction_tint_texmap m)
    (m_ior m) (m_roughness m) (m_roughness_texmap m)
    (m_anisotropy m) (m_anisotropy_texmap m)
    (m_volume_color m) (m_volume_color_texmap m) (m_scale m)
    (m_bump_method m) (m_bump_texmap m) (m_bump_amount m) (m_bump_up_vector m).

Definition set_m_surface_color (c : Color) (m : AppleseedGlassMtl)
    : AppleseedGlassMtl :=
  mkGlassMtl (m_pblock m) (m_params_validity m)
    c (m_surface_color_texmap m)
    (m_reflection_tint m) (m_reflection_tint_texmap m)
    (m_refraction_tint m) (m_refraction_tint_texmap m)
    (m_ior m) (m_roughness m) (m_roughness_texmap m)
    (m_anisotropy m) (m_anisotropy_texmap m)
    (m_volume_color m) (m_volume_color_texmap m) (m_scale m)
    (m_bump_method m) (m_bump_texmap m) (m_bump_amount m) (m_bump_up_vector m).

(** [NotifyRefChanged]: a change message from a reference target empties
    the cached validity interval (the call of [InvalidateUI] only concerns
    the dialog). *)
Definition NotifyRefChanged (message : RefMessage) (m : AppleseedGlassMtl)
    : AppleseedGlassMtl :=
  match message with
  | REFMSG_CHANGE => set_m_params_validity Interval.SetEmpty m
  | REFMSG_OTHER _ => m
  end.

(** [m_pblock->SetValue(id, t, c)] as the material sees it: the block
    stores the value and, the material being a dependent of its parameter
    block, the host delivers REFMSG_CHANGE to [NotifyRefChanged]. *)
Definition pblock_SetValue_color (id : ParamId) (t : TimeValue) (c : Color)
    (m : AppleseedGlassMtl) : AppleseedGlassMtl :=
  NotifyRefChanged REFMSG_CHANGE
    (set_m_pblock (SetValue_color (m_pblock m) id t c) m).

(** [Update (t, valid)].  The result is the material after the call, the
    caller's interval [valid] after [valid &= m_params_validity], and the
    calls of [NotifyDependents] made on the way. *)
Definition Update (t : TimeValue) (valid : Interval) (m : AppleseedGlassMtl)
    : AppleseedGlassMtl * Interval * list Notification :=
  if negb (Interval.InInterval (m_params_validity m) t) then
    let pb := m_pblock m in
    let iv := Interval.SetInfinite in
    let '(surface_color, iv) := GetValue pb_color pb ParamIdSurfaceColor t iv in
    let '(surface_color_texmap, iv) := GetValue pb_texmap pb ParamIdSurfaceColorTexmap t iv in
    let '(reflection_tint, iv) := GetValue pb_color pb ParamIdReflectionTint t iv in
    let '(reflection_tint_texmap, iv) := GetValue pb_texmap pb ParamIdReflectionTintTexmap t iv in
    let '(refraction_tint, iv) := GetValue pb_color pb ParamIdRefractionTint t iv in
    let '(refraction_tint_texmap, iv) := GetValue pb_texmap pb ParamIdRefractionTintTexmap t iv in
    let '(ior, iv) := GetValue pb_float pb ParamIdIOR t iv in
    let '(roughness, iv) := GetValue pb_float pb ParamIdRoughness t iv in
    let '(roughness_texmap, iv) := GetValue pb_texmap pb ParamIdRoughnessTexmap t iv in
    let '(anisotropy, iv) := GetValue pb_float pb ParamIdAnisotropy t iv in
    let '(anisotropy_texmap, iv) := GetValue pb_texmap pb ParamIdAnisotropyTexmap t iv in
    let '(volume_color, iv) := GetValue pb_color pb ParamIdVolumeColor t iv in
    let '(volume_color_texmap, iv) := GetValue pb_texmap pb ParamIdVolumeColorTexmap t iv in
    let '(scale, iv) := GetValue pb_float pb ParamIdScale t iv in
    let '(bump_method, iv) := GetValue pb_int pb ParamIdBumpMethod t iv in
    let '(bump_texmap, iv) := GetValue pb_texmap pb ParamIdBumpTexmap t iv in
    let '(bump_amount, iv) := GetValue pb_float pb ParamIdBumpAmount t iv in
    let '(bump_up_vector, iv) := GetValue pb_int pb ParamIdBumpUpVector t iv in
    (mkGlassMtl pb iv
       surface_color surface_color_texmap
       reflection_tint reflection_tint_texmap
       refraction_tint refraction_tint_texmap
       ior roughness roughness_texmap
       anisotropy anisotropy_texmap
       volume_color volume_color_texmap scale
       bump_method bump_texmap bump_amount bump_up_vector,
     valid &&& iv,
     [mkNotification FOREVER PART_ALL REFMSG_CHANGE])
  else
    (m, valid &&& m_params_validity m, []).

(** [Validity (t)]. *)
Definition Validity (t : TimeValue) (m : AppleseedGlassMtl)
    : AppleseedGlassMtl * Interval * list Notification :=
  Update t FOREVER m.

(** *** Legacy shading queries *)

Definition GetAmbient (m : AppleseedGlassMtl) : Color := black.

Definition GetDiffuse (m : AppleseedGlassMtl) : Color := m_surface_color m.

Definition GetSpecular (m : AppleseedGlassMtl) : Color := black.

Definition GetShininess (m : AppleseedGlassMtl) : float := F32.zero.

Definition GetShinStr (m : AppleseedGlassMtl) : float := F32.zero.

(** [RGBtoHSV] of the host's hsv.h, which the source only calls: the
    hexcone conversion, returning hue, saturation and value (each in
    [0, 1]) in the [r], [g] and [b] members of a [Color].  Value is the
    largest of the three channels, saturation the relative spread, and hue
    the sixth of the sector position. *)
Definition RGBtoHSV (rgb : Color) : Color :=
  let r := Color.r rgb in
  let g := Color.g rgb in
  let b := Color.b rgb in
  let mx := F32.max (F32.max r g) b in
  let mn := F32.min (F32.min r g) b in
  let delta := F32.sub mx mn in
  let v := mx in
  let s := if F32.eqb mx F32.zero then F32.zero else F32.div delta mx in
  let h :=
    if F32.eqb s F32.zero then F32.zero
    else
      let h6 :=
        if F32.eqb r mx then F32.div (F32.sub g b) delta
        else if F32.eqb g mx then
          F32.add (F32.of_Z 2) (F32.div (F32.sub b r) delta)
        else F32.add (F32.of_Z 4) (F32.div (F32.sub r g) delta) in
      let h6 := if F32.ltb h6 F32.zero then F32.add h6 (F32.of_Z 6) else h6 in
      F32.div h6 (F32.of_Z 6) in
  Color.mk h s v.

(** The value (brightness) channel of a color. *)
Definition value_channel (c : Color) : float :=
  F32.max (F32.max (Color.r c) (Color.g c)) (Color.b c).

Definition GetXParency (m : AppleseedGlassMtl) : float :=
  F32.mul (Color.b (RGBtoHSV (m_surface_color m)))
          (Color.b (RGBtoHSV (m_refraction_tint m))).

Definition SetAmbient (c : Color) (t : TimeValue) (m : AppleseedGlassMtl)
    : AppleseedGlassMtl := m.

Definition SetDiffuse (c : Color) (t : TimeValue) (m : AppleseedGlassMtl)
    : AppleseedGlassMtl :=
  let m := pblock_SetValue_color ParamIdSurfaceColor t c m in
  set_m_surface_color c m.

Definition SetSpecular (c : Color) (t : TimeValue) (m : AppleseedGlassMtl)
    : AppleseedGlassMtl := m.

Definition SetShininess (v : float) (t : TimeValue) (m : AppleseedGlassMtl)
    : AppleseedGlassMtl := m.

(* ===================================================================== *)
(** ** Persistence: [Save] and [Load] *)
(* ===================================================================== *)

(** [IOResult] of the host's ioapi.h. *)
Inductive IOResult : Type := IO_OK | IO_END | IO_ERROR.

#[global] Instance IOResult_eq_dec : EqDecision IOResult.
Proof. solve_decision. Defined.

(** [a == b] on results. *)
Definition IOResult_eqb (a b : IOResult) : bool :=
  match a, b with
  | IO_OK, IO_OK | IO_END, IO_END | IO_ERROR, IO_ERROR => true
  | _, _ => false
  end.

(** [USHORT]: an unsigned 16-bit integer. *)
Definition USHORT : Type := Z.

Definition USHORT_MAX : Z := 65535.

Abbreviation byte := Byte.byte.

Definition byte_of_Z (z : Z) : byte :=
  match Byte.of_N (Z.to_N (z mod 256)) with
  | Some b => b
  | None => Byte.x00
  end.

Definition Z_of_byte (b : byte) : Z := Z.of_N (Byte.to_N b).

(** The object representation of a [USHORT] on the (little-endian) hosts
    the plugin is built for: [sizeof (USHORT)] = 2 bytes, low byte first. *)
Definition USHORT_bytes (v : USHORT) : list byte :=
  [byte_of_Z v; byte_of_Z (v / 256)].

Definition USHORT_of_bytes (bs : list byte) : USHORT :=
  match bs with
  | [lo; hi] => Z_of_byte lo + 256 * Z_of_byte hi
  | _ => 0
  end.

(** The constants of datachunks.h and version.h.  The headers are not
    among the sources, so the chunk identifiers and the version tag are
    parameters; what C++ guarantees of them is recorded with them: the two
    identifiers label two cases of one [switch], hence differ, and all three
    are [USHORT]s. *)
Class DataChunks : Type := {
  ChunkFileFormatVersion : USHORT;
  ChunkMtlBase : USHORT;
  FileFormatVersion : USHORT;
  chunk_ids_distinct : ChunkFileFormatVersion <> ChunkMtlBase;
  FileFormatVersion_range : 0 <= FileFormatVersion <= USHORT_MAX
}.

(** The persistent state of the host's base class [MtlBase], which the
    material inherits, and how [MtlBase::Save] and [MtlBase::Load] lay it
    out: the bytes written for a state, and the state read back from the
    content of a chunk ([None] when the content is no base state). *)
Class MtlBaseIO : Type := {
  MtlBase : Type;
  MtlBase_bytes : MtlBase -> list byte;
  MtlBase_parse : list byte -> option MtlBase
}.

(** *** The output stream [ISave] *)

(** One chunk of a stream: its identifier and its content. *)
Record Chunk : Type := mkChunk { chunk_id : USHORT; chunk_data : list byte }.

(** An output stream: the chunks closed so far, the chunk being written,
    and the number of bytes the medium still accepts (a write beyond it is
    the I/O failure of the stream). *)
Record ISave : Type := mkISave {
  sv_chunks   : list Chunk;
  sv_open     : option Chunk;
  sv_capacity : nat
}.

Definition ISave_new (capacity : nat) : ISave := mkISave [] None capacity.

Definition BeginChunk (id : USHORT) (s : ISave) : ISave :=
  mkISave (sv_chunks s) (Some (mkChunk id [])) (sv_capacity s).

Definition EndChunk (s : ISave) : ISave :=
  match sv_open s with
  | Some c => mkISave (sv_chunks s ++ [c]) None (sv_capacity s)
  | None => s
  end.

(** [isave->Write (buf, nbytes, &nwritten)]: the result and [nwritten]. *)
Definition ISave_Write (buf : list byte) (s : ISave) : IOResult * nat * ISave :=
  match sv_open s with
  | None => (IO_ERROR, 0%nat, s)
  | Some c =>
      if (length buf <=? sv_capacity s)%nat then
        (IO_OK, length buf,
         mkISave (sv_chunks s) (Some (mkChunk (chunk_id c) (chunk_data c ++ buf)))
                 (sv_capacity s - length buf))
      else
        (IO_ERROR, sv_capacity s,
         mkISave (sv_chunks s)
                 (Some (mkChunk (chunk_id c) (chunk_data c ++ take (sv_capacity s) buf)))
                 0)
  end.

(** Modelled from the spec: the helper template [write] of utilities.h is
    not among the sources.  Persisted-state writes report "a binary
    success/failure flag": [write (isave, x)] hands the [sizeof (T)] bytes of
    [x] to the stream and succeeds when the stream took all of them. *)
Definition write_USHORT (x : USHORT) (s : ISave) : bool * ISave :=
  let '(result, written, s) := ISave_Write (USHORT_bytes x) s in
  (IOResult_eqb result IO_OK && (written =? 2)%nat, s).

(** *** The input stream [ILoad] *)

(** What the stream holds next: a chunk, with the answer [CloseChunk] will
    give for it, or a place where no chunk can be opened. *)
Inductive StreamItem : Type :=
| ItemChunk (c : Chunk) (close : IOResult)
| ItemDamaged.

(** An input stream: the items not opened yet, and the unread content of
    the chunk that is open. *)
Record ILoad : Type := mkILoad {
  ld_items : list StreamItem;
  ld_cur   : option (Chunk * IOResult)
}.

Definition ILoad_new (items : list StreamItem) : ILoad := mkILoad items None.

Definition OpenChunk (s : ILoad) : IOResult * ILoad :=
  match ld_items s with
  | [] => (IO_END, s)
  | ItemDamaged :: rest => (IO_ERROR, mkILoad rest None)
  | ItemChunk c close :: rest => (IO_OK, mkILoad rest (Some (c, close)))
  end.

Definition CurChunkID (s : ILoad) : USHORT :=
  match ld_cur s with
  | Some (c, _) => chunk_id c
  | None => 0
  end.

Definition CloseChunk (s : ILoad) : IOResult * ILoad :=
  match ld_cur s with
  | Some (_, close) => (close, mkILoad (ld_items s) None)
  | None => (IO_ERROR, s)
  end.

(** [iload->Read (buf, nbytes, &nread)]: the result and the bytes read. *)
Definition ILoad_Read (nbytes : nat) (s : ILoad) : IOResult * list byte * ILoad :=
  match ld_cur s with
  | None => (IO_ERROR, [], s)
  | Some (c, close) =>
      let got := take nbytes (chunk_data c) in
      let s' := mkILoad (ld_items s)
                  (Some (mkChunk (chunk_id c) (drop nbytes (chunk_data c)), close)) in
      if (nbytes <=? length (chunk_data c))%nat
      then (IO_OK, got, s')
      else (IO_ERROR, got, s')
  end.

(** Modelled from the spec: the helper template [read] of utilities.h is
    not among the sources.  [read<USHORT> (iload, &x)] asks the stream for
    [sizeof (USHORT)] bytes and fails unless it got them all. *)
Definition read_USHORT (s : ILoad) : IOResult * USHORT * ILoad :=
  let '(result, got, s) := ILoad_Read 2 s in
  if IOResult_eqb result IO_OK then
    if (length got =? 2)%nat then (IO_OK, USHORT_of_bytes got, s)
    else (IO_ERROR, 0, s)
  else (result, 0, s).

(** The stream a file written through [s] presents when it is read back. *)
Definition reopen (s : ISave) : ILoad :=
  ILoad_new (map (fun c => ItemChunk c IO_OK) (sv_chunks s)).

(** What a run of [Load] did, in order: the value stored in the local
    [version], and the loading of the base-class state. *)
Inductive LoadEvent : Type :=
| ReadVersion (version : USHORT)
| LoadedMtlBase.

#[global] Instance LoadEvent_eq_dec : EqDecision LoadEvent.
Proof. solve_decision. Defined.

Section Persistence.

Context `{DataChunks} `{MtlBaseIO}.

(** [MtlBase::Save (isave)]. *)
Definition MtlBase_Save (base : MtlBase) (s : ISave) : IOResult * ISave :=
  let '(result, _, s) := ISave_Write (MtlBase_bytes base) s in
  (result, s).

(** [MtlBase::Load (iload)]: reads the rest of the open chunk. *)
Definition MtlBase_Load (base : MtlBase) (s : ILoad) : IOResult * MtlBase * ILoad :=
  match ld_cur s with
  | None => (IO_ERROR, base, s)
  | Some (c, close) =>
      let s' := mkILoad (ld_items s) (Some (mkChunk (chunk_id c) [], close)) in
      match MtlBase_parse (chunk_data c) with
      | Some base' => (IO_OK, base', s')
      | None => (IO_ERROR, base, s')
      end
  end.

(** [AppleseedGlassMtl::Save].  Of the material only the base-class state
    is written besides the version tag (the parameter block is saved by the
    host as a reference). *)
Definition Save (base : MtlBase) (isave : ISave) : IOResult * ISave :=
  let success := true in
  let isave := BeginChunk ChunkFileFormatVersion isave in
  let '(ok, isave) := write_USHORT FileFormatVersion isave in
  let success := success && ok in
  let isave := EndChunk isave in
  let isave := BeginChunk ChunkMtlBase isave in
  let '(result, isave) := MtlBase_Save base isave in
  let success := success && IOResult_eqb result IO_OK in
  let isave := EndChunk isave in
  (if success then IO_OK else IO_ERROR, isave).

(** The outcome of [Load]: the result returned, the base-class state of
    the material afterwards, the stream, and what was read on the way. *)
Record LoadOutcome : Type := mkLoadOutcome {
  lo_result : IOResult;
  lo_base   : MtlBase;
  lo_stream : ILoad;
  lo_trace  : list LoadEvent
}.

(** The body of [switch (iload->CurChunkID())]. *)
Definition Load_chunk (result : IOResult) (base : MtlBase) (iload : ILoad)
    (trace : list LoadEvent) : IOResult * MtlBase * ILoad * list LoadEvent :=
  if CurChunkID iload =? ChunkFileFormatVersion then
    let '(result, version, iload) := read_USHORT iload in
    (result, base, iload,
     if IOResult_eqb result IO_OK then trace ++ [ReadVersion version] else trace)
  else if CurChunkID iload =? ChunkMtlBase then
    let '(result, base, iload) := MtlBase_Load base iload in
    (result, base, iload,
     if IOResult_eqb result IO_OK then trace ++ [LoadedMtlBase] else trace)
  else
    (result, base, iload, trace).

(** The loop [while (true)] of [Load], run for at most [fuel] chunks. *)
Fixpoint Load_loop (fuel : nat) (base : MtlBase) (iload : ILoad)
    (trace : list LoadEvent) : option LoadOutcome :=
  match fuel with
  | O => None
  | S fuel =>
      let '(result, iload) := OpenChunk iload in
      if IOResult_eqb result IO_END then
        Some (mkLoadOutcome IO_OK base iload trace)
      else if negb (IOResult_eqb result IO_OK) then
        Some (mkLoadOutcome result base iload trace)
      else
        let '(result, base, iload, trace) := Load_chunk result base iload trace in
        if negb (IOResult_eqb result IO_OK) then
          Some (mkLoadOutcome result base iload trace)
        else
          let '(result, iload) := CloseChunk iload in
          if negb (IOResult_eqb result IO_OK) then
            Some (mkLoadOutcome result base iload trace)
          else Load_loop fuel base iload trace
  end.

(** [AppleseedGlassMtl::Load]: every turn of the loop opens one item of the
    stream, so one turn more than there are items is enough. *)
Definition Load (base : MtlBase) (iload : ILoad) : option LoadOutcome :=
  Load_loop (S (length (ld_items iload))) base iload [].

(** Whether a stream item is one [Load] gets through without an error. *)
Definition loads_cleanly (it : StreamItem) : bool :=
  match it with
  | ItemDamaged => false
  | ItemChunk c close =>
      IOResult_eqb close IO_OK
      && (if chunk_id c =? ChunkFileFormatVersion then (2 <=? length (chunk_data c))%nat
          else if chunk_id c =? ChunkMtlBase then
            match MtlBase_parse (chunk_data c) with Some _ => true | None => false end
          else true)
  end.

(** The events [Load] records for an item it gets through, and the
    base-class state it leaves. *)
Definition item_events (it : StreamItem) : list LoadEvent :=
  match it with
  | ItemDamaged => []
  | ItemChunk c _ =>
      if chunk_id c =? ChunkFileFormatVersion
      then [ReadVersion (USHORT_of_bytes (take 2 (chunk_data c)))]
      else if chunk_id c =? ChunkMtlBase then [LoadedMtlBase]
      else []
  end.

Definition item_base (base : MtlBase) (it : StreamItem) : MtlBase :=
  match it with
  | ItemDamaged => base
  | ItemChunk c _ =>
      if chunk_id c =? ChunkFileFormatVersion then base
      else if chunk_id c =? ChunkMtlBase then
        match MtlBase_parse (chunk_data c) with Some base' => base' | None => base end
      else base
  end.

(** The reading of "no partial application" under which a successful
    [Load] must have read both the version chunk and the base-state
    chunk. *)
Definition Load_reads_both_chunks_or_fails : Prop :=
  forall (base : MtlBase) (items : list StreamItem) (out : LoadOutcome),
    Load base (ILoad_new items) = Some out ->
    (lo_result out = IO_OK
     /\ (exists version, ReadVersion version ∈ lo_trace out)
     /\ LoadedMtlBase ∈ lo_trace out)
    \/ lo_result out <> IO_OK.

End Persistence.

(* ===================================================================== *)
(** ** The renderer's scene description *)
(* ===================================================================== *)

(** An OSL parameter expression, as [fmt_osl_expr] renders a value
    ("float 0.2", "color 1 1 1", "string ggx").

    Modelled from the spec: [fmt_osl_expr] and [to_color3f] (oslutils.h,
    utilities.h) are not among the sources.  The glass node gets its
    constants "baked directly as expression strings", "literal expressions
    attached to the node"; the expression is kept as the value it renders
    rather than as its characters. *)
Inductive OslExpr : Type :=
| OslFloat (f : float)
| OslColor (r g b : float)
| OslString (s : string).

(** A value of a parameter array: a string, a number, an OSL expression,
    or, for the input of an adapter node, the output of a host texture map
    evaluated at a time. *)
Inductive ParamValue : Type :=
| PString (s : string)
| PFloat (f : float)
| PInt (i : Z)
| PExpr (e : OslExpr)
| PTexture (texmap : Texmap) (time : TimeValue).

(** [asr::ParamArray]: [insert] replaces the value of a key. *)
Abbreviation ParamArray := (gmap string ParamValue).

Record ColorEntity : Type := mkColorEntity {
  ce_name : string;
  ce_value : Color
}.

Record Texture : Type := mkTexture {
  tx_name       : string;
  tx_source     : Texmap;
  tx_procedural : bool;
  tx_time       : TimeValue;
  tx_params     : ParamArray
}.

Record TextureInstance : Type := mkTextureInstance {
  ti_name    : string;
  ti_texture : string
}.

Record BSDF : Type := mkBSDF {
  bsdf_model  : string;
  bsdf_name   : string;
  bsdf_params : ParamArray
}.

Record Shader : Type := mkShader {
  sh_type   : string;
  sh_shader : string;
  sh_layer  : string;
  sh_params : ParamArray
}.

Record Connection : Type := mkConnection {
  cn_src_layer : string;
  cn_src_param : string;
  cn_dst_layer : string;
  cn_dst_param : string
}.

#[global] Instance Connection_eq_dec : EqDecision Connection.
Proof. solve_decision. Defined.

Record ShaderGroup : Type := mkShaderGroup {
  sg_name        : string;
  sg_shaders     : list Shader;
  sg_connections : list Connection
}.

Record Material : Type := mkMaterial {
  mat_model  : string;
  mat_name   : string;
  mat_params : ParamArray
}.

(** [asr::Assembly]: the entity containers the translators fill, each in
    insertion order. *)
Record Assembly : Type := mkAssembly {
  colors            : list ColorEntity;
  textures          : list Texture;
  texture_instances : list TextureInstance;
  shader_groups     : list ShaderGroup;
  bsdfs             : list BSDF
}.

Definition empty_assembly : Assembly := mkAssembly [] [] [] [] [].

(** [ShaderGroupFactory::create], [add_shader], [add_connection]. *)
Definition ShaderGroupFactory_create (name : string) : ShaderGroup :=
  mkShaderGroup name [] [].

Definition add_shader (type shader layer : string) (params : ParamArray)
    (g : ShaderGroup) : ShaderGroup :=
  mkShaderGroup (sg_name g) (sg_shaders g ++ [mkShader type shader layer params])
                (sg_connections g).

Definition add_connection (src_layer src_param dst_layer dst_param : string)
    (g : ShaderGroup) : ShaderGroup :=
  mkShaderGroup (sg_name g) (sg_shaders g)
    (sg_connections g ++ [mkConnection src_layer src_param dst_layer dst_param]).

(** The factories of the fixed-function glass model and of the two kinds
    of material. *)
Definition GlassBSDFFactory_create (name : string) (params : ParamArray) : BSDF :=
  mkBSDF "glass_bsdf" name params.

Definition GenericMaterialFactory_create (name : string) (params : ParamArray)
    : Material :=
  mkMaterial "generic_material" name params.

Definition OSLMaterialFactory_create (name : string) (params : ParamArray)
    : Material :=
  mkMaterial "osl_material" name params.

(** [assembly.bsdfs().insert (...)], [assembly.shader_groups().insert (...)]. *)
Definition insert_bsdf (b : BSDF) (a : Assembly) : Assembly :=
  mkAssembly (colors a) (textures a) (texture_instances a) (shader_groups a)
             (bsdfs a ++ [b]).

Definition insert_shader_group (g : ShaderGroup) (a : Assembly) : Assembly :=
  mkAssembly (colors a) (textures a) (texture_instances a)
             (shader_groups a ++ [g]) (bsdfs a).

(** [std::string::empty]. *)
Definition string_empty (s : string) : bool :=
  match s with
  | EmptyString => true
  | String _ _ => false
  end.

(** The first entity of a container with a given name. *)
Definition get_by_name {A : Type} (name_of : A -> string) (l : list A)
    (name : string) : option A :=
  List.find (fun x => bool_decide (name_of x = name)) l.

(** The host texture map that the name of a texture instance stands for. *)
Definition texture_of_instance (a : Assembly) (instance_name : string)
    : option Texture :=
  match get_by_name ti_name (texture_instances a) instance_name with
  | Some ti => get_by_name tx_name (textures a) (ti_texture ti)
  | None => None
  end.

(* ===================================================================== *)
(** ** The plugin's helpers (utilities.h, oslutils.h) *)
(* ===================================================================== *)

(** Modelled from the spec: [make_unique_name] (utilities.h) is not among
    the sources.  "Names must be made unique deterministically (e.g.,
    suffixing)": the name itself when the container has no entity of that
    name, and otherwise the name followed by the first number that makes
    it new. *)
Definition make_unique_name (names : list string) (name : string) : string :=
  fresh_string_of_set name (list_to_set names).

(** Modelled from the spec: [insert_color] (utilities.h) is not among the
    sources.  It must "insert a new named constant object (color or scalar)
    into the scene". *)
Definition insert_color (a : Assembly) (color : Color) (name : string) : Assembly :=
  mkAssembly (colors a ++ [mkColorEntity name color]) (textures a)
             (texture_instances a) (shader_groups a) (bsdfs a).

(** Modelled from the spec: [insert_texture_and_instance] (utilities.h) is
    not among the sources.  "If a texture is bound, instantiate it as a
    standalone scene object (sharing instances when the same texture is
    reused is permitted but not required) and return its identifier": a
    texture entity for the map, created with the given parameters, and an
    instance of it, both under new names; the name of the instance is
    returned.  Of the two behaviours the spec permits for a map bound to
    several slots, this is the one that does not share: one texture and
    one instance for each call.  With no texture bound nothing is
    inserted and the name is empty, which is what the callers test. *)
Definition insert_texture_and_instance (a : Assembly) (texmap : option Texmap)
    (use_max_procedural_maps : bool) (time : TimeValue)
    (texture_params : ParamArray) : Assembly * string :=
  match texmap with
  | None => (a, "")
  | Some tex =>
      let texture_name :=
        make_unique_name (map tx_name (textures a)) (texmap_name tex +:+ "_texture") in
      let instance_name :=
        make_unique_name (map ti_name (texture_instances a))
                         (texture_name +:+ "_inst") in
      (mkAssembly (colors a)
         (textures a ++ [mkTexture texture_name tex use_max_procedural_maps time
                                   texture_params])
         (texture_instances a ++ [mkTextureInstance instance_name texture_name])
         (shader_groups a) (bsdfs a),
       instance_name)
  end.

Definition fmt_osl_expr_float (f : float) : ParamValue := PExpr (OslFloat f).

Definition fmt_osl_expr_color (c : Color) : ParamValue :=
  PExpr (OslColor (Color.r c) (Color.g c) (Color.b c)).

Definition fmt_osl_expr_string (s : string) : ParamValue := PExpr (OslString s).

(** The OSL shaders of the adapter nodes. *)
Definition color_texture_shader : string := "as_max_color_texture".
Definition float_texture_shader : string := "as_max_float_texture".
Definition bump_map_shader : string := "as_max_bump_map".
Definition normal_map_shader : string := "as_max_normal_map".

(** What an adapter node reads: the texture when one is bound, the
    constant when none is. *)
Definition adapter_input (texmap : option Texmap) (time : TimeValue)
    (constant : ParamValue) : ParamValue :=
  match texmap with
  | Some tex => PTexture tex time
  | None => constant
  end.

Definition layer_names (g : ShaderGroup) : list string := map sh_layer (sg_shaders g).

(** Modelled from the spec: [connect_color_texture] (oslutils.h) is not
    among the sources.  "Construct a uniquely-named adapter node per slot,
    connect the texture's output (if bound) or the constant (if not) to the
    adapter's input, and connect the adapter's output to the target input
    pin on the main shading node." *)
Definition connect_color_texture (g : ShaderGroup)
    (material_node_name material_input_name : string)
    (texmap : option Texmap) (const_color : Color) (time : TimeValue)
    : ShaderGroup :=
  let layer :=
    make_unique_name (layer_names g)
      (material_node_name +:+ "_" +:+ material_input_name +:+ "_color_texture") in
  let g :=
    add_shader "shader" color_texture_shader layer
      (<["Input" := adapter_input texmap time (fmt_osl_expr_color const_color)]> ∅) g in
  add_connection layer "ColorOut" material_node_name material_input_name g.

(** Modelled from the spec: [connect_float_texture] (oslutils.h) is not
    among the sources; the scalar counterpart of [connect_color_texture]. *)
Definition connect_float_texture (g : ShaderGroup)
    (material_node_name material_input_name : string)
    (texmap : option Texmap) (const_value : float) (time : TimeValue)
    : ShaderGroup :=
  let layer :=
    make_unique_name (layer_names g)
      (material_node_name +:+ "_" +:+ material_input_name +:+ "_float_texture") in
  let g :=
    add_shader "shader" float_texture_shader layer
      (<["Input" := adapter_input texmap time (fmt_osl_expr_float const_value)]> ∅) g in
  add_connection layer "FloatOut" material_node_name material_input_name g.

(** Modelled from the spec: [connect_bump_map] (oslutils.h) is not among
    the sources.  "Insert a height-to-normal adapter node wired from the
    bump texture into the main shading node's normal input, parameterized
    by amount." *)
Definition connect_bump_map (g : ShaderGroup)
    (material_node_name material_normal_input_name material_tn_input_name : string)
    (texmap : Texmap) (amount : float) (time : TimeValue) : ShaderGroup :=
  let layer :=
    make_unique_name (layer_names g) (material_node_name +:+ "_bump_map") in
  let g :=
    add_shader "shader" bump_map_shader layer
      (<["Amount" := PFloat amount]> (<["Input" := PTexture texmap time]> ∅)) g in
  let g :=
    add_connection layer "NormalOut" material_node_name material_normal_input_name g in
  add_connection layer "TnOut" material_node_name material_tn_input_name g.

(** Modelled from the spec: [connect_normal_map] (oslutils.h) is not among
    the sources.  "Insert a tangent-space-normal adapter node wired
    similarly, additionally parameterized by up_vector (selects which input
    axis maps to the surface-normal-facing axis: Y or Z) and amount." *)
Definition connect_normal_map (g : ShaderGroup)
    (material_node_name material_normal_input_name material_tn_input_name : string)
    (texmap : Texmap) (up_vector : Z) (amount : float) (time : TimeValue)
    : ShaderGroup :=
  let layer :=
    make_unique_name (layer_names g) (material_node_name +:+ "_normal_map") in
  let g :=
    add_shader "shader" normal_map_shader layer
      (<["Amount" := PFloat amount]>
         (<["UpVector" := PInt up_vector]> (<["Input" := PTexture texmap time]> ∅))) g in
  let g :=
    add_connection layer "NormalOut" material_node_name material_normal_input_name g in
  add_connection layer "TnOut" material_node_name material_tn_input_name g.

(* ===================================================================== *)
(** ** The translators *)
(* ===================================================================== *)

(** [create_osl_material]: the procedural shading graph. *)
Definition create_osl_material (assembly : Assembly) (name : string)
    (time : TimeValue) (m : AppleseedGlassMtl) : Assembly * Material :=
  (* Shader group. *)
  let shader_group_name :=
    make_unique_name (map sg_name (shader_groups assembly))
                     (name +:+ "_shader_group") in
  let shader_group := ShaderGroupFactory_create shader_group_name in
  let shader_group :=
    connect_color_texture shader_group name "SurfaceTransmittance"
      (m_surface_color_texmap m) (m_surface_color m) time in
  let shader_group :=
    connect_color_texture shader_group name "ReflectionTint"
      (m_reflection_tint_texmap m) (m_reflection_tint m) time in
  let shader_group :=
    connect_color_texture shader_group name "RefractionTint"
      (m_refraction_tint_texmap m) (m_refraction_tint m) time in
  let shader_group :=
    connect_color_texture shader_group name "VolumeTransmittance"
      (m_volume_color_texmap m) (m_volume_color m) time in
  let shader_group :=
    connect_float_texture shader_group name "Roughness"
      (m_roughness_texmap m) (F32.div (m_roughness m) F32.hundred) time in
  let shader_group :=
    connect_float_texture shader_group name "Anisotropic"
      (m_anisotropy_texmap m) (F32.div (m_anisotropy m) F32.hundred) time in
  let shader_group :=
    match m_bump_texmap m with
    | Some bump_texmap =>
        if m_bump_method m =? 0 then
          (* Bump mapping. *)
          connect_bump_map shader_group name "Normal" "Tn"
            bump_texmap (m_bump_amount m) time
        else
          (* Normal mapping. *)
          connect_normal_map shader_group name "Normal" "Tn"
            bump_texmap (m_bump_up_vector m) (m_bump_amount m) time
    | None => shader_group
    end in
  let shader_group :=
    add_shader "surface" "as_max_glass_material" name
      (<["Distribution" := fmt_osl_expr_string "ggx"]>
      (<["VolumeTransmittanceDistance" := fmt_osl_expr_float (m_scale m)]>
      (<["Ior" := fmt_osl_expr_float (m_ior m)]>
      (<["Anisotropic" := fmt_osl_expr_float (F32.div (m_anisotropy m) F32.hundred)]>
      (<["Roughness" := fmt_osl_expr_float (F32.div (m_roughness m) F32.hundred)]>
      (<["VolumeTransmittance" := fmt_osl_expr_color (m_volume_color m)]>
      (<["RefractionTint" := fmt_osl_expr_color (m_refraction_tint m)]>
      (<["ReflectionTint" := fmt_osl_expr_color (m_reflection_tint m)]>
      (<["SurfaceTransmittance" := fmt_osl_expr_color (m_surface_color m)]>
         ∅)))))))))
      shader_group in
  let closure2surface_name := name +:+ "_closure2surface" in
  let shader_group :=
    add_shader "shader" "as_max_closure2surface" closure2surface_name ∅
      shader_group in
  let shader_group :=
    add_connection name "ClosureOut" closure2surface_name "in_input" shader_group in
  let assembly := insert_shader_group shader_group assembly in
  (* Material. *)
  let material_params : ParamArray :=
    <["osl_surface" := PString shader_group_name]> ∅ in
  (assembly, OSLMaterialFactory_create name material_params).

(** [create_builtin_material]: the fixed-function glass model. *)
Definition create_builtin_material (assembly : Assembly) (name : string)
    (time : TimeValue) (m : AppleseedGlassMtl) : Assembly * Material :=
  let material_params : ParamArray := ∅ in
  let use_max_procedural_maps := true in
  (* BSDF. *)
  let bsdf_params : ParamArray := <["mdf" := PString "ggx"]> ∅ in
  (* Surface transmittance. *)
  let '(assembly, instance_name) :=
    insert_texture_and_instance assembly (m_surface_color_texmap m)
      use_max_procedural_maps time ∅ in
  let '(assembly, bsdf_params) :=
    if negb (string_empty instance_name) then
      (assembly, <["surface_transmittance" := PString instance_name]> bsdf_params)
    else
      let color_name := name +:+ "_bsdf_surface_transmittance" in
      let assembly := insert_color assembly (m_surface_color m) color_name in
      (assembly, <["surface_transmittance" := PString color_name]> bsdf_params) in
  (* Reflection tint. *)
  let '(assembly, instance_name) :=
    insert_texture_and_instance assembly (m_reflection_tint_texmap m)
      use_max_procedural_maps time ∅ in
  let '(assembly, bsdf_params) :=
    if negb (string_empty instance_name) then
      (assembly, <["reflection_tint" := PString instance_name]> bsdf_params)
    else
      let color_name := name +:+ "_bsdf_reflection_tint" in
      let assembly := insert_color assembly (m_reflection_tint m) color_name in
      (assembly, <["reflection_tint" := PString color_name]> bsdf_params) in
  (* Refraction tint. *)
  let '(assembly, instance_name) :=
    insert_texture_and_instance assembly (m_refraction_tint_texmap m)
      use_max_procedural_maps time ∅ in
  let '(assembly, bsdf_params) :=
    if negb (string_empty instance_name) then
      (assembly, <["refraction_tint" := PString instance_name]> bsdf_params)
    else
      let color_name := name +:+ "_bsdf_refraction_tint" in
      let assembly := insert_color assembly (m_refraction_tint m) color_name in
      (assembly, <["refraction_tint" := PString color_name]> bsdf_params) in
  (* IOR. *)
  let bsdf_params := <["ior" := PFloat (m_ior m)]> bsdf_params in
  (* Roughness. *)
  let '(assembly, instance_name) :=
    insert_texture_and_instance assembly (m_roughness_texmap m)
      use_max_procedural_maps time ∅ in
  let bsdf_params :=
    if negb (string_empty instance_name) then
      <["roughness" := PString instance_name]> bsdf_params
    else
      <["roughness" := PFloat (F32.div (m_roughness m) F32.hundred)]> bsdf_params in
  (* Anisotropy. *)
  let '(assembly, instance_name) :=
    insert_texture_and_instance assembly (m_anisotropy_texmap m)
      use_max_procedural_maps time ∅ in
  let bsdf_params :=
    if negb (string_empty instance_name) then
      <["anisotropic" := PString instance_name]> bsdf_params
    else
      <["anisotropic" := PFloat (m_anisotropy m)]> bsdf_params in
  (* Volume parameterization. *)
  let bsdf_params :=
    <["volume_parameterization" := PString "transmittance"]> bsdf_params in
  (* Volume transmittance. *)
  let '(assembly, instance_name) :=
    insert_texture_and_instance assembly (m_volume_color_texmap m)
      use_max_procedural_maps time ∅ in
  let '(assembly, bsdf_params) :=
    if negb (string_empty instance_name) then
      (assembly, <["volume_transmittance" := PString instance_name]> bsdf_params)
    else
      let color_name := name +:+ "_bsdf_volume_transmittance" in
      let assembly := insert_color assembly (m_volume_color m) color_name in
      (assembly, <["volume_transmittance" := PString color_name]> bsdf_params) in
  (* Volume transmittance distance. *)
  let bsdf_params :=
    <["volume_transmittance_distance" := PFloat (m_scale m)]> bsdf_params in
  (* BSDF. *)
  let bsdf_name := name +:+ "_bsdf" in
  let assembly :=
    insert_bsdf (GlassBSDFFactory_create bsdf_name bsdf_params) assembly in
  let material_params := <["bsdf" := PString bsdf_name]> material_params in
  (* Material: displacement. *)
  let '(assembly, instance_name) :=
    insert_texture_and_instance assembly (m_bump_texmap m)
      use_max_procedural_maps time (<["color_space" := PString "linear_rgb"]> ∅) in
  let material_params :=
    if negb (string_empty instance_name) then
      let material_params :=
        <["displacement_method" :=
            PString (if m_bump_method m =? 0 then "bump" else "normal")]>
          material_params in
      let material_params :=
        <["displacement_map" := PString instance_name]> material_params in
      if m_bump_method m =? 0 then
        let material_params :=
          <["bump_amplitude" := PFloat (m_bump_amount m)]> material_params in
        <["bump_offset" := PFloat F32.half]> material_params
      else if m_bump_method m =? 1 then
        <["normal_map_up" :=
            PString (if m_bump_up_vector m =? 0 then "y" else "z")]>
          material_params
      else material_params
    else material_params in
  (assembly, GenericMaterialFactory_create name material_params).

(** [create_material]: the entry point. *)
Definition create_material (assembly : Assembly) (name : string)
    (use_max_procedural_maps : bool) (time : TimeValue) (m : AppleseedGlassMtl)
    : Assembly * Material :=
  if use_max_procedural_maps
  then create_builtin_material assembly name time m
  else create_osl_material assembly name time m.

(** *** Reading a translation *)

(** The glass model the fixed-function translator registered: the BSDF it
    inserted is the last of the container. *)
Definition emitted_bsdf (r : Assembly * Material) : option BSDF := last (bsdfs r.1).

(** The shading graph the procedural translator registered. *)
Definition emitted_shader_group (r : Assembly * Material) : option ShaderGroup :=
  last (shader_groups r.1).

(** The nodes of a graph that run a given OSL shader. *)
Definition nodes_of_shader (shader : string) (g : ShaderGroup) : list Shader :=
  filter (fun sh => sh_shader sh = shader) (sg_shaders g).

(** The connections of a graph that arrive at a pin of a node. *)
Definition connections_into (layer param : string) (g : ShaderGroup)
    : list Connection :=
  filter (fun c => cn_dst_layer c = layer /\ cn_dst_param c = param)
         (sg_connections g).

(** One assembly extends another when every container of the second
    continues the same container of the first. *)
Definition extends (a a' : Assembly) : Prop :=
  colors a `prefix_of` colors a'
  /\ textures a `prefix_of` textures a'
  /\ texture_instances a `prefix_of` texture_instances a'
  /\ shader_groups a `prefix_of` shader_groups a'
  /\ bsdfs a `prefix_of` bsdfs a'.

(** The pattern [create_builtin_material] repeats for each color input of
    the glass model: the texture instance when the input has a texture, a
    color entity named after the material otherwise. *)
Definition color_input (name : string) (time : TimeValue) (key suffix : string)
    (texmap : option Texmap) (color : Color)
    (assembly : Assembly) (bsdf_params : ParamArray) : Assembly * ParamArray :=
  let '(assembly, instance_name) :=
    insert_texture_and_instance assembly texmap true time ∅ in
  if negb (string_empty instance_name) then
    (assembly, <[key := PString instance_name]> bsdf_params)
  else
    (insert_color assembly color (name +:+ suffix),
     <[key := PString (name +:+ suffix)]> bsdf_params).

(** The same for a scalar input, whose constant goes into the parameter
    array itself. *)
Definition float_input (time : TimeValue) (key : string)
    (texmap : option Texmap) (value : float)
    (assembly : Assembly) (bsdf_params : ParamArray) : Assembly * ParamArray :=
  let '(assembly, instance_name) :=
    insert_texture_and_instance assembly texmap true time ∅ in
  (assembly,
   if negb (string_empty instance_name)
   then <[key := PString instance_name]> bsdf_params
   else <[key := PFloat value]> bsdf_params).

(** The parameters of the glass model, and the scene after resolving its
    inputs. *)
Definition builtin_bsdf_state (assembly : Assembly) (name : string)
    (time : TimeValue) (m : AppleseedGlassMtl) : Assembly * ParamArray :=
  let st := color_input name time "surface_transmittance" "_bsdf_surface_transmittance"
              (m_surface_color_texmap m) (m_surface_color m)
              assembly (<["mdf" := PString "ggx"]> ∅) in
  let st := color_input name time "reflection_tint" "_bsdf_reflection_tint"
              (m_reflection_tint_texmap m) (m_reflection_tint m) st.1 st.2 in
  let st := color_input name time "refraction_tint" "_bsdf_refraction_tint"
              (m_refraction_tint_texmap m) (m_refraction_tint m) st.1 st.2 in
  let st := float_input time "roughness" (m_roughness_texmap m)
              (F32.div (m_roughness m) F32.hundred)
              st.1 (<["ior" := PFloat (m_ior m)]> st.2) in
  let st := float_input time "anisotropic" (m_anisotropy_texmap m)
              (m_anisotropy m) st.1 st.2 in
  let st := color_input name time "volume_transmittance" "_bsdf_volume_transmittance"
              (m_volume_color_texmap m) (m_volume_color m)
              st.1 (<["volume_parameterization" := PString "transmittance"]> st.2) in
  (st.1, <["volume_transmittance_distance" := PFloat (m_scale m)]> st.2).

(** The displacement fields of the material, given the name of the
    instance of the bump texture. *)
Definition displacement_params (m : AppleseedGlassMtl) (instance_name : string)
    (material_params : ParamArray) : ParamArray :=
  if negb (string_empty instance_name) then
    let material_params :=
      <["displacement_map" := PString instance_name]>
        (<["displacement_method" :=
             PString (if m_bump_method m =? 0 then "bump" else "normal")]>
           material_params) in
    if m_bump_method m =? 0 then
      <["bump_offset" := PFloat F32.half]>
        (<["bump_amplitude" := PFloat (m_bump_amount m)]> material_params)
    else if m_bump_method m =? 1 then
      <["normal_map_up" := PString (if m_bump_up_vector m =? 0 then "y" else "z")]>
        material_params
    else material_params
  else material_params.

(** A parameter value refers to a texture map when it is the name of a
    texture instance of the scene that stands for that map. *)
Definition refers_to_texture (a : Assembly) (v : option ParamValue)
    (tex : Texmap) : Prop :=
  exists inst tx,
    v = Some (PString inst)
    /\ texture_of_instance a inst = Some tx
    /\ tx_source tx = tex.

(** What the fixed-function translator must have made of a color input:
    a reference to the texture when one is bound, and otherwise the name of
    a color entity of the scene that holds the constant. *)
Definition color_input_resolved (a : Assembly) (v : option ParamValue)
    (color_name : string) (texmap : option Texmap) (color : Color) : Prop :=
  match texmap with
  | Some tex => refers_to_texture a v tex
  | None =>
      v = Some (PString color_name)
      /\ mkColorEntity color_name color ∈ colors a
  end.

(** The same for a scalar input, whose constant is stored in place. *)
Definition float_input_resolved (a : Assembly) (v : option ParamValue)
    (texmap : option Texmap) (value : float) : Prop :=
  match texmap with
  | Some tex => refers_to_texture a v tex
  | None => v = Some (PFloat value)
  end.

(** The parameters [create_osl_material] bakes into the glass node. *)
Definition glass_node_params (m : AppleseedGlassMtl) : ParamArray :=
  <["Distribution" := fmt_osl_expr_string "ggx"]>
  (<["VolumeTransmittanceDistance" := fmt_osl_expr_float (m_scale m)]>
  (<["Ior" := fmt_osl_expr_float (m_ior m)]>
  (<["Anisotropic" := fmt_osl_expr_float (F32.div (m_anisotropy m) F32.hundred)]>
  (<["Roughness" := fmt_osl_expr_float (F32.div (m_roughness m) F32.hundred)]>
  (<["VolumeTransmittance" := fmt_osl_expr_color (m_volume_color m)]>
  (<["RefractionTint" := fmt_osl_expr_color (m_refraction_tint m)]>
  (<["ReflectionTint" := fmt_osl_expr_color (m_reflection_tint m)]>
  (<["SurfaceTransmittance" := fmt_osl_expr_color (m_surface_color m)]>
     ∅)))))))).

(** An input pin of a node is driven by an adapter when the graph has an
    adapter node of the given shader reading the given input, and the one
    connection that arrives at the pin comes from that node's output. *)
Definition pin_driven_by (g : ShaderGroup) (node pin : string)
    (shader output : string) (input : ParamValue) : Prop :=
  exists adapter,
    adapter ∈ sg_shaders g
    /\ sh_type adapter = "shader"
    /\ sh_shader adapter = shader
    /\ sh_params adapter = <["Input" := input]> ∅
    /\ connections_into node pin g
       = [mkConnection (sh_layer adapter) output node pin].



(* ===================================================================== *)
(** ** The snapshot against the parameter block *)
(* ===================================================================== *)

(** The cached members hold what the parameter block holds at [t]. *)
Definition snapshot_agrees (m : AppleseedGlassMtl) (pb : IParamBlock2)
    (t : TimeValue) : Prop :=
  m_surface_color m = pb_color pb ParamIdSurfaceColor t
  /\ m_surface_color_texmap m = pb_texmap pb ParamIdSurfaceColorTexmap t
  /\ m_reflection_tint m = pb_color pb ParamIdReflectionTint t
  /\ m_reflection_tint_texmap m = pb_texmap pb ParamIdReflectionTintTexmap t
  /\ m_refraction_tint m = pb_color pb ParamIdRefractionTint t
  /\ m_refraction_tint_texmap m = pb_texmap pb ParamIdRefractionTintTexmap t
  /\ m_ior m = pb_float pb ParamIdIOR t
  /\ m_roughness m = pb_float pb ParamIdRoughness t
  /\ m_roughness_texmap m = pb_texmap pb ParamIdRoughnessTexmap t
  /\ m_anisotropy m = pb_float pb ParamIdAnisotropy t
  /\ m_anisotropy_texmap m = pb_texmap pb ParamIdAnisotropyTexmap t
  /\ m_volume_color m = pb_color pb ParamIdVolumeColor t
  /\ m_volume_color_texmap m = pb_texmap pb ParamIdVolumeColorTexmap t
  /\ m_scale m = pb_float pb ParamIdScale t
  /\ m_bump_method m = pb_int pb ParamIdBumpMethod t
  /\ m_bump_texmap m = pb_texmap pb ParamIdBumpTexmap t
  /\ m_bump_amount m = pb_float pb ParamIdBumpAmount t
  /\ m_bump_up_vector m = pb_int pb ParamIdBumpUpVector t.

(** The cache is coherent: at every time of the cached validity interval
    the cached members are the values of the parameter block. *)
Definition coherent (m : AppleseedGlassMtl) : Prop :=
  forall t, Interval.InInterval (m_params_validity m) t = true ->
            snapshot_agrees m (m_pblock m) t.

(** What a validity interval means: the value the block returns for a
    time holds at every time of the interval returned with it. *)
Definition validity_sound (pb : IParamBlock2) : Prop :=
  forall id t t',
    Interval.InInterval (pb_validity pb id t) t' = true ->
    pb_color pb id t' = pb_color pb id t
    /\ pb_float pb id t' = pb_float pb id t
    /\ pb_int pb id t' = pb_int pb id t
    /\ pb_texmap pb id t' = pb_texmap pb id t.

(** The parameters, in the order [Update] reads them. *)
Definition params_read : list ParamId :=
  [ParamIdSurfaceColor; ParamIdSurfaceColorTexmap;
   ParamIdReflectionTint; ParamIdReflectionTintTexmap;
   ParamIdRefractionTint; ParamIdRefractionTintTexmap;
   ParamIdIOR;
   ParamIdRoughness; ParamIdRoughnessTexmap;
   ParamIdAnisotropy; ParamIdAnisotropyTexmap;
   ParamIdVolumeColor; ParamIdVolumeColorTexmap;
   ParamIdScale;
   ParamIdBumpMethod; ParamIdBumpTexmap; ParamIdBumpAmount; ParamIdBumpUpVector].

(** The interval [Update] accumulates on a refresh at [t]: all of time,
    narrowed by the validity of each parameter in turn. *)
Definition refreshed_validity (pb : IParamBlock2) (t : TimeValue) : Interval :=
  foldl (fun iv id => iv &&& pb_validity pb id t) Interval.SetInfinite params_read.

(** The material a refresh at [t] leaves. *)
Definition refreshed (pb : IParamBlock2) (t : TimeValue) : AppleseedGlassMtl :=
  mkGlassMtl pb (refreshed_validity pb t)
    (pb_color pb ParamIdSurfaceColor t) (pb_texmap pb ParamIdSurfaceColorTexmap t)
    (pb_color pb ParamIdReflectionTint t) (pb_texmap pb ParamIdReflectionTintTexmap t)
    (pb_color pb ParamIdRefractionTint t) (pb_texmap pb ParamIdRefractionTintTexmap t)
    (pb_float pb ParamIdIOR t)
    (pb_float pb ParamIdRoughness t) (pb_texmap pb ParamIdRoughnessTexmap t)
    (pb_float pb ParamIdAnisotropy t) (pb_texmap pb ParamIdAnisotropyTexmap t)
    (pb_color pb ParamIdVolumeColor t) (pb_texmap pb ParamIdVolumeColorTexmap t)
    (pb_float pb ParamIdScale t)
    (pb_int pb ParamIdBumpMethod t) (pb_texmap pb ParamIdBumpTexmap t)
    (pb_float pb ParamIdBumpAmount t) (pb_int pb ParamIdBumpUpVector t).

(* ===================================================================== *)
(** ** The tables of the parameter block *)
(* ===================================================================== *)

(** The two rollups of the dialog. *)
Inductive ParamMapId : Type := ParamMapIdGlass | ParamMapIdBump.

#[global] Instance ParamMapId_eq_dec : EqDecision ParamMapId.
Proof. solve_decision. Defined.

(** [enum TexmapId]: a sub-texmap slot is an [int]; the enumerators are
    the indices 0 to 6 and [TexmapCount] comes last. *)
Definition TexmapIdSurfaceColor   : Z := 0.
Definition TexmapIdReflectionTint : Z := 1.
Definition TexmapIdRefractionTint : Z := 2.
Definition TexmapIdRoughness      : Z := 3.
Definition TexmapIdAnisotropy     : Z := 4.
Definition TexmapIdVolumeColor    : Z := 5.
Definition TexmapIdBumpMap        : Z := 6.
Definition TexmapCount            : Z := 7.

Definition g_texmap_slot_names : list string :=
  ["Surface Color"; "Reflection Tint"; "Refraction Tint"; "Roughness";
   "Anisotropy"; "Volume Color"; "Bump Map"].

Definition g_texmap_id_to_param_id : list ParamId :=
  [ParamIdSurfaceColorTexmap;
   ParamIdReflectionTintTexmap;
   ParamIdRefractionTintTexmap;
   ParamIdRoughnessTexmap;
   ParamIdAnisotropyTexmap;
   ParamIdVolumeColorTexmap;
   ParamIdBumpTexmap].

(** [a[i]] for an [int] index into a C array: an index outside the array
    has no defined result. *)
Definition array_at {A : Type} (a : list A) (i : Z) : option A :=
  if 0 <=? i then a !! Z.to_nat i else None.

(** The numbering of [enum ParamId]. *)
Definition ParamId_value (id : ParamId) : Z :=
  match id with
  | ParamIdSurfaceColor => 0
  | ParamIdSurfaceColorTexmap => 1
  | ParamIdReflectionTint => 2
  | ParamIdReflectionTintTexmap => 3
  | ParamIdRefractionTint => 4
  | ParamIdRefractionTintTexmap => 5
  | ParamIdIOR => 6
  | ParamIdRoughness => 7
  | ParamIdRoughnessTexmap => 8
  | ParamIdAnisotropy => 9
  | ParamIdAnisotropyTexmap => 10
  | ParamIdVolumeColor => 11
  | ParamIdVolumeColorTexmap => 12
  | ParamIdScale => 13
  | ParamIdBumpMethod => 14
  | ParamIdBumpTexmap => 15
  | ParamIdBumpAmount => 16
  | ParamIdBumpUpVector => 17
  end.

(** The types and the values a parameter specification of [g_block_desc]
    can carry. *)
Inductive ParamType : Type := TYPE_RGBA | TYPE_FLOAT | TYPE_INT | TYPE_TEXMAP.

#[global] Instance ParamType_eq_dec : EqDecision ParamType.
Proof. solve_decision. Defined.

Inductive PB2Value : Type :=
| VColor (c : Color)
| VFloat (f : float)
| VInt (i : Z).

(** The dialog control of a parameter ([p_ui]); resource identifiers are
    left out. *)
Inductive ControlType : Type :=
| TYPE_COLORSWATCH | TYPE_TEXMAPBUTTON | TYPE_SLIDER | TYPE_SPINNER
| TYPE_INT_COMBOBOX.

(** One parameter specification of the block descriptor. *)
Record ParamDef : Type := mkParamDef {
  pd_id         : ParamId;
  pd_name       : string;
  pd_type       : ParamType;
  pd_animatable : bool;
  pd_default    : option PB2Value;
  pd_range      : option (float * float);
  pd_vals       : list Z;
  pd_subtexno   : option Z;
  pd_map        : ParamMapId;
  pd_control    : ControlType
}.

(** The parameter specifications of [g_block_desc], in the order written. *)
Definition g_block_desc : list ParamDef :=
  [mkParamDef ParamIdSurfaceColor "surface_color" TYPE_RGBA true
     (Some (VColor (Color.mk F32.one F32.one F32.one))) None [] None
     ParamMapIdGlass TYPE_COLORSWATCH;
   mkParamDef ParamIdSurfaceColorTexmap "surface_color_texmap" TYPE_TEXMAP false
     None None [] (Some TexmapIdSurfaceColor)
     ParamMapIdGlass TYPE_TEXMAPBUTTON;
   mkParamDef ParamIdReflectionTint "reflection_tint" TYPE_RGBA true
     (Some (VColor (Color.mk F32.one F32.one F32.one))) None [] None
     ParamMapIdGlass TYPE_COLORSWATCH;
   mkParamDef ParamIdReflectionTintTexmap "reflection_tint_texmap" TYPE_TEXMAP false
     None None [] (Some TexmapIdReflectionTint)
     ParamMapIdGlass TYPE_TEXMAPBUTTON;
   mkParamDef ParamIdRefractionTint "refraction_tint" TYPE_RGBA true
     (Some (VColor (Color.mk F32.one F32.one F32.one))) None [] None
     ParamMapIdGlass TYPE_COLORSWATCH;
   mkParamDef ParamIdRefractionTintTexmap "refraction_tint_texmap" TYPE_TEXMAP false
     None None [] (Some TexmapIdRefractionTint)
     ParamMapIdGlass TYPE_TEXMAPBUTTON;
   mkParamDef ParamIdIOR "ior" TYPE_FLOAT true
     (Some (VFloat F32.one_and_half)) (Some (F32.one, F32.of_Z 4)) [] None
     ParamMapIdGlass TYPE_SLIDER;
   mkParamDef ParamIdRoughness "roughness" TYPE_FLOAT true
     (Some (VFloat F32.zero)) (Some (F32.zero, F32.hundred)) [] None
     ParamMapIdGlass TYPE_SLIDER;
   mkParamDef ParamIdRoughnessTexmap "roughness_texmap" TYPE_TEXMAP false
     None None [] (Some TexmapIdRoughness)
     ParamMapIdGlass TYPE_TEXMAPBUTTON;
   mkParamDef ParamIdAnisotropy "anisotropy" TYPE_FLOAT true
     (Some (VFloat F32.zero)) (Some (F32.of_Z (-1), F32.one)) [] None
     ParamMapIdGlass TYPE_SLIDER;
   mkParamDef ParamIdAnisotropyTexmap "anisotropy_texmap" TYPE_TEXMAP false
     None None [] (Some TexmapIdAnisotropy)
     ParamMapIdGlass TYPE_TEXMAPBUTTON;
   mkParamDef ParamIdVolumeColor "volume_color" TYPE_RGBA true
     (Some (VColor (Color.mk F32.one F32.one F32.one))) None [] None
     ParamMapIdGlass TYPE_COLORSWATCH;
   mkParamDef ParamIdVolumeColorTexmap "volume_color_texmap" TYPE_TEXMAP false
     None None [] (Some TexmapIdVolumeColor)
     ParamMapIdGlass TYPE_TEXMAPBUTTON;
   mkParamDef ParamIdScale "scale" TYPE_FLOAT true
     (Some (VFloat F32.zero)) (Some (F32.zero, F32.of_Z 1000000)) [] None
     ParamMapIdGlass TYPE_SPINNER;
   mkParamDef ParamIdBumpMethod "bump_method" TYPE_INT false
     (Some (VInt 0)) None [0; 1] None
     ParamMapIdBump TYPE_INT_COMBOBOX;
   mkParamDef ParamIdBumpTexmap "bump_texmap" TYPE_TEXMAP false
     None None [] (Some TexmapIdBumpMap)
     ParamMapIdBump TYPE_TEXMAPBUTTON;
   mkParamDef ParamIdBumpAmount "bump_amount" TYPE_FLOAT true
     (Some (VFloat F32.one)) (Some (F32.zero, F32.hundred)) [] None
     ParamMapIdBump TYPE_SPINNER;
   mkParamDef ParamIdBumpUpVector "bump_up_vector" TYPE_INT false
     (Some (VInt 1)) None [0; 1] None
     ParamMapIdBump TYPE_INT_COMBOBOX].

(** The specification of a parameter in the descriptor. *)
Definition param_def (id : ParamId) : option ParamDef :=
  find (fun d => bool_decide (pd_id d = id)) g_block_desc.

(** The value a parameter of the given type starts with: its [p_default],
    and zero (black, a null texmap) where the descriptor gives none. *)
Definition default_color (id : ParamId) : Color :=
  match param_def id with
  | Some (mkParamDef _ _ TYPE_RGBA _ (Some (VColor c)) _ _ _ _ _) => c
  | _ => black
  end.

Definition default_float (id : ParamId) : float :=
  match param_def id with
  | Some (mkParamDef _ _ TYPE_FLOAT _ (Some (VFloat f)) _ _ _ _ _) => f
  | _ => F32.zero
  end.

Definition default_int (id : ParamId) : Z :=
  match param_def id with
  | Some (mkParamDef _ _ TYPE_INT _ (Some (VInt i)) _ _ _ _ _) => i
  | _ => 0
  end.

(** The block [MakeAutoParamBlocks] builds from the descriptor, and to
    which [ClassDesc2::Reset] returns: every parameter at its default, not
    animated. *)
Definition MakeAutoParamBlock : IParamBlock2 :=
  {| pb_color := fun id _ => default_color id;
     pb_float := fun id _ => default_float id;
     pb_int := fun id _ => default_int id;
     pb_texmap := fun _ _ => None;
     pb_validity := fun _ _ => FOREVER |}.

(** [p_range]: whether a float lies within the range of its parameter. *)
Definition in_range (f : float) (range : option (float * float)) : bool :=
  match range with
  | Some (lo, hi) => negb (F32.ltb f lo) && negb (F32.ltb hi f)
  | None => true
  end.

(* ===================================================================== *)
(** ** References and sub-animatables *)
(* ===================================================================== *)

Definition ParamBlockIdGlassMtl : Z := 0.
Definition ParamBlockRefGlassMtl : Z := 0.

(** What a [RefTargetHandle] can point to: a parameter block, or an object
    of another class (on which the [dynamic_cast] gives null). *)
Inductive RefTarget : Type :=
| RefParamBlock (pblock : IParamBlock2)
| RefOther (class_name : string).

Definition NumRefs (m : AppleseedGlassMtl) : Z := 1.

Definition GetReference (i : Z) (m : AppleseedGlassMtl) : option IParamBlock2 :=
  if i =? ParamBlockRefGlassMtl then Some (m_pblock m) else None.

Definition SetReference (i : Z) (rtarg : option RefTarget) (m : AppleseedGlassMtl)
    : AppleseedGlassMtl :=
  if i =? ParamBlockRefGlassMtl then
    match rtarg with
    | Some (RefParamBlock pblock) => set_m_pblock pblock m
    | _ => m
    end
  else m.

Definition NumSubs (m : AppleseedGlassMtl) : Z := NumRefs m.

Definition SubAnim (i : Z) (m : AppleseedGlassMtl) : option IParamBlock2 :=
  GetReference i m.

Definition SubAnimName (i : Z) : string :=
  if i =? ParamBlockRefGlassMtl then "Parameters" else EmptyString.

Definition SubNumToRefNum (subNum : Z) : Z := subNum.

Definition NumParamBlocks : Z := 1.

Definition GetParamBlock (i : Z) (m : AppleseedGlassMtl) : option IParamBlock2 :=
  if i =? ParamBlockRefGlassMtl then Some (m_pblock m) else None.

(** [Reset]: the class descriptor puts every parameter of the block back
    to its default, then the cached interval is emptied.  The cached
    members are not assigned. *)
Definition Reset (m : AppleseedGlassMtl) : AppleseedGlassMtl :=
  let m := set_m_pblock MakeAutoParamBlock m in
  set_m_params_validity Interval.SetEmpty m.

(** [Clone (remap)], on the base-class state and the members: a new
    material is constructed, the base-class state is assigned from [this],
    and reference 0 is replaced by the clone of the parameter block that
    [remap.CloneRef] makes ([ReplaceReference] ends in [SetReference]). *)
Definition Clone {MtlBase : Type} (new_base : MtlBase)
    (CloneRef : IParamBlock2 -> IParamBlock2)
    (this : MtlBase * AppleseedGlassMtl) : MtlBase * AppleseedGlassMtl :=
  let clone := (new_base, AppleseedGlassMtl_new MakeAutoParamBlock) in
  let clone := (this.1, clone.2) in
  let clone :=
    (clone.1,
     SetReference ParamBlockRefGlassMtl
       (Some (RefParamBlock (CloneRef (m_pblock this.2)))) clone.2) in
  clone.

(* ===================================================================== *)
(** ** Sub-texmaps *)
(* ===================================================================== *)

(** [pblock->SetValue(id, t, texmap)] for a texmap parameter. *)
Definition SetValue_texmap (pb : IParamBlock2) (id : ParamId) (t : TimeValue)
    (texmap : option Texmap) : IParamBlock2 :=
  {| pb_color := pb_color pb;
     pb_float := pb_float pb;
     pb_int := pb_int pb;
     pb_texmap := fun id' t' =>
       if decide (id' = id) then texmap else pb_texmap pb id' t';
     pb_validity := pb_validity pb |}.

(** [m_pblock->SetValue(id, t, texmap)] as the material sees it (see
    [pblock_SetValue_color]). *)
Definition pblock_SetValue_texmap (id : ParamId) (t : TimeValue)
    (texmap : option Texmap) (m : AppleseedGlassMtl) : AppleseedGlassMtl :=
  NotifyRefChanged REFMSG_CHANGE
    (set_m_pblock (SetValue_texmap (m_pblock m) id t texmap) m).

(** The dialog, as far as the material drives it: which rollups are
    displayed ([m_pblock->GetMap (map_id)] is null for the others), and
    the calls made on their [IParamMap2]. *)
Definition ParamMaps : Type := ParamMapId -> bool.

Record UICall : Type := SetText {
  ui_map   : ParamMapId;
  ui_param : ParamId;
  ui_text  : string
}.

Definition NumSubTexmaps : Z := TexmapCount.

(** [GetSubTexmap (i)]; [None] where the index is outside the table. *)
Definition GetSubTexmap (i : Z) (m : AppleseedGlassMtl) : option (option Texmap) :=
  let valid := Interval.SetEmpty in
  let texmap_id := i in
  match array_at g_texmap_id_to_param_id texmap_id with
  | None => None
  | Some param_id =>
      let '(texmap, valid) := GetValue pb_texmap (m_pblock m) param_id 0 valid in
      Some texmap
  end.

(** [SetSubTexmap (i, texmap)]: the material afterwards and the calls made
    on the dialog; [None] where the index is outside the table. *)
Definition SetSubTexmap (i : Z) (texmap : option Texmap) (maps : ParamMaps)
    (m : AppleseedGlassMtl) : option (AppleseedGlassMtl * list UICall) :=
  let texmap_id := i in
  match array_at g_texmap_id_to_param_id texmap_id with
  | None => None
  | Some param_id =>
      let m := pblock_SetValue_texmap param_id 0 texmap m in
      if maps ParamMapIdGlass then
        Some (m,
              [SetText ParamMapIdGlass param_id
                 (match texmap with None => EmptyString | Some _ => "M" end)])
      else Some (m, [])
  end.

Definition GetSubTexmapSlotName (i : Z) : option string :=
  array_at g_texmap_slot_names i.

(** The cached member [Update] fills from a texmap parameter. *)
Definition cached_texmap (id : ParamId) (m : AppleseedGlassMtl)
    : option (option Texmap) :=
  match id with
  | ParamIdSurfaceColorTexmap => Some (m_surface_color_texmap m)
  | ParamIdReflectionTintTexmap => Some (m_reflection_tint_texmap m)
  | ParamIdRefractionTintTexmap => Some (m_refraction_tint_texmap m)
  | ParamIdRoughnessTexmap => Some (m_roughness_texmap m)
  | ParamIdAnisotropyTexmap => Some (m_anisotropy_texmap m)
  | ParamIdVolumeColorTexmap => Some (m_volume_color_texmap m)
  | ParamIdBumpTexmap => Some (m_bump_texmap m)
  | _ => None
  end.

(** The cached members other than the parameter block and the interval. *)
Definition same_snapshot (m m' : AppleseedGlassMtl) : Prop :=
  m_surface_color m = m_surface_color m'
  /\ m_surface_color_texmap m = m_surface_color_texmap m'
  /\ m_reflection_tint m = m_reflection_tint m'
  /\ m_reflection_tint_texmap m = m_reflection_tint_texmap m'
  /\ m_refraction_tint m = m_refraction_tint m'
  /\ m_refraction_tint_texmap m = m_refraction_tint_texmap m'
  /\ m_ior m = m_ior m'
  /\ m_roughness m = m_roughness m'
  /\ m_roughness_texmap m = m_roughness_texmap m'
  /\ m_anisotropy m = m_anisotropy m'
  /\ m_anisotropy_texmap m = m_anisotropy_texmap m'
  /\ m_volume_color m = m_volume_color m'
  /\ m_volume_color_texmap m = m_volume_color_texmap m'
  /\ m_scale m = m_scale m'
  /\ m_bump_method m = m_bump_method m'
  /\ m_bump_texmap m = m_bump_texmap m'
  /\ m_bump_amount m = m_bump_amount m'
  /\ m_bump_up_vector m = m_bump_up_vector m'.

(* ===================================================================== *)
(** ** Counting what a translation inserts *)
(* ===================================================================== *)

(** One for a texture map that is bound, and one for one that is not. *)
Definition bound (texmap : option Texmap) : nat :=
  match texmap with Some _ => 1 | None => 0 end.

Definition unbound (texmap : option Texmap) : nat :=
  match texmap with Some _ => 0 | None => 1 end.

(** [a'] is [a] with [ntex] more textures and texture instances and
    [ncol] more color entities, and the same shader groups and BSDFs. *)
Definition grows (a a' : Assembly) (ntex ncol : nat) : Prop :=
  length (textures a') = (length (textures a) + ntex)%nat
  /\ length (texture_instances a') = (length (texture_instances a) + ntex)%nat
  /\ length (colors a') = (length (colors a) + ncol)%nat
  /\ shader_groups a' = shader_groups a
  /\ bsdfs a' = bsdfs a.

(** The keys of the parameters of the glass model. *)
Definition glass_bsdf_keys : gset string :=
  list_to_set
    ["mdf"; "surface_transmittance"; "reflection_tint"; "refraction_tint"; "ior";
     "roughness"; "anisotropic"; "volume_parameterization"; "volume_transmittance";
     "volume_transmittance_distance"].

(* ===================================================================== *)
(** ** Concrete instances, for evaluation *)
(* ===================================================================== *)

(** A parameter block whose parameters are not animated: every value holds
    forever. *)
Definition constant_pblock (c : Color) (f : float) (i : Z) (tx : option Texmap)
    : IParamBlock2 :=
  {| pb_color := fun _ _ => c;
     pb_float := fun _ _ => f;
     pb_int := fun _ _ => i;
     pb_texmap := fun _ _ => tx;
     pb_validity := fun _ _ => FOREVER |}.

(** A material as the constructor leaves it. *)
Definition fresh_material : AppleseedGlassMtl :=
  AppleseedGlassMtl_new (constant_pblock white F32.zero 0 None).

Definition grey50 : Color := Color.mk F32.half F32.half F32.half.

(** A white glass with a refraction tint of (0.5, 0.5, 0.5). *)
Definition grey_tinted_material : AppleseedGlassMtl :=
  let m := fresh_material in
  mkGlassMtl (m_pblock m) (m_params_validity m)
    white None white None grey50 None
    (m_ior m) (m_roughness m) None (m_anisotropy m) None
    white None (m_scale m)
    (m_bump_method m) None (m_bump_amount m) (m_bump_up_vector m).

(** Chunk identifiers and a version tag to run [Save] and [Load] with. *)
Definition sample_chunks : DataChunks.
Proof.
  refine {| ChunkFileFormatVersion := 1; ChunkMtlBase := 4096; FileFormatVersion := 1 |}.
  - discriminate.
  - unfold USHORT_MAX. lia.
Defined.

(** A base-class state made of a name, written as its length followed by
    its bytes. *)
Definition sample_mtlbase : MtlBaseIO :=
  {| MtlBase := list byte;
     MtlBase_bytes := fun name => byte_of_Z (Z.of_nat (length name)) :: name;
     MtlBase_parse := fun bs =>
       match bs with
       | [] => None
       | n :: name =>
           if Z_of_byte n =? Z.of_nat (length name) then Some name else None
       end |}.

(** A host texture map. *)
Definition noise_texmap : Texmap := mkTexmap "Noise" 5.

(** The material of [fresh_material] with given roughness, anisotropy and
    bump settings, and no other texture. *)
Definition sample_material (roughness anisotropy : float)
    (bump_method : Z) (bump_texmap : option Texmap) (bump_amount : float)
    (bump_up_vector : Z) : AppleseedGlassMtl :=
  let m := fresh_material in
  mkGlassMtl (m_pblock m) (m_params_validity m)
    white None white None white None
    (m_ior m) roughness None anisotropy None
    white None (m_scale m)
    bump_method bump_texmap bump_amount bump_up_vector.

(** Roughness 20 on the dialog's scale of 0 to 100. *)
Definition rough_material : AppleseedGlassMtl :=
  sample_material (F32.of_Z 20) F32.zero 0 None F32.one 1.

(** Anisotropy 0.5 on the dialog's scale of -1 to 1. *)
Definition anisotropic_material : AppleseedGlassMtl :=
  sample_material F32.zero F32.half 0 None F32.one 1.

(** A bump map of amount 50. *)
Definition bumpy_material : AppleseedGlassMtl :=
  sample_material F32.zero F32.zero 0 (Some noise_texmap) (F32.of_Z 50) 1.

(** 0.2f and 0.005f, the binary32 values nearest to 1/5 and 1/200. *)
Definition f32_0_2 : float := S754_finite false 13421773 (-26).
Definition f32_0_005 : float := S754_finite false 10737418 (-31).

(* ===================================================================== *)
(** * Properties *)
(* ===================================================================== *)

(** ** Validity intervals *)

Lemma InInterval_inter (i j : Interval) (t : TimeValue) :
  Interval.InInterval i t = true ->
  Interval.InInterval j t = true ->
  Interval.InInterval (i &&& j) t = true.
Proof.
  unfold Interval.InInterval, Interval.inter, Interval.Empty.
  destruct i as [si ei], j as [sj ej]; simpl.
  intros Hi Hj.
  repeat (apply andb_prop in Hi as [Hi ?]); repeat (apply andb_prop in Hj as [Hj ?]).
  apply negb_true_iff, Z.eqb_neq in Hi.
  repeat match goal with
         | H : (_ <=? _) = true |- _ => apply Z.leb_le in H
         end.
  destruct (si =? TIME_NegInfinity) eqn:E1, (ei =? TIME_NegInfinity) eqn:E2,
           (sj =? TIME_NegInfinity) eqn:E3, (ej =? TIME_NegInfinity) eqn:E4; simpl;
    repeat match goal with
           | H : (_ =? _) = true |- _ => apply Z.eqb_eq in H
           | H : (_ =? _) = false |- _ => apply Z.eqb_neq in H
           end; try lia;
    (destruct (Z.min ei ej <? Z.max si sj) eqn:E5;
     [apply Z.ltb_lt in E5; lia |
      simpl; apply Z.ltb_ge in E5;
      rewrite !andb_true_iff, negb_true_iff, Z.eqb_neq, !Z.leb_le; lia]).
Qed.

Lemma InInterval_infinite (t : TimeValue) :
  TIME_NegInfinity < t <= TIME_PosInfinity ->
  Interval.InInterval Interval.SetInfinite t = true.
Proof.
  unfold Interval.InInterval, Interval.SetInfinite; simpl. intros H.
  rewrite !andb_true_iff, negb_true_iff, Z.eqb_neq, !Z.leb_le. lia.
Qed.

(** ** The cached snapshot *)

(** A cache hit: when the cached interval contains [t], [Update] changes
    nothing and notifies nobody. *)
Lemma Update_cache_hit (t : TimeValue) (valid : Interval) (m : AppleseedGlassMtl) :
  Interval.InInterval (m_params_validity m) t = true ->
  Update t valid m = (m, valid &&& m_params_validity m, []).
Proof. intros Hin. unfold Update. rewrite Hin. reflexivity. Qed.

(** After [Update (t)] the cached interval contains [t], provided each
    parameter's validity interval at [t] does. *)
Lemma Update_validity_contains (t : TimeValue) (valid : Interval)
    (m : AppleseedGlassMtl) :
  TIME_NegInfinity <= t <= TIME_PosInfinity ->
  (forall id, Interval.InInterval (pb_validity (m_pblock m) id t) t = true) ->
  Interval.InInterval (m_params_validity (Update t valid m).1.1) t = true.
Proof.
  intros Ht Hhost. unfold Update.
  destruct (Interval.InInterval (m_params_validity m) t) eqn:Hin; simpl; [exact Hin|].
  assert (Hne : t <> TIME_NegInfinity).
  { pose proof (Hhost ParamIdIOR) as Hi. unfold Interval.InInterval in Hi.
    intros ->. rewrite Z.eqb_refl in Hi. discriminate. }
  repeat apply InInterval_inter; try apply Hhost.
  apply InInterval_infinite. lia.
Qed.

(** The refresh reads every slot of the parameter block at [t]. *)
Lemma Update_refresh_reads (t : TimeValue) (valid : Interval)
    (m : AppleseedGlassMtl) :
  Interval.InInterval (m_params_validity m) t = false ->
  let m' := (Update t valid m).1.1 in
  let pb := m_pblock m in
  m_pblock m' = pb /\
  m_surface_color m' = pb_color pb ParamIdSurfaceColor t /\
  m_roughness m' = pb_float pb ParamIdRoughness t /\
  m_anisotropy m' = pb_float pb ParamIdAnisotropy t /\
  m_bump_texmap m' = pb_texmap pb ParamIdBumpTexmap t /\
  (Update t valid m).2 = [mkNotification FOREVER PART_ALL REFMSG_CHANGE].
Proof. intros Hin. unfold Update. rewrite Hin. simpl. repeat split. Qed.

(** C6.  Refreshing twice at the same time is idempotent: once
    [Update (t)] has run, against a parameter block whose validity
    intervals at [t] contain [t], a second [Update (t)] is a cache hit; it
    returns the material unchanged (every cached field and the cached
    validity interval), narrows the caller's interval by the cached one,
    and makes no call of [NotifyDependents]. *)
Theorem Update_idempotent (t : TimeValue) (valid valid' : Interval)
    (m : AppleseedGlassMtl) :
  TIME_NegInfinity <= t <= TIME_PosInfinity ->
  (forall id, Interval.InInterval (pb_validity (m_pblock m) id t) t = true) ->
  let m1 := (Update t valid m).1.1 in
  Update t valid' m1 = (m1, valid' &&& m_params_validity m1, []).
Proof.
  intros Ht Hhost m1.
  apply Update_cache_hit.
  apply Update_validity_contains; assumption.
Qed.

Lemma Update_idempotent_witness :
  let m1 := (Update 160 FOREVER fresh_material).1.1 in
  (Update 160 FOREVER fresh_material).2
    = [mkNotification FOREVER PART_ALL REFMSG_CHANGE]
  /\ Update 160 FOREVER m1 = (m1, FOREVER &&& m_params_validity m1, []).
Proof.
  split; [reflexivity|].
  apply (Update_idempotent 160 FOREVER FOREVER fresh_material).
  - unfold TIME_NegInfinity, TIME_PosInfinity. lia.
  - intros id. reflexivity.
Defined.

(** A change message between the two calls makes the second one refresh
    and notify again: the cache is keyed on the interval, not on [t]. *)
Lemma Update_after_change_notifies :
  let m1 := (Update 160 FOREVER fresh_material).1.1 in
  (Update 160 FOREVER (NotifyRefChanged REFMSG_CHANGE m1)).2
    = [mkNotification FOREVER PART_ALL REFMSG_CHANGE].
Proof. reflexivity. Qed.

(** ** Legacy shading queries *)

Lemma RGBtoHSV_value (c : Color) : Color.b (RGBtoHSV c) = value_channel c.
Proof. reflexivity. Qed.

(** C9.  [GetXParency] is the product of the value channels of the
    surface color and of the refraction tint, each taken from the color's
    hue-saturation-value form; for a white surface color and a refraction
    tint of (0.5, 0.5, 0.5) it is 0.5. *)
Theorem GetXParency_value_product (m : AppleseedGlassMtl) :
  GetXParency m
    = F32.mul (value_channel (m_surface_color m))
              (value_channel (m_refraction_tint m))
  /\ (m_surface_color m = white ->
      m_refraction_tint m = grey50 ->
      GetXParency m = F32.half).
Proof.
  split.
  - unfold GetXParency. rewrite !RGBtoHSV_value. reflexivity.
  - intros Hs Hr. unfold GetXParency. rewrite Hs, Hr. vm_compute. reflexivity.
Qed.

Lemma GetXParency_value_product_witness :
  GetXParency grey_tinted_material = F32.half.
Proof.
  apply (proj2 (GetXParency_value_product grey_tinted_material)); reflexivity.
Defined.

(** The value channel is the largest channel, whatever the hue. *)
Example GetXParency_orange :
  let orange := Color.mk F32.one F32.half F32.zero in
  RGBtoHSV orange = Color.mk (F32.div F32.half (F32.of_Z 6)) F32.one F32.one.
Proof. vm_compute. reflexivity. Qed.

(** C10.  After [SetDiffuse (c, t)], [GetDiffuse] returns [c] without any
    [Update] in between: the setter stores [c] in the parameter block and
    in the cached member [m_surface_color] that the getter returns. *)
Theorem GetDiffuse_SetDiffuse (c : Color) (t : TimeValue) (m : AppleseedGlassMtl) :
  GetDiffuse (SetDiffuse c t m) = c
  /\ pb_color (m_pblock (SetDiffuse c t m)) ParamIdSurfaceColor t = c.
Proof.
  split; [reflexivity|].
  unfold SetDiffuse, pblock_SetValue_color, NotifyRefChanged, SetValue_color.
  simpl. reflexivity.
Qed.

(** The setter also empties the cached interval, so the next [Update]
    re-reads the block and finds the same color there. *)
Lemma Update_after_SetDiffuse (c : Color) (t : TimeValue) (valid : Interval)
    (m : AppleseedGlassMtl) :
  GetDiffuse (Update t valid (SetDiffuse c t m)).1.1 = c.
Proof.
  unfold Update, SetDiffuse, pblock_SetValue_color, NotifyRefChanged; simpl.
  replace (Interval.InInterval Interval.SetEmpty t) with false.
  - simpl. reflexivity.
  - unfold Interval.InInterval, Interval.SetEmpty; simpl.
    destruct (t =? TIME_NegInfinity) eqn:E; simpl; [reflexivity|].
    apply Z.eqb_neq in E. symmetry.
    destruct (TIME_NegInfinity <=? t) eqn:E1, (t <=? TIME_NegInfinity) eqn:E2;
      try reflexivity.
    apply Z.leb_le in E1, E2. lia.
Qed.

(** ** Persistence *)

Lemma Z_of_byte_of_Z (z : Z) : Z_of_byte (byte_of_Z z) = z mod 256.
Proof.
  unfold Z_of_byte, byte_of_Z.
  assert (Hb : 0 <= z mod 256 < 256) by (apply Z.mod_pos_bound; lia).
  destruct (Byte.of_N (Z.to_N (z mod 256))) as [b|] eqn:E.
  - apply Byte.to_of_N in E. rewrite E. lia.
  - apply Byte.of_N_None_iff in E. lia.
Qed.

(** A [USHORT] survives the passage through its two bytes. *)
Lemma USHORT_of_bytes_bytes (v : USHORT) :
  0 <= v <= USHORT_MAX -> USHORT_of_bytes (USHORT_bytes v) = v.
Proof.
  unfold USHORT_MAX. intros Hv. unfold USHORT_of_bytes, USHORT_bytes.
  rewrite !Z_of_byte_of_Z.
  rewrite (Z.mod_small (v / 256) 256)
    by (split; [apply Z.div_pos; lia | apply Z.div_lt_upper_bound; lia]).
  pose proof (Z.div_mod v 256). lia.
Qed.

Lemma IOResult_eqb_eq (a b : IOResult) : IOResult_eqb a b = true <-> a = b.
Proof. destruct a, b; simpl; split; congruence. Qed.

Lemma IOResult_eqb_neq (a b : IOResult) : IOResult_eqb a b = false <-> a <> b.
Proof. destruct a, b; simpl; split; congruence. Qed.

Section PersistenceProperties.

Context `{DataChunks} `{MtlBaseIO}.

(** Simplifies one turn of [Load_loop] on a stream whose head is known. *)
Ltac load_turn :=
  cbn [Load_loop OpenChunk ld_items IOResult_eqb negb];
  unfold Load_chunk, read_USHORT, ILoad_Read, MtlBase_Load;
  cbn -[USHORT_of_bytes take drop Z.eqb Nat.leb Load_loop].

Ltac trace_prefix :=
  first [ eexists; reflexivity
        | exists []; rewrite app_nil_r; reflexivity ].

(** One turn of the loop on an item that loads cleanly. *)
Lemma Load_loop_step (fuel : nat) (base : MtlBase) (it : StreamItem)
    (rest : list StreamItem) (cur : option (Chunk * IOResult))
    (trace : list LoadEvent) :
  loads_cleanly it = true ->
  Load_loop (S fuel) base (mkILoad (it :: rest) cur) trace
  = Load_loop fuel (item_base base it) (mkILoad rest None) (trace ++ item_events it).
Proof.
  destruct it as [[id data] close|]; [|discriminate].
  unfold loads_cleanly, item_base, item_events. cbn [chunk_id chunk_data].
  intros Hc. apply andb_prop in Hc as [Hclose Hbody].
  apply IOResult_eqb_eq in Hclose. subst close.
  load_turn.
  destruct (id =? ChunkFileFormatVersion) eqn:E1.
  - rewrite Hbody. apply Nat.leb_le in Hbody.
    rewrite length_take, Nat.min_l by exact Hbody.
    load_turn. reflexivity.
  - destruct (id =? ChunkMtlBase) eqn:E2.
    + destruct (MtlBase_parse data) as [base'|]; [|discriminate].
      load_turn. reflexivity.
    + load_turn. rewrite app_nil_r. reflexivity.
Qed.

(** One turn of the loop on an item that does not load cleanly: [Load]
    stops there, whatever follows, with a result that is not [IO_OK]. *)
Lemma Load_loop_stop (base : MtlBase) (it : StreamItem)
    (rest : list StreamItem) (cur : option (Chunk * IOResult))
    (trace : list LoadEvent) :
  loads_cleanly it = false ->
  exists out,
    (forall fuel, Load_loop (S fuel) base (mkILoad (it :: rest) cur) trace = Some out)
    /\ lo_result out <> IO_OK
    /\ exists more, lo_trace out = trace ++ more.
Proof.
  destruct it as [[id data] close|].
  2:{ intros _. eexists; split; [intros fuel; reflexivity|]. cbn.
      split; [discriminate|]. exists []. rewrite app_nil_r. reflexivity. }
  unfold loads_cleanly. cbn [chunk_id chunk_data]. intros Hc.
  destruct (id =? ChunkFileFormatVersion) eqn:E1;
    [|destruct (id =? ChunkMtlBase) eqn:E2].
  - destruct (2 <=? length data)%nat eqn:E.
    + rewrite andb_true_r in Hc.
      eexists; split.
      * intros fuel. load_turn. rewrite E1, E. apply Nat.leb_le in E.
        rewrite length_take, Nat.min_l by exact E.
        load_turn. rewrite Hc. load_turn. reflexivity.
      * cbn. split; [apply IOResult_eqb_neq; exact Hc|]. trace_prefix.
    + eexists; split.
      * intros fuel. load_turn. rewrite E1, E. load_turn. reflexivity.
      * cbn. split; [discriminate|]. trace_prefix.
  - destruct (MtlBase_parse data) as [base'|] eqn:Hp.
    + rewrite andb_true_r in Hc.
      eexists; split.
      * intros fuel. load_turn. rewrite E1, E2, Hp. load_turn.
        rewrite Hc. load_turn. reflexivity.
      * cbn. split; [apply IOResult_eqb_neq; exact Hc|]. trace_prefix.
    + eexists; split.
      * intros fuel. load_turn. rewrite E1, E2, Hp. load_turn. reflexivity.
      * cbn. split; [discriminate|]. trace_prefix.
  - rewrite andb_true_r in Hc.
    eexists; split.
    + intros fuel. load_turn. rewrite E1, E2. load_turn.
      rewrite Hc. load_turn. reflexivity.
    + cbn. split; [apply IOResult_eqb_neq; exact Hc|]. trace_prefix.
Qed.

(** The result of the loop does not depend on the fuel, once there is
    more of it than items. *)
Lemma Load_loop_fuel (items : list StreamItem) :
  forall (f1 f2 : nat) (base : MtlBase) (cur : option (Chunk * IOResult))
         (trace : list LoadEvent),
    (length items < f1)%nat -> (length items < f2)%nat ->
    Load_loop f1 base (mkILoad items cur) trace
    = Load_loop f2 base (mkILoad items cur) trace.
Proof.
  induction items as [|it rest IH]; intros f1 f2 base cur trace H1 H2.
  - destruct f1, f2; simpl in *; try lia. reflexivity.
  - destruct f1 as [|f1], f2 as [|f2]; simpl in H1, H2; try lia.
    destruct (loads_cleanly it) eqn:Hit.
    + rewrite !Load_loop_step by exact Hit. apply IH; lia.
    + destruct (Load_loop_stop base it rest cur trace Hit) as (out & Hout & _).
      rewrite !Hout. reflexivity.
Qed.

(** [Load] terminates: with more fuel than items the loop returns; it
    returns [IO_OK] exactly when every item loads cleanly, and has then
    recorded the events of all of them, in order. *)
Lemma Load_loop_outcome (items : list StreamItem) :
  forall (fuel : nat) (base : MtlBase) (cur : option (Chunk * IOResult))
         (trace : list LoadEvent),
    (length items < fuel)%nat ->
    exists out,
      Load_loop fuel base (mkILoad items cur) trace = Some out
      /\ (lo_result out = IO_OK <-> forallb loads_cleanly items = true)
      /\ (lo_result out = IO_OK ->
          lo_trace out = trace ++ concat (map item_events items)
          /\ lo_base out = foldl item_base base items).
Proof.
  induction items as [|it rest IH]; intros fuel base cur trace Hf.
  - destruct fuel as [|fuel]; [simpl in Hf; lia|].
    cbn. eexists; split; [reflexivity|]. cbn. rewrite app_nil_r. tauto.
  - destruct fuel as [|fuel]; [simpl in Hf; lia|].
    simpl in Hf.
    destruct (loads_cleanly it) eqn:Hit.
    + rewrite Load_loop_step by exact Hit.
      destruct (IH fuel (item_base base it) None (trace ++ item_events it))
        as (out & Hout & Hiff & Htr); [lia|].
      exists out. split; [exact Hout|]. split.
      * cbn [forallb]. rewrite Hit. exact Hiff.
      * intros Hok. destruct (Htr Hok) as [-> ->].
        cbn [map concat foldl]. rewrite app_assoc. split; reflexivity.
    + destruct (Load_loop_stop base it rest cur trace Hit) as (out & Hout & Hne & _).
      exists out. split; [apply Hout|]. split.
      * cbn [forallb]. rewrite Hit. cbn. split; [contradiction|discriminate].
      * contradiction.
Qed.


(** [Save] returns [IO_OK] when both the version write and the
    base-class save succeeded, and [IO_ERROR] otherwise; either way both
    chunks are begun and ended. *)
Lemma Save_unfold (base : MtlBase) (isave : ISave) :
  let w := write_USHORT FileFormatVersion (BeginChunk ChunkFileFormatVersion isave) in
  let b := MtlBase_Save base (BeginChunk ChunkMtlBase (EndChunk w.2)) in
  Save base isave
  = (if w.1 && IOResult_eqb b.1 IO_OK then IO_OK else IO_ERROR, EndChunk b.2).
Proof.
  unfold Save.
  destruct (write_USHORT _ _) as [ok s1]. cbn [fst snd].
  destruct (MtlBase_Save _ _) as [r s2]. reflexivity.
Qed.

(** [Save] on a fresh stream that accepts [capacity] bytes. *)
Lemma Save_fresh (base : MtlBase) (capacity : nat) :
  Save base (ISave_new capacity)
  = (if (2 + length (MtlBase_bytes base) <=? capacity)%nat then IO_OK else IO_ERROR,
     mkISave
       [mkChunk ChunkFileFormatVersion (take capacity (USHORT_bytes FileFormatVersion));
        mkChunk ChunkMtlBase (take (capacity - 2) (MtlBase_bytes base))]
       None
       (capacity - 2 - length (MtlBase_bytes base))).
Proof.
  unfold Save, write_USHORT, MtlBase_Save, ISave_Write, BeginChunk, EndChunk, ISave_new.
  cbn [sv_open sv_chunks sv_capacity chunk_id chunk_data app].
  change (length (USHORT_bytes FileFormatVersion)) with 2%nat.
  destruct (2 <=? capacity)%nat eqn:E2.
  - apply Nat.leb_le in E2.
    cbn [sv_open sv_chunks sv_capacity chunk_id chunk_data app IOResult_eqb andb Nat.eqb].
    destruct (length (MtlBase_bytes base) <=? capacity - 2)%nat eqn:Eb.
    + apply Nat.leb_le in Eb.
      cbn [sv_open sv_chunks sv_capacity chunk_id chunk_data app IOResult_eqb andb].
      replace (2 + length (MtlBase_bytes base) <=? capacity)%nat with true
        by (symmetry; apply Nat.leb_le; lia).
      rewrite !take_ge by (cbn; lia). reflexivity.
    + apply Nat.leb_gt in Eb.
      cbn [sv_open sv_chunks sv_capacity chunk_id chunk_data app IOResult_eqb andb].
      replace (2 + length (MtlBase_bytes base) <=? capacity)%nat with false
        by (symmetry; apply Nat.leb_gt; lia).
      rewrite (take_ge (USHORT_bytes _)) by (cbn; lia).
      replace (capacity - 2 - length (MtlBase_bytes base))%nat with 0%nat by lia.
      reflexivity.
  - apply Nat.leb_gt in E2.
    cbn [sv_open sv_chunks sv_capacity chunk_id chunk_data app IOResult_eqb andb].
    replace (2 + length (MtlBase_bytes base) <=? capacity)%nat with false
      by (symmetry; apply Nat.leb_gt; lia).
    replace (capacity - 2)%nat with 0%nat by lia.
    destruct (length (MtlBase_bytes base) <=? 0)%nat eqn:Eb.
    + apply Nat.leb_le in Eb.
      cbn [sv_open sv_chunks sv_capacity chunk_id chunk_data app IOResult_eqb andb].
      rewrite (take_ge (MtlBase_bytes base)) by lia.
      replace (MtlBase_bytes base) with (@nil byte)
        by (destruct (MtlBase_bytes base); [reflexivity|simpl in Eb; lia]).
      reflexivity.
    + cbn [sv_open sv_chunks sv_capacity chunk_id chunk_data app IOResult_eqb andb].
      reflexivity.
Qed.


(** C8, as the code has it.  [Save] returns [IO_OK] if and only if both
    the version write and the base-class save succeeded, and [IO_ERROR]
    otherwise; on a fresh stream that is the case exactly when both chunks
    are on the stream in full.  [Load] always returns; it returns [IO_OK]
    if and only if every item of the stream opened, loaded (the version
    read and the base-class load, for the two identifiers it knows) and
    closed without an error, and it has then read every version chunk and
    every base-state chunk that the stream holds, in order. *)
Theorem Save_Load_report_failure :
  (forall (base : MtlBase) (isave : ISave),
      let w := write_USHORT FileFormatVersion
                 (BeginChunk ChunkFileFormatVersion isave) in
      let b := MtlBase_Save base (BeginChunk ChunkMtlBase (EndChunk w.2)) in
      ((Save base isave).1 = IO_OK <-> w.1 = true /\ b.1 = IO_OK)
      /\ ((Save base isave).1 = IO_OK \/ (Save base isave).1 = IO_ERROR))
  /\ (forall (base : MtlBase) (capacity : nat),
         (Save base (ISave_new capacity)).1 = IO_OK
         <-> sv_chunks (Save base (ISave_new capacity)).2
             = [mkChunk ChunkFileFormatVersion (USHORT_bytes FileFormatVersion);
                mkChunk ChunkMtlBase (MtlBase_bytes base)])
  /\ (forall (base : MtlBase) (items : list StreamItem),
         exists out,
           Load base (ILoad_new items) = Some out
           /\ (lo_result out = IO_OK <-> forallb loads_cleanly items = true)
           /\ (lo_result out = IO_OK ->
               lo_trace out = concat (map item_events items)
               /\ lo_base out = foldl item_base base items)).
Proof.
  split; [|split].
  - intros base isave w b. rewrite Save_unfold. fold w. fold b. cbn [fst].
    destruct w.1, b.1; cbn; split; try (split; intros; intuition congruence);
      auto.
  - intros base capacity. rewrite Save_fresh. cbn [fst snd sv_chunks].
    destruct (2 + length (MtlBase_bytes base) <=? capacity)%nat eqn:E.
    + apply Nat.leb_le in E. rewrite !take_ge by (cbn; lia). tauto.
    + apply Nat.leb_gt in E. split; [discriminate|].
      intros Heq. exfalso.
      injection Heq as Hv Hb.
      apply (f_equal length) in Hv, Hb. rewrite length_take in Hv, Hb.
      cbn [USHORT_bytes length] in Hv. lia.
  - intros base items.
    destruct (Load_loop_outcome items (S (length items)) base None [])
      as (out & Hout & Hiff & Htr); [lia|].
    exists out. split; [exact Hout|]. split; [exact Hiff|exact Htr].
Qed.

End PersistenceProperties.

(** A file holding a version chunk, a chunk of an unknown kind and the
    base-class chunk loads, and the tag is read. *)
Example Load_sample_stream :
  let name := [Byte.x67; Byte.x6c] in
  option_map (fun out => (lo_result out, lo_base out, lo_trace out))
    (@Load sample_chunks sample_mtlbase []
       (ILoad_new
          [ItemChunk (mkChunk 1 [Byte.x07; Byte.x00]) IO_OK;
           ItemChunk (mkChunk 77 [Byte.xff]) IO_OK;
           ItemChunk (mkChunk 4096 (Byte.x02 :: name)) IO_OK]))
  = Some (IO_OK, name, [ReadVersion 7; LoadedMtlBase]).
Proof. vm_compute. reflexivity. Qed.

(** A version chunk cut short is an I/O failure, and ends the load. *)
Example Load_truncated_version :
  option_map (fun out => (lo_result out, lo_trace out))
    (@Load sample_chunks sample_mtlbase []
       (ILoad_new
          [ItemChunk (mkChunk 1 [Byte.x07]) IO_OK;
           ItemChunk (mkChunk 4096 [Byte.x00]) IO_OK]))
  = Some (IO_ERROR, []).
Proof. vm_compute. reflexivity. Qed.

(** [Save] on a medium that takes the tag but not the whole base state
    still writes and closes both chunks, and reports the failure. *)
Example Save_sample_disk_full :
  @Save sample_chunks sample_mtlbase [Byte.x67; Byte.x6c] (ISave_new 3)
  = (IO_ERROR,
     mkISave [mkChunk 1 [Byte.x01; Byte.x00]; mkChunk 4096 [Byte.x02]] None 0).
Proof. vm_compute. reflexivity. Qed.


(** C8, as the claim states it for [Load], fails: a stream that holds the
    base-state chunk and no version chunk loads with [IO_OK] although no
    version was read. *)
Lemma Load_succeeds_without_version_chunk :
  option_map (fun out => (lo_result out, lo_trace out))
    (@Load sample_chunks sample_mtlbase []
       (ILoad_new [ItemChunk (mkChunk 4096 [Byte.x00]) IO_OK]))
  = Some (IO_OK, [LoadedMtlBase])
  /\ ~ @Load_reads_both_chunks_or_fails sample_chunks sample_mtlbase.
Proof.
  split; [vm_compute; reflexivity|].
  intros Hclaim.
  destruct (Hclaim [] [ItemChunk (mkChunk 4096 [Byte.x00]) IO_OK] _ eq_refl)
    as [(_ & [version Hin] & _) | Hne].
  - cbn in Hin. apply list_elem_of_singleton in Hin. discriminate.
  - apply Hne. reflexivity.
Qed.

Lemma Save_Load_report_failure_witness :
  (@Save sample_chunks sample_mtlbase [Byte.x67] (ISave_new 16)).1 = IO_OK
  <-> sv_chunks (@Save sample_chunks sample_mtlbase [Byte.x67] (ISave_new 16)).2
      = [mkChunk 1 [Byte.x01; Byte.x00]; mkChunk 4096 [Byte.x01; Byte.x67]].
Proof.
  apply (proj1 (proj2 (@Save_Load_report_failure sample_chunks sample_mtlbase))
           [Byte.x67] 16%nat).
Defined.


(** ** Names and containers *)

Lemma make_unique_name_fresh (names : list string) (name : string) :
  make_unique_name names name ∉ names.
Proof.
  unfold make_unique_name. intros Hin.
  apply (fresh_string_of_set_fresh (list_to_set names) name).
  apply elem_of_list_to_set. exact Hin.
Qed.

(** A unique name is the name asked for, possibly followed by a number. *)
Lemma fresh_string_extends {A : Type} (m : stringmap A) (s : string) :
  exists suffix, fresh_string s m = s +:+ suffix.
Proof.
  unfold fresh_string. destruct (m !! s) as [a|] eqn:Hs.
  2:{ exists EmptyString. clear Hs.
      induction s as [|c s IH]; [reflexivity|].
      change (String c s = String c (s +:+ EmptyString)). f_equal. exact IH. }
  clear a Hs.
  generalize 0%N (wf_guard 32 (fresh_string_R_wf s m) 0%N). revert m.
  fix FIX 3. intros m n [?]. simpl. unfold fresh_string_go at 1. simpl.
  destruct (Some_dec (m !! _)) as [[??]|?]; [apply FIX|].
  eexists. reflexivity.
Qed.

Lemma string_empty_append (s t : string) :
  string_empty s = false -> string_empty (s +:+ t) = false.
Proof. destruct s; [discriminate|reflexivity]. Qed.

Lemma string_empty_append_r (s t : string) :
  string_empty t = false -> string_empty (s +:+ t) = false.
Proof. intros Ht. induction s as [|c s IH]; [exact Ht|reflexivity]. Qed.

Lemma make_unique_name_nonempty (names : list string) (name : string) :
  string_empty name = false ->
  string_empty (make_unique_name names name) = false.
Proof.
  intros Hn. unfold make_unique_name, fresh_string_of_set.
  match goal with
  | |- context [fresh_string ?s ?m] =>
      destruct (fresh_string_extends m s) as [suffix ->]
  end.
  apply string_empty_append. exact Hn.
Qed.

Lemma get_by_name_None {A : Type} (name_of : A -> string) (l : list A)
    (name : string) :
  name ∉ map name_of l -> get_by_name name_of l name = None.
Proof.
  unfold get_by_name. induction l as [|x l IH]; intros Hn; [reflexivity|].
  cbn. rewrite bool_decide_eq_false_2.
  - apply IH. intros Hin. apply Hn. cbn. right. exact Hin.
  - intros Heq. apply Hn. cbn. rewrite Heq. left.
Qed.

Lemma get_by_name_app_l {A : Type} (name_of : A -> string) (l l' : list A)
    (name : string) (x : A) :
  get_by_name name_of l name = Some x ->
  get_by_name name_of (l ++ l') name = Some x.
Proof.
  unfold get_by_name. induction l as [|y l IH]; [discriminate|].
  cbn. destruct (bool_decide (name_of y = name)); [trivial|exact IH].
Qed.

Lemma get_by_name_snoc_fresh {A : Type} (name_of : A -> string) (l : list A)
    (x : A) :
  name_of x ∉ map name_of l ->
  get_by_name name_of (l ++ [x]) (name_of x) = Some x.
Proof.
  unfold get_by_name. induction l as [|y l IH]; intros Hn; cbn.
  - rewrite bool_decide_eq_true_2 by reflexivity. reflexivity.
  - rewrite bool_decide_eq_false_2.
    + apply IH. intros Hin. apply Hn. cbn. right. exact Hin.
    + intros Heq. apply Hn. cbn. rewrite Heq. left.
Qed.

#[local] Instance extends_refl : Reflexive extends.
Proof. intros a. repeat split; reflexivity. Qed.

#[local] Instance extends_trans : Transitive extends.
Proof.
  intros a b c (?&?&?&?&?) (?&?&?&?&?).
  repeat split; etrans; eassumption.
Qed.

(** Names keep what they stand for when the assembly grows. *)
Lemma texture_of_instance_extends (a a' : Assembly) (inst : string) (tx : Texture) :
  extends a a' ->
  texture_of_instance a inst = Some tx ->
  texture_of_instance a' inst = Some tx.
Proof.
  intros (_ & [t' Ht] & [i' Hi] & _) Hres. unfold texture_of_instance in *.
  destruct (get_by_name ti_name (texture_instances a) inst) as [ti|] eqn:E;
    [|discriminate].
  rewrite Hi, (get_by_name_app_l _ _ _ _ _ E).
  rewrite Ht. apply get_by_name_app_l. exact Hres.
Qed.

(** ** The helpers *)

Lemma insert_color_extends (a : Assembly) (c : Color) (name : string) :
  extends a (insert_color a c name).
Proof.
  unfold insert_color. repeat split; cbn; try reflexivity.
  apply prefix_app_r. reflexivity.
Qed.

Lemma insert_bsdf_extends (a : Assembly) (b : BSDF) :
  extends a (insert_bsdf b a).
Proof.
  unfold insert_bsdf. repeat split; cbn; try reflexivity.
  apply prefix_app_r. reflexivity.
Qed.

(** What [insert_texture_and_instance] does: the scene only grows, no
    color and no BSDF is added; with no texture bound the scene is
    untouched and the name returned is empty; with a texture bound the name
    is not empty and stands for a texture entity made from that texture
    map with the parameters given. *)
Lemma insert_texture_and_instance_spec (a : Assembly) (texmap : option Texmap)
    (procedural : bool) (time : TimeValue) (params : ParamArray) :
  let r := insert_texture_and_instance a texmap procedural time params in
  extends a r.1
  /\ colors r.1 = colors a
  /\ bsdfs r.1 = bsdfs a
  /\ shader_groups r.1 = shader_groups a
  /\ match texmap with
     | None => r = (a, "")
     | Some tex =>
         string_empty r.2 = false
         /\ exists tx,
             texture_of_instance r.1 r.2 = Some tx
             /\ tx_source tx = tex
             /\ tx_time tx = time
             /\ tx_params tx = params
     end.
Proof.
  destruct texmap as [tex|]; cbn.
  2:{ repeat split; reflexivity. }
  split.
  { repeat split; cbn; try reflexivity; apply prefix_app_r; reflexivity. }
  do 3 (split; [reflexivity|]).
  split.
  { apply make_unique_name_nonempty, string_empty_append_r. reflexivity. }
  set (tn := make_unique_name (map tx_name (textures a)) _).
  set (inm := make_unique_name (map ti_name (texture_instances a)) _).
  exists (mkTexture tn tex procedural time params).
  split; [|repeat split].
  unfold texture_of_instance. cbn [fst snd texture_instances textures].
  pose proof (get_by_name_snoc_fresh ti_name (texture_instances a)
                (mkTextureInstance inm tn) (make_unique_name_fresh _ _)) as Hi.
  cbn [ti_name] in Hi. rewrite Hi. cbn [ti_texture].
  exact (get_by_name_snoc_fresh tx_name (textures a)
           (mkTexture tn tex procedural time params) (make_unique_name_fresh _ _)).
Qed.

(** ** The fixed-function translator *)

(** The inline code of a color input is the block [color_input]. *)
Lemma color_block_eq {T : Type} (name : string) (time : TimeValue)
    (key suffix : string) (texmap : option Texmap) (color : Color)
    (a0 : Assembly) (bp : ParamArray) (K : Assembly -> ParamArray -> T) :
  (let '(assembly, instance_name) :=
     insert_texture_and_instance a0 texmap true time ∅ in
   let '(assembly, bsdf_params) :=
     if negb (string_empty instance_name) then
       (assembly, <[key := PString instance_name]> bp)
     else
       let color_name := name +:+ suffix in
       let assembly := insert_color assembly color color_name in
       (assembly, <[key := PString color_name]> bp) in
   K assembly bsdf_params)
  = K (color_input name time key suffix texmap color a0 bp).1
      (color_input name time key suffix texmap color a0 bp).2.
Proof.
  unfold color_input. cbn [fst snd].
  destruct (insert_texture_and_instance a0 texmap true time ∅) as [a n].
  destruct (string_empty n); reflexivity.
Qed.

(** Names the result of the first call of [insert_texture_and_instance]
    that does not depend on another one. *)
Ltac destruct_inner_ita :=
  match goal with
  | |- context [insert_texture_and_instance ?a ?tm ?b ?t ?p] =>
      lazymatch a with
      | context [insert_texture_and_instance] => fail
      | _ => destruct (insert_texture_and_instance a tm b t p) as [? ?]
      end
  end;
  cbn [fst snd].

(** [create_builtin_material] is its blocks, one after the other. *)
Lemma create_builtin_material_blocks (assembly : Assembly) (name : string)
    (time : TimeValue) (m : AppleseedGlassMtl) :
  create_builtin_material assembly name time m
  = let st := builtin_bsdf_state assembly name time m in
    let bsdf_name := name +:+ "_bsdf" in
    let assembly := insert_bsdf (GlassBSDFFactory_create bsdf_name st.2) st.1 in
    let r := insert_texture_and_instance assembly (m_bump_texmap m) true time
               (<["color_space" := PString "linear_rgb"]> ∅) in
    (r.1, GenericMaterialFactory_create name
            (displacement_params m r.2 (<["bsdf" := PString bsdf_name]> ∅))).
Proof.
  unfold create_builtin_material. cbv zeta.
  do 3 (etransitivity; [apply color_block_eq|]).
  unfold builtin_bsdf_state, float_input, displacement_params.
  cbv zeta. cbn [fst snd].
  do 2 destruct_inner_ita.
  etransitivity; [apply color_block_eq|].
  cbn [fst snd]. destruct_inner_ita.
  match goal with
  | |- context [string_empty ?n] => destruct (string_empty n)
  end; reflexivity.
Qed.

Lemma refers_to_texture_extends (a a' : Assembly) (v : option ParamValue)
    (tex : Texmap) :
  extends a a' -> refers_to_texture a v tex -> refers_to_texture a' v tex.
Proof.
  intros Hext (inst & tx & Hv & Hres & Hsrc).
  exists inst, tx. repeat split; try assumption.
  eapply texture_of_instance_extends; eassumption.
Qed.

Lemma color_input_resolved_extends (a a' : Assembly) (v : option ParamValue)
    (color_name : string) (texmap : option Texmap) (color : Color) :
  extends a a' ->
  color_input_resolved a v color_name texmap color ->
  color_input_resolved a' v color_name texmap color.
Proof.
  intros Hext. destruct texmap as [tex|]; cbn.
  - apply refers_to_texture_extends. exact Hext.
  - intros [Hk Hin]. split; [exact Hk|].
    destruct Hext as ([more ->] & _). apply elem_of_app. left. exact Hin.
Qed.

Lemma float_input_resolved_extends (a a' : Assembly) (v : option ParamValue)
    (texmap : option Texmap) (value : float) :
  extends a a' ->
  float_input_resolved a v texmap value ->
  float_input_resolved a' v texmap value.
Proof.
  intros Hext. destruct texmap as [tex|]; cbn; [|trivial].
  apply refers_to_texture_extends. exact Hext.
Qed.

(** One color input. *)
Lemma color_input_spec (name : string) (time : TimeValue) (key suffix : string)
    (texmap : option Texmap) (color : Color) (a0 : Assembly) (bp : ParamArray) :
  let st' := color_input name time key suffix texmap color a0 bp in
  extends a0 st'.1
  /\ bsdfs st'.1 = bsdfs a0
  /\ (forall k, k <> key -> st'.2 !! k = bp !! k)
  /\ color_input_resolved st'.1 (st'.2 !! key) (name +:+ suffix) texmap color.
Proof.
  unfold color_input.
  pose proof (insert_texture_and_instance_spec a0 texmap true time ∅) as Hs.
  cbv zeta in Hs.
  destruct (insert_texture_and_instance a0 texmap true time ∅) as [a n].
  cbn [fst snd] in Hs. destruct Hs as (Hext & Hcol & Hb & _ & Hcase).
  destruct texmap as [tex|].
  - destruct Hcase as (Hne & tx & Hres & Hsrc & _). rewrite Hne. cbn [negb fst snd].
    split; [exact Hext|]. split; [exact Hb|]. split.
    + intros k Hk. apply lookup_insert_ne. congruence.
    + exists n, tx. rewrite lookup_insert_eq. auto.
  - injection Hcase as -> ->. cbn [string_empty negb fst snd].
    split; [apply insert_color_extends|]. split; [reflexivity|].
    split.
    + intros k Hk. apply lookup_insert_ne. congruence.
    + split; [apply lookup_insert_eq|].
      cbn. apply elem_of_app. right. apply list_elem_of_singleton. reflexivity.
Qed.

(** One scalar input. *)
Lemma float_input_spec (time : TimeValue) (key : string)
    (texmap : option Texmap) (value : float) (a0 : Assembly) (bp : ParamArray) :
  let st' := float_input time key texmap value a0 bp in
  extends a0 st'.1
  /\ bsdfs st'.1 = bsdfs a0
  /\ (forall k, k <> key -> st'.2 !! k = bp !! k)
  /\ float_input_resolved st'.1 (st'.2 !! key) texmap value.
Proof.
  unfold float_input.
  pose proof (insert_texture_and_instance_spec a0 texmap true time ∅) as Hs.
  cbv zeta in Hs.
  destruct (insert_texture_and_instance a0 texmap true time ∅) as [a n].
  cbn [fst snd] in Hs. destruct Hs as (Hext & Hcol & Hb & _ & Hcase).
  destruct texmap as [tex|].
  - destruct Hcase as (Hne & tx & Hres & Hsrc & _). rewrite Hne. cbn [negb fst snd].
    split; [exact Hext|]. split; [exact Hb|]. split.
    + intros k Hk. apply lookup_insert_ne. congruence.
    + exists n, tx. rewrite lookup_insert_eq. auto.
  - injection Hcase as -> ->. cbn [string_empty negb fst snd].
    split; [reflexivity|]. split; [reflexivity|].
    split.
    + intros k Hk. apply lookup_insert_ne. congruence.
    + apply lookup_insert_eq.
Qed.

(** Follows a key through the inserts and the blocks that do not set it. *)
Ltac through K1 K2 K3 K4 K5 K6 :=
  repeat first
    [ rewrite lookup_insert_ne by discriminate
    | rewrite K6 by discriminate
    | rewrite K5 by discriminate
    | rewrite K4 by discriminate
    | rewrite K3 by discriminate
    | rewrite K2 by discriminate
    | rewrite K1 by discriminate ].

(** The glass model after all its inputs are resolved: the scene has only
    grown, by no BSDF; the fixed parameters are in place; and every input
    is resolved, to its texture when it has one and to its constant
    otherwise. *)
Lemma builtin_bsdf_state_spec (assembly : Assembly) (name : string)
    (time : TimeValue) (m : AppleseedGlassMtl) :
  let st := builtin_bsdf_state assembly name time m in
  extends assembly st.1
  /\ bsdfs st.1 = bsdfs assembly
  /\ st.2 !! "mdf" = Some (PString "ggx")
  /\ st.2 !! "ior" = Some (PFloat (m_ior m))
  /\ st.2 !! "volume_parameterization" = Some (PString "transmittance")
  /\ st.2 !! "volume_transmittance_distance" = Some (PFloat (m_scale m))
  /\ color_input_resolved st.1 (st.2 !! "surface_transmittance")
       (name +:+ "_bsdf_surface_transmittance")
       (m_surface_color_texmap m) (m_surface_color m)
  /\ color_input_resolved st.1 (st.2 !! "reflection_tint")
       (name +:+ "_bsdf_reflection_tint")
       (m_reflection_tint_texmap m) (m_reflection_tint m)
  /\ color_input_resolved st.1 (st.2 !! "refraction_tint")
       (name +:+ "_bsdf_refraction_tint")
       (m_refraction_tint_texmap m) (m_refraction_tint m)
  /\ float_input_resolved st.1 (st.2 !! "roughness")
       (m_roughness_texmap m) (F32.div (m_roughness m) F32.hundred)
  /\ float_input_resolved st.1 (st.2 !! "anisotropic")
       (m_anisotropy_texmap m) (m_anisotropy m)
  /\ color_input_resolved st.1 (st.2 !! "volume_transmittance")
       (name +:+ "_bsdf_volume_transmittance")
       (m_volume_color_texmap m) (m_volume_color m).
Proof.
  unfold builtin_bsdf_state. cbv zeta.
  set (st1 := color_input name time "surface_transmittance" _ _ _ _ _).
  set (st2 := color_input name time "reflection_tint" _ _ _ _ _).
  set (st3 := color_input name time "refraction_tint" _ _ _ _ _).
  set (st4 := float_input time "roughness" _ _ _ _).
  set (st5 := float_input time "anisotropic" _ _ _ _).
  set (st6 := color_input name time "volume_transmittance" _ _ _ _ _).
  destruct (color_input_spec name time "surface_transmittance"
              "_bsdf_surface_transmittance" (m_surface_color_texmap m)
              (m_surface_color m) assembly (<["mdf" := PString "ggx"]> ∅))
    as (E1 & B1 & K1 & R1).
  destruct (color_input_spec name time "reflection_tint"
              "_bsdf_reflection_tint" (m_reflection_tint_texmap m)
              (m_reflection_tint m) st1.1 st1.2) as (E2 & B2 & K2 & R2).
  destruct (color_input_spec name time "refraction_tint"
              "_bsdf_refraction_tint" (m_refraction_tint_texmap m)
              (m_refraction_tint m) st2.1 st2.2) as (E3 & B3 & K3 & R3).
  destruct (float_input_spec time "roughness" (m_roughness_texmap m)
              (F32.div (m_roughness m) F32.hundred)
              st3.1 (<["ior" := PFloat (m_ior m)]> st3.2)) as (E4 & B4 & K4 & R4).
  destruct (float_input_spec time "anisotropic" (m_anisotropy_texmap m)
              (m_anisotropy m) st4.1 st4.2) as (E5 & B5 & K5 & R5).
  destruct (color_input_spec name time "volume_transmittance"
              "_bsdf_volume_transmittance" (m_volume_color_texmap m)
              (m_volume_color m)
              st5.1 (<["volume_parameterization" := PString "transmittance"]> st5.2))
    as (E6 & B6 & K6 & R6).
  fold st1 in E1, B1, K1, R1. fold st2 in E2, B2, K2, R2.
  fold st3 in E3, B3, K3, R3. fold st4 in E4, B4, K4, R4.
  fold st5 in E5, B5, K5, R5. fold st6 in E6, B6, K6, R6.
  cbn [fst snd] in *.
  assert (X56 : extends st5.1 st6.1) by exact E6.
  assert (X46 : extends st4.1 st6.1) by (etrans; eassumption).
  assert (X36 : extends st3.1 st6.1) by (etrans; eassumption).
  assert (X26 : extends st2.1 st6.1) by (etrans; eassumption).
  assert (X16 : extends st1.1 st6.1) by (etrans; eassumption).
  assert (X06 : extends assembly st6.1) by (etrans; eassumption).
  split; [exact X06|].
  split; [congruence|].
  split; [through K1 K2 K3 K4 K5 K6; apply lookup_insert_eq|].
  split; [through K1 K2 K3 K4 K5 K6; apply lookup_insert_eq|].
  split; [through K1 K2 K3 K4 K5 K6; apply lookup_insert_eq|].
  split; [apply lookup_insert_eq|].
  split.
  { rewrite lookup_insert_ne, K6, lookup_insert_ne, K5, K4, lookup_insert_ne, K3, K2
      by discriminate.
    exact (color_input_resolved_extends _ _ _ _ _ _ X16 R1). }
  split.
  { rewrite lookup_insert_ne, K6, lookup_insert_ne, K5, K4, lookup_insert_ne, K3
      by discriminate.
    exact (color_input_resolved_extends _ _ _ _ _ _ X26 R2). }
  split.
  { rewrite lookup_insert_ne, K6, lookup_insert_ne, K5, K4, lookup_insert_ne
      by discriminate.
    exact (color_input_resolved_extends _ _ _ _ _ _ X36 R3). }
  split.
  { rewrite lookup_insert_ne, K6, lookup_insert_ne, K5 by discriminate.
    exact (float_input_resolved_extends _ _ _ _ _ X46 R4). }
  split.
  { rewrite lookup_insert_ne, K6, lookup_insert_ne by discriminate.
    exact (float_input_resolved_extends _ _ _ _ _ X56 R5). }
  rewrite lookup_insert_ne by discriminate. exact R6.
Qed.

(** ** The procedural translator *)

(** The graph [create_osl_material] registers, node by node and
    connection by connection: the six input adapters, the bump or normal
    adapter when a bump texture is bound, the glass node and the
    closure-to-surface node. *)
Lemma create_osl_material_graph (assembly : Assembly) (name : string)
    (time : TimeValue) (m : AppleseedGlassMtl) :
  exists (l1 l2 l3 l4 l5 l6 gname : string)
         (bump : list Shader) (bump_conns : list Connection),
    create_osl_material assembly name time m
    = (insert_shader_group
         (mkShaderGroup gname
            ([mkShader "shader" color_texture_shader l1
                (<["Input" := adapter_input (m_surface_color_texmap m) time
                                (fmt_osl_expr_color (m_surface_color m))]> ∅);
              mkShader "shader" color_texture_shader l2
                (<["Input" := adapter_input (m_reflection_tint_texmap m) time
                                (fmt_osl_expr_color (m_reflection_tint m))]> ∅);
              mkShader "shader" color_texture_shader l3
                (<["Input" := adapter_input (m_refraction_tint_texmap m) time
                                (fmt_osl_expr_color (m_refraction_tint m))]> ∅);
              mkShader "shader" color_texture_shader l4
                (<["Input" := adapter_input (m_volume_color_texmap m) time
                                (fmt_osl_expr_color (m_volume_color m))]> ∅);
              mkShader "shader" float_texture_shader l5
                (<["Input" := adapter_input (m_roughness_texmap m) time
                                (fmt_osl_expr_float
                                   (F32.div (m_roughness m) F32.hundred))]> ∅);
              mkShader "shader" float_texture_shader l6
                (<["Input" := adapter_input (m_anisotropy_texmap m) time
                                (fmt_osl_expr_float
                                   (F32.div (m_anisotropy m) F32.hundred))]> ∅)]
             ++ bump
             ++ [mkShader "surface" "as_max_glass_material" name (glass_node_params m);
                 mkShader "shader" "as_max_closure2surface"
                   (name +:+ "_closure2surface") ∅])
            ([mkConnection l1 "ColorOut" name "SurfaceTransmittance";
              mkConnection l2 "ColorOut" name "ReflectionTint";
              mkConnection l3 "ColorOut" name "RefractionTint";
              mkConnection l4 "ColorOut" name "VolumeTransmittance";
              mkConnection l5 "FloatOut" name "Roughness";
              mkConnection l6 "FloatOut" name "Anisotropic"]
             ++ bump_conns
             ++ [mkConnection name "ClosureOut" (name +:+ "_closure2surface")
                   "in_input"]))
         assembly,
       OSLMaterialFactory_create name (<["osl_surface" := PString gname]> ∅))
    /\ match m_bump_texmap m with
       | None => bump = [] /\ bump_conns = []
       | Some tex =>
           exists l7,
             bump_conns = [mkConnection l7 "NormalOut" name "Normal";
                           mkConnection l7 "TnOut" name "Tn"]
             /\ bump =
                [if m_bump_method m =? 0 then
                   mkShader "shader" bump_map_shader l7
                     (<["Amount" := PFloat (m_bump_amount m)]>
                        (<["Input" := PTexture tex time]> ∅))
                 else
                   mkShader "shader" normal_map_shader l7
                     (<["Amount" := PFloat (m_bump_amount m)]>
                        (<["UpVector" := PInt (m_bump_up_vector m)]>
                           (<["Input" := PTexture tex time]> ∅)))]
       end.
Proof.
  unfold create_osl_material.
  destruct (m_bump_texmap m) as [tex|]; [destruct (m_bump_method m =? 0)|].
  - do 7 eexists. eexists [_]. eexists [_; _].
    split; [reflexivity|]. eexists. split; reflexivity.
  - do 7 eexists. eexists [_]. eexists [_; _].
    split; [reflexivity|]. eexists. split; reflexivity.
  - do 7 eexists. exists [], []. split; [reflexivity|]. split; reflexivity.
Qed.

(** Computes a filter over a list whose elements decide the predicate by
    their constant fields. *)
Ltac filter_step :=
  first
    [ rewrite filter_app
    | rewrite filter_nil
    | rewrite filter_cons_True by (cbn; first [reflexivity | split; reflexivity])
    | rewrite filter_cons_False
        by (cbn; first [discriminate | intros [_ ?]; discriminate]) ].

Ltac nth_of n l :=
  lazymatch n with
  | O => lazymatch l with ?x :: _ => x end
  | S ?n' => lazymatch l with _ :: ?l' => nth_of n' l' end
  end.

(** The [n]-th adapter of the graph drives the pin. *)
Ltac pin_driven n :=
  lazymatch goal with
  | |- pin_driven_by (mkShaderGroup _ (?l ++ _) _) _ _ _ _ _ =>
      let sh := nth_of n l in
      exists sh; split;
      [ cbn [sg_shaders]; apply elem_of_app; left;
        repeat first [apply list_elem_of_here | apply list_elem_of_further]
      | split; [reflexivity|split; [reflexivity|split; [reflexivity|]]];
        unfold connections_into; cbn [sg_connections sh_layer];
        repeat filter_step; reflexivity ]
  end.

(** The procedural translation, pin by pin. *)
Lemma create_osl_material_spec (assembly : Assembly) (name : string)
    (time : TimeValue) (m : AppleseedGlassMtl) :
  exists g,
    create_osl_material assembly name time m
    = (insert_shader_group g assembly,
       OSLMaterialFactory_create name (<["osl_surface" := PString (sg_name g)]> ∅))
    /\ pin_driven_by g name "SurfaceTransmittance" color_texture_shader "ColorOut"
         (adapter_input (m_surface_color_texmap m) time
            (fmt_osl_expr_color (m_surface_color m)))
    /\ pin_driven_by g name "ReflectionTint" color_texture_shader "ColorOut"
         (adapter_input (m_reflection_tint_texmap m) time
            (fmt_osl_expr_color (m_reflection_tint m)))
    /\ pin_driven_by g name "RefractionTint" color_texture_shader "ColorOut"
         (adapter_input (m_refraction_tint_texmap m) time
            (fmt_osl_expr_color (m_refraction_tint m)))
    /\ pin_driven_by g name "VolumeTransmittance" color_texture_shader "ColorOut"
         (adapter_input (m_volume_color_texmap m) time
            (fmt_osl_expr_color (m_volume_color m)))
    /\ pin_driven_by g name "Roughness" float_texture_shader "FloatOut"
         (adapter_input (m_roughness_texmap m) time
            (fmt_osl_expr_float (F32.div (m_roughness m) F32.hundred)))
    /\ pin_driven_by g name "Anisotropic" float_texture_shader "FloatOut"
         (adapter_input (m_anisotropy_texmap m) time
            (fmt_osl_expr_float (F32.div (m_anisotropy m) F32.hundred)))
    /\ nodes_of_shader "as_max_glass_material" g
       = [mkShader "surface" "as_max_glass_material" name (glass_node_params m)]
    /\ match m_bump_texmap m with
       | None =>
           nodes_of_shader bump_map_shader g = []
           /\ nodes_of_shader normal_map_shader g = []
           /\ connections_into name "Normal" g = []
       | Some tex =>
           exists l7,
             connections_into name "Normal" g
             = [mkConnection l7 "NormalOut" name "Normal"]
             /\ if m_bump_method m =? 0 then
                  nodes_of_shader bump_map_shader g
                  = [mkShader "shader" bump_map_shader l7
                       (<["Amount" := PFloat (m_bump_amount m)]>
                          (<["Input" := PTexture tex time]> ∅))]
                  /\ nodes_of_shader normal_map_shader g = []
                else
                  nodes_of_shader normal_map_shader g
                  = [mkShader "shader" normal_map_shader l7
                       (<["Amount" := PFloat (m_bump_amount m)]>
                          (<["UpVector" := PInt (m_bump_up_vector m)]>
                             (<["Input" := PTexture tex time]> ∅)))]
                  /\ nodes_of_shader bump_map_shader g = []
       end.
Proof.
  destruct (create_osl_material_graph assembly name time m)
    as (l1 & l2 & l3 & l4 & l5 & l6 & gname & bump & bump_conns & Hg & Hbump).
  eexists. split; [exact Hg|].
  unfold color_texture_shader, float_texture_shader, bump_map_shader,
    normal_map_shader in *.
  destruct (m_bump_texmap m) as [tex|].
  - destruct Hbump as (l7 & -> & ->).
    split; [pin_driven 0%nat|]. split; [pin_driven 1%nat|].
    split; [pin_driven 2%nat|]. split; [pin_driven 3%nat|].
    split; [pin_driven 4%nat|]. split; [pin_driven 5%nat|].
    split.
    { unfold nodes_of_shader. cbn [sg_shaders].
      destruct (m_bump_method m =? 0); repeat filter_step; reflexivity. }
    exists l7. split.
    { unfold connections_into. cbn [sg_connections]. repeat filter_step. reflexivity. }
    unfold nodes_of_shader. cbn [sg_shaders].
    destruct (m_bump_method m =? 0); split; repeat filter_step; reflexivity.
  - destruct Hbump as [-> ->].
    split; [pin_driven 0%nat|]. split; [pin_driven 1%nat|].
    split; [pin_driven 2%nat|]. split; [pin_driven 3%nat|].
    split; [pin_driven 4%nat|]. split; [pin_driven 5%nat|].
    unfold nodes_of_shader, connections_into. cbn [sg_shaders sg_connections].
    repeat split; repeat filter_step; reflexivity.
Qed.

(** ** The two translators against the snapshot *)

(** The fixed-function translation: the glass model registered is the one
    built from the resolved inputs, and the material carries displacement
    fields exactly when a bump texture is bound, in which case the texture
    was instantiated with a linear color space. *)
Lemma create_builtin_material_spec (assembly : Assembly) (name : string)
    (time : TimeValue) (m : AppleseedGlassMtl) :
  let r := create_builtin_material assembly name time m in
  let st := builtin_bsdf_state assembly name time m in
  extends st.1 r.1
  /\ emitted_bsdf r = Some (GlassBSDFFactory_create (name +:+ "_bsdf") st.2)
  /\ match m_bump_texmap m with
     | None =>
         r.2 = GenericMaterialFactory_create name
                 (<["bsdf" := PString (name +:+ "_bsdf")]> ∅)
     | Some tex =>
         exists inst tx,
           string_empty inst = false
           /\ r.2 = GenericMaterialFactory_create name
                      (displacement_params m inst
                         (<["bsdf" := PString (name +:+ "_bsdf")]> ∅))
           /\ texture_of_instance r.1 inst = Some tx
           /\ tx_source tx = tex
           /\ tx_params tx = <["color_space" := PString "linear_rgb"]> ∅
     end.
Proof.
  rewrite create_builtin_material_blocks. cbv zeta.
  set (st := builtin_bsdf_state assembly name time m).
  set (a := insert_bsdf _ st.1).
  pose proof (insert_texture_and_instance_spec a (m_bump_texmap m) true time
                (<["color_space" := PString "linear_rgb"]> ∅)) as Hs.
  cbv zeta in Hs.
  destruct (insert_texture_and_instance a (m_bump_texmap m) true time _) as [a' n].
  cbn [fst snd] in *. destruct Hs as (Hext & _ & Hb & _ & Hcase).
  split.
  { etrans; [apply insert_bsdf_extends|exact Hext]. }
  split.
  { unfold emitted_bsdf. cbn [fst]. rewrite Hb. unfold a, insert_bsdf. cbn [bsdfs].
    apply last_snoc. }
  destruct (m_bump_texmap m) as [tex|].
  - destruct Hcase as (Hne & tx & Hres & Hsrc & _ & Hpar).
    exists n, tx. repeat split; assumption.
  - injection Hcase as _ ->. reflexivity.
Qed.

(** The displacement fields for a bound bump texture, by method. *)
Lemma displacement_params_bound (m : AppleseedGlassMtl) (inst name : string) :
  string_empty inst = false ->
  let mp := displacement_params m inst (<["bsdf" := PString name]> ∅) in
  mp !! "bsdf" = Some (PString name)
  /\ mp !! "displacement_map" = Some (PString inst)
  /\ mp !! "displacement_method"
     = Some (PString (if m_bump_method m =? 0 then "bump" else "normal"))
  /\ (m_bump_method m = 0 ->
      mp !! "bump_amplitude" = Some (PFloat (m_bump_amount m))
      /\ mp !! "bump_offset" = Some (PFloat F32.half)
      /\ mp !! "normal_map_up" = None)
  /\ (m_bump_method m = 1 ->
      mp !! "normal_map_up"
      = Some (PString (if m_bump_up_vector m =? 0 then "y" else "z"))
      /\ mp !! "bump_amplitude" = None
      /\ mp !! "bump_offset" = None)
  /\ (m_bump_method m <> 0 -> m_bump_method m <> 1 ->
      mp !! "normal_map_up" = None
      /\ mp !! "bump_amplitude" = None
      /\ mp !! "bump_offset" = None).
Proof.
  intros Hne. unfold displacement_params. rewrite Hne. cbn [negb].
  destruct (m_bump_method m =? 0) eqn:E0; [|destruct (m_bump_method m =? 1) eqn:E1].
  - apply Z.eqb_eq in E0. repeat split; intros; try lia; by simplify_map_eq.
  - apply Z.eqb_eq in E1. repeat split; intros; try lia; by simplify_map_eq.
  - apply Z.eqb_neq in E0, E1. repeat split; intros; try lia; by simplify_map_eq.
Qed.

Lemma emitted_shader_group_insert (g : ShaderGroup) (a : Assembly) (mat : Material) :
  emitted_shader_group (insert_shader_group g a, mat) = Some g.
Proof. unfold emitted_shader_group. cbn. apply last_snoc. Qed.

(** 20 / 100 in binary32 is 0.2f, and 0.2f is the float nearest to 1/5. *)
Lemma F32_div_20_100 :
  F32.div (F32.of_Z 20) F32.hundred = f32_0_2
  /\ F32.is_nearest_to_ratio f32_0_2 1 5.
Proof. split; [vm_compute; reflexivity|]. cbn. lia. Qed.

(** C2.  With no roughness texture bound, both translators hand the
    underlying model the stored roughness divided by 100: the
    fixed-function glass model gets it as its [roughness] parameter; in the
    procedural graph it is the [Roughness] literal of the glass node and the
    constant that the adapter driving the node's [Roughness] pin reads.
    For a stored roughness of 20 that value is 0.2f. *)
Theorem roughness_scaled_in_both_backends (assembly : Assembly) (name : string)
    (time : TimeValue) (m : AppleseedGlassMtl) :
  m_roughness_texmap m = None ->
  let roughness := F32.div (m_roughness m) F32.hundred in
  (exists B,
      emitted_bsdf (create_builtin_material assembly name time m) = Some B
      /\ bsdf_params B !! "roughness" = Some (PFloat roughness))
  /\ (exists g glass,
         emitted_shader_group (create_osl_material assembly name time m) = Some g
         /\ nodes_of_shader "as_max_glass_material" g = [glass]
         /\ sh_params glass !! "Roughness" = Some (fmt_osl_expr_float roughness)
         /\ pin_driven_by g name "Roughness" float_texture_shader "FloatOut"
              (fmt_osl_expr_float roughness))
  /\ (m_roughness m = F32.of_Z 20 ->
      roughness = f32_0_2 /\ F32.is_nearest_to_ratio f32_0_2 1 5).
Proof.
  intros Htex roughness. split; [|split].
  - destruct (create_builtin_material_spec assembly name time m) as (_ & HB & _).
    destruct (builtin_bsdf_state_spec assembly name time m)
      as (_ & _ & _ & _ & _ & _ & _ & _ & _ & Hr & _).
    rewrite Htex in Hr. cbn in Hr.
    eexists. split; [exact HB|exact Hr].
  - destruct (create_osl_material_spec assembly name time m)
      as (g & Hg & _ & _ & _ & _ & Hpin & _ & Hglass & _).
    rewrite Htex in Hpin. cbn [adapter_input] in Hpin.
    exists g, (mkShader "surface" "as_max_glass_material" name (glass_node_params m)).
    rewrite Hg, emitted_shader_group_insert.
    split; [reflexivity|]. split; [exact Hglass|]. split; [|exact Hpin].
    unfold glass_node_params. cbn [sh_params]. by simplify_map_eq.
  - intros H20. unfold roughness. rewrite H20. exact F32_div_20_100.
Qed.

Lemma roughness_scaled_in_both_backends_witness :
  let roughness := F32.div (m_roughness rough_material) F32.hundred in
  (exists B,
      emitted_bsdf (create_builtin_material empty_assembly "glass" 0 rough_material)
      = Some B
      /\ bsdf_params B !! "roughness" = Some (PFloat roughness))
  /\ (exists g glass,
         emitted_shader_group
           (create_osl_material empty_assembly "glass" 0 rough_material) = Some g
         /\ nodes_of_shader "as_max_glass_material" g = [glass]
         /\ sh_params glass !! "Roughness" = Some (fmt_osl_expr_float roughness)
         /\ pin_driven_by g "glass" "Roughness" float_texture_shader "FloatOut"
              (fmt_osl_expr_float roughness))
  /\ (m_roughness rough_material = F32.of_Z 20 ->
      roughness = f32_0_2 /\ F32.is_nearest_to_ratio f32_0_2 1 5).
Proof.
  apply (roughness_scaled_in_both_backends empty_assembly "glass" 0 rough_material).
  reflexivity.
Defined.

(** Scenario D, evaluated: a stored roughness of 20 reaches both backends
    as 0.2f. *)
Example roughness_20_evaluated :
  (option_map (fun B => bsdf_params B !! "roughness")
     (emitted_bsdf (create_builtin_material empty_assembly "glass" 0 rough_material))
   = Some (Some (PFloat f32_0_2)))
  /\ (option_map
        (fun g => map (fun sh => sh_params sh !! "Roughness")
                      (nodes_of_shader "as_max_glass_material" g))
        (emitted_shader_group
           (create_osl_material empty_assembly "glass" 0 rough_material))
      = Some [Some (PExpr (OslFloat f32_0_2))]).
Proof. split; vm_compute; reflexivity. Qed.

(** With no anisotropy texture bound, the procedural translator hands the
    backend the stored anisotropy divided by 100, and the fixed-function
    translator the stored anisotropy as it is. *)
Lemma anisotropy_in_both_backends (assembly : Assembly) (name : string)
    (time : TimeValue) (m : AppleseedGlassMtl) :
  m_anisotropy_texmap m = None ->
  (exists B,
      emitted_bsdf (create_builtin_material assembly name time m) = Some B
      /\ bsdf_params B !! "anisotropic" = Some (PFloat (m_anisotropy m)))
  /\ (exists g glass,
         emitted_shader_group (create_osl_material assembly name time m) = Some g
         /\ nodes_of_shader "as_max_glass_material" g = [glass]
         /\ sh_params glass !! "Anisotropic"
            = Some (fmt_osl_expr_float (F32.div (m_anisotropy m) F32.hundred))
         /\ pin_driven_by g name "Anisotropic" float_texture_shader "FloatOut"
              (fmt_osl_expr_float (F32.div (m_anisotropy m) F32.hundred))).
Proof.
  intros Htex. split.
  - destruct (create_builtin_material_spec assembly name time m) as (_ & HB & _).
    destruct (builtin_bsdf_state_spec assembly name time m)
      as (_ & _ & _ & _ & _ & _ & _ & _ & _ & _ & Ha & _).
    rewrite Htex in Ha. cbn in Ha.
    eexists. split; [exact HB|exact Ha].
  - destruct (create_osl_material_spec assembly name time m)
      as (g & Hg & _ & _ & _ & _ & _ & Hpin & Hglass & _).
    rewrite Htex in Hpin. cbn [adapter_input] in Hpin.
    exists g, (mkShader "surface" "as_max_glass_material" name (glass_node_params m)).
    rewrite Hg, emitted_shader_group_insert.
    split; [reflexivity|]. split; [exact Hglass|]. split; [|exact Hpin].
    unfold glass_node_params. cbn [sh_params]. by simplify_map_eq.
Qed.

(** C1, at an anisotropy of 0.5 with no anisotropy texture: the procedural
    graph is given 0.5 / 100 = 0.005f, on the glass node and on the adapter
    of its [Anisotropic] pin, while the fixed-function glass model is given
    0.5, which is not 0.5 / 100. *)
Theorem anisotropy_unscaled_in_builtin_material :
  m_anisotropy_texmap anisotropic_material = None
  /\ m_anisotropy anisotropic_material = F32.half
  /\ F32.div F32.half F32.hundred = f32_0_005
  /\ (option_map
        (fun g => map (fun sh => sh_params sh !! "Anisotropic")
                      (nodes_of_shader "as_max_glass_material" g))
        (emitted_shader_group
           (create_osl_material empty_assembly "glass" 0 anisotropic_material))
      = Some [Some (PExpr (OslFloat f32_0_005))])
  /\ (option_map
        (fun g => map (fun sh => sh_params sh !! "Input")
                      (nodes_of_shader float_texture_shader g))
        (emitted_shader_group
           (create_osl_material empty_assembly "glass" 0 anisotropic_material))
      = Some [Some (PExpr (OslFloat F32.zero)); Some (PExpr (OslFloat f32_0_005))])
  /\ (option_map (fun B => bsdf_params B !! "anisotropic")
        (emitted_bsdf
           (create_builtin_material empty_assembly "glass" 0 anisotropic_material))
      = Some (Some (PFloat F32.half)))
  /\ F32.half <> F32.div F32.half F32.hundred.
Proof.
  repeat split; try (vm_compute; reflexivity).
  vm_compute. discriminate.
Qed.







(** C4.  With no bump texture bound, neither translator wires any
    displacement.  The procedural graph has no bump adapter and no normal
    adapter, and nothing is connected to the normal pin or to the tangent
    pin of the glass node.  The parameters of the fixed-function material
    are the reference to its BSDF and nothing else, so none of
    [displacement_method], [displacement_map], [bump_amplitude],
    [bump_offset] and [normal_map_up] is set. *)
Theorem no_displacement_without_bump_texmap (assembly : Assembly) (name : string)
    (time : TimeValue) (m : AppleseedGlassMtl) :
  m_bump_texmap m = None ->
  (exists g,
      emitted_shader_group (create_osl_material assembly name time m) = Some g
      /\ nodes_of_shader bump_map_shader g = []
      /\ nodes_of_shader normal_map_shader g = []
      /\ connections_into name "Normal" g = [])
  /\ let material_params :=
       mat_params (create_builtin_material assembly name time m).2 in
     material_params = <["bsdf" := PString (name +:+ "_bsdf")]> ∅
     /\ material_params !! "displacement_method" = None
     /\ material_params !! "displacement_map" = None
     /\ material_params !! "bump_amplitude" = None
     /\ material_params !! "bump_offset" = None
     /\ material_params !! "normal_map_up" = None.
Proof.
  intros Hbump. split.
  - destruct (create_osl_material_spec assembly name time m)
      as (g & Hg & _ & _ & _ & _ & _ & _ & _ & Ho).
    rewrite Hbump in Ho. exists g.
    rewrite Hg, emitted_shader_group_insert. split; [reflexivity|exact Ho].
  - destruct (create_builtin_material_spec assembly name time m) as (_ & _ & Hb).
    rewrite Hbump in Hb. rewrite Hb. cbn [mat_params GenericMaterialFactory_create].
    split; [reflexivity|]. repeat split; apply lookup_insert_ne; discriminate.
Qed.

Lemma no_displacement_without_bump_texmap_witness :
  (exists g,
      emitted_shader_group
        (create_osl_material empty_assembly "glass" 0 rough_material) = Some g
      /\ nodes_of_shader bump_map_shader g = []
      /\ nodes_of_shader normal_map_shader g = []
      /\ connections_into "glass" "Normal" g = [])
  /\ let material_params :=
       mat_params (create_builtin_material empty_assembly "glass" 0 rough_material).2 in
     material_params = <["bsdf" := PString ("glass" +:+ "_bsdf")]> ∅
     /\ material_params !! "displacement_method" = None
     /\ material_params !! "displacement_map" = None
     /\ material_params !! "bump_amplitude" = None
     /\ material_params !! "bump_offset" = None
     /\ material_params !! "normal_map_up" = None.
Proof.
  apply (no_displacement_without_bump_texmap empty_assembly "glass" 0 rough_material).
  reflexivity.
Defined.

(** C5.  With a bump texture bound, the fixed-function translator
    instantiates the texture with a linear color space, names the instance
    in [displacement_map], and sets [displacement_method] to "bump" when
    [bump_method] is 0 and to "normal" otherwise.  In bump mode
    ([bump_method] 0) the material also gets [bump_amplitude], the bump
    amount, and [bump_offset], 0.5, and no [normal_map_up]; in normal mode
    ([bump_method] 1) it gets [normal_map_up], "y" when [bump_up_vector] is
    0 and "z" otherwise, and neither [bump_amplitude] nor [bump_offset]. *)
Theorem builtin_displacement_with_bump_texmap (assembly : Assembly) (name : string)
    (time : TimeValue) (m : AppleseedGlassMtl) (tex : Texmap) :
  m_bump_texmap m = Some tex ->
  let r := create_builtin_material assembly name time m in
  let material_params := mat_params r.2 in
  (exists inst tx,
      material_params !! "displacement_map" = Some (PString inst)
      /\ texture_of_instance r.1 inst = Some tx
      /\ tx_source tx = tex
      /\ tx_params tx !! "color_space" = Some (PString "linear_rgb"))
  /\ material_params !! "displacement_method"
     = Some (PString (if m_bump_method m =? 0 then "bump" else "normal"))
  /\ (m_bump_method m = 0 ->
      material_params !! "bump_amplitude" = Some (PFloat (m_bump_amount m))
      /\ material_params !! "bump_offset" = Some (PFloat F32.half)
      /\ material_params !! "normal_map_up" = None)
  /\ (m_bump_method m = 1 ->
      material_params !! "normal_map_up"
      = Some (PString (if m_bump_up_vector m =? 0 then "y" else "z"))
      /\ material_params !! "bump_amplitude" = None
      /\ material_params !! "bump_offset" = None).
Proof.
  intros Hbump r material_params.
  destruct (create_builtin_material_spec assembly name time m) as (_ & _ & Hb).
  rewrite Hbump in Hb. fold r in Hb.
  destruct Hb as (inst & tx & Hne & Hmat & Hres & Hsrc & Hpar).
  unfold material_params. rewrite Hmat.
  cbn [mat_params GenericMaterialFactory_create].
  destruct (displacement_params_bound m inst (name +:+ "_bsdf") Hne)
    as (_ & Hmap & Hmeth & H0 & H1 & _).
  split.
  { exists inst, tx. split; [exact Hmap|]. split; [exact Hres|].
    split; [exact Hsrc|]. rewrite Hpar. apply lookup_insert_eq. }
  split; [exact Hmeth|]. split; [exact H0|exact H1].
Qed.

Lemma builtin_displacement_with_bump_texmap_witness :
  let r := create_builtin_material empty_assembly "glass" 0 bumpy_material in
  let material_params := mat_params r.2 in
  (exists inst tx,
      material_params !! "displacement_map" = Some (PString inst)
      /\ texture_of_instance r.1 inst = Some tx
      /\ tx_source tx = noise_texmap
      /\ tx_params tx !! "color_space" = Some (PString "linear_rgb"))
  /\ material_params !! "displacement_method"
     = Some (PString (if m_bump_method bumpy_material =? 0 then "bump" else "normal"))
  /\ (m_bump_method bumpy_material = 0 ->
      material_params !! "bump_amplitude"
      = Some (PFloat (m_bump_amount bumpy_material))
      /\ material_params !! "bump_offset" = Some (PFloat F32.half)
      /\ material_params !! "normal_map_up" = None)
  /\ (m_bump_method bumpy_material = 1 ->
      material_params !! "normal_map_up"
      = Some (PString (if m_bump_up_vector bumpy_material =? 0 then "y" else "z"))
      /\ material_params !! "bump_amplitude" = None
      /\ material_params !! "bump_offset" = None).
Proof.
  apply (builtin_displacement_with_bump_texmap empty_assembly "glass" 0
           bumpy_material noise_texmap).
  reflexivity.
Defined.

(** Scenario C, evaluated: a bump map of amount 50. *)
Example bump_50_evaluated :
  let r := create_builtin_material empty_assembly "glass" 0 bumpy_material in
  map (fun key => mat_params r.2 !! key)
      ["displacement_method"; "displacement_map"; "bump_amplitude"; "bump_offset";
       "normal_map_up"]
  = [Some (PString "bump"); Some (PString "Noise_texture_inst");
     Some (PFloat (F32.of_Z 50)); Some (PFloat F32.half); None]
  /\ option_map (fun tx => (tx_source tx, tx_params tx !! "color_space"))
       (texture_of_instance r.1 "Noise_texture_inst")
     = Some (noise_texmap, Some (PString "linear_rgb")).
Proof. split; vm_compute; reflexivity. Qed.

(** A [bump_method] that is neither 0 nor 1 selects "normal" and sets no
    up axis: the [switch] has no case for it. *)
Example bump_method_out_of_range :
  let m := sample_material F32.zero F32.zero 2 (Some noise_texmap) F32.one 0 in
  let r := create_builtin_material empty_assembly "glass" 0 m in
  map (fun key => mat_params r.2 !! key)
      ["displacement_method"; "bump_amplitude"; "bump_offset"; "normal_map_up"]
  = [Some (PString "normal"); None; None; None].
Proof. vm_compute. reflexivity. Qed.

(** The entry point selects the translator by the caller's flag. *)
Lemma create_material_dispatch (assembly : Assembly) (name : string)
    (time : TimeValue) (m : AppleseedGlassMtl) :
  create_material assembly name true time m
  = create_builtin_material assembly name time m
  /\ create_material assembly name false time m
     = create_osl_material assembly name time m.
Proof. split; reflexivity. Qed.

(** ** The cache and the parameter block *)

Lemma InInterval_SetEmpty (t : TimeValue) :
  Interval.InInterval Interval.SetEmpty t = false.
Proof.
  unfold Interval.InInterval, Interval.SetEmpty; simpl.
  destruct (t =? TIME_NegInfinity) eqn:E; simpl; [reflexivity|].
  apply Z.eqb_neq in E.
  destruct (TIME_NegInfinity <=? t) eqn:E1, (t <=? TIME_NegInfinity) eqn:E2;
    try reflexivity.
  apply Z.leb_le in E1, E2. lia.
Qed.

(** A time of an intersection is a time of both intervals. *)
Lemma InInterval_inter_inv (i j : Interval) (t : TimeValue) :
  Interval.InInterval (i &&& j) t = true ->
  Interval.InInterval i t = true /\ Interval.InInterval j t = true.
Proof.
  unfold Interval.inter.
  destruct (Interval.Empty i || Interval.Empty j);
    [rewrite InInterval_SetEmpty; discriminate|].
  destruct (_ <? _); [rewrite InInterval_SetEmpty; discriminate|].
  unfold Interval.InInterval. cbn [Interval.start Interval.end_].
  rewrite !andb_true_iff, !Z.leb_le. lia.
Qed.

(** [Update] on a stale cache. *)
Lemma Update_miss (t : TimeValue) (valid : Interval) (m : AppleseedGlassMtl) :
  Interval.InInterval (m_params_validity m) t = false ->
  Update t valid m
  = (refreshed (m_pblock m) t,
     valid &&& refreshed_validity (m_pblock m) t,
     [mkNotification FOREVER PART_ALL REFMSG_CHANGE]).
Proof.
  intros Hin. unfold Update. rewrite Hin. cbn [negb]. unfold GetValue.
  cbv beta iota zeta. unfold refreshed, refreshed_validity, params_read.
  cbn [foldl]. reflexivity.
Qed.

(** Every parameter is read on a refresh. *)
Lemma params_read_all (id : ParamId) : id ∈ params_read.
Proof.
  unfold params_read. destruct id;
    repeat first [apply list_elem_of_here | apply list_elem_of_further].
Qed.

(** A time of the accumulated interval is a time of the validity of
    every parameter read. *)
Lemma foldl_validity_in (pb : IParamBlock2) (t t' : TimeValue) (ids : list ParamId) :
  forall iv,
    Interval.InInterval
      (foldl (fun iv id => iv &&& pb_validity pb id t) iv ids) t' = true ->
    Interval.InInterval iv t' = true
    /\ forall id, id ∈ ids -> Interval.InInterval (pb_validity pb id t) t' = true.
Proof.
  induction ids as [|i ids IH]; intros iv H; cbn [foldl] in H.
  - split; [exact H|]. intros id Hin. apply elem_of_nil in Hin. contradiction.
  - apply IH in H as [H Hall]. apply InInterval_inter_inv in H as [Hiv Hi].
    split; [exact Hiv|]. intros id Hin.
    apply elem_of_cons in Hin as [->|Hin]; [exact Hi|apply Hall; exact Hin].
Qed.

Lemma refreshed_validity_in (pb : IParamBlock2) (t t' : TimeValue) (id : ParamId) :
  Interval.InInterval (refreshed_validity pb t) t' = true ->
  Interval.InInterval (pb_validity pb id t) t' = true.
Proof.
  unfold refreshed_validity. intros H.
  exact (proj2 (foldl_validity_in pb t t' params_read Interval.SetInfinite H)
               id (params_read_all id)).
Qed.

Lemma refreshed_agrees (pb : IParamBlock2) (t : TimeValue) :
  snapshot_agrees (refreshed pb t) pb t.
Proof. unfold snapshot_agrees, refreshed. cbn. repeat split. Qed.

(** X1.  A change message makes the next [Update] refresh, at whatever
    time: every cached member is read again from the parameter block at
    that time, and the dependents are notified once. *)
Theorem Update_after_change_refreshes (t : TimeValue) (valid : Interval)
    (m : AppleseedGlassMtl) :
  let r := Update t valid (NotifyRefChanged REFMSG_CHANGE m) in
  snapshot_agrees r.1.1 (m_pblock m) t
  /\ m_pblock r.1.1 = m_pblock m
  /\ r.2 = [mkNotification FOREVER PART_ALL REFMSG_CHANGE].
Proof.
  rewrite Update_miss by (destruct m; apply InInterval_SetEmpty).
  cbn [fst snd]. destruct m.
  split; [apply refreshed_agrees|]. split; reflexivity.
Qed.

(** X2.  [Update] keeps the cache coherent, for a parameter block whose
    validity intervals are sound: afterwards, at every time of the cached
    interval, and not only at the time asked for, the cached members are
    the values of the block. *)
Theorem Update_keeps_coherent (t : TimeValue) (valid : Interval)
    (m : AppleseedGlassMtl) :
  validity_sound (m_pblock m) ->
  coherent m ->
  coherent (Update t valid m).1.1.
Proof.
  intros Hs Hc.
  destruct (Interval.InInterval (m_params_validity m) t) eqn:Hin.
  { rewrite Update_cache_hit by exact Hin. exact Hc. }
  rewrite Update_miss by exact Hin. cbn [fst].
  unfold coherent, snapshot_agrees, refreshed.
  cbn [m_pblock m_params_validity m_surface_color m_surface_color_texmap
       m_reflection_tint m_reflection_tint_texmap m_refraction_tint
       m_refraction_tint_texmap m_ior m_roughness m_roughness_texmap
       m_anisotropy m_anisotropy_texmap m_volume_color m_volume_color_texmap
       m_scale m_bump_method m_bump_texmap m_bump_amount m_bump_up_vector].
  intros t' Ht'.
  assert (Hv : forall id,
             Interval.InInterval (pb_validity (m_pblock m) id t) t' = true)
    by (intros id; exact (refreshed_validity_in _ _ _ id Ht')).
  repeat split; symmetry;
    match goal with
    | |- _ _ ?id _ = _ => destruct (Hs id t t' (Hv id)) as (?&?&?&?); assumption
    end.
Qed.

Lemma constant_pblock_validity_sound (c : Color) (f : float) (i : Z)
    (tx : option Texmap) :
  validity_sound (constant_pblock c f i tx).
Proof. intros id t t' _. repeat split. Qed.

(** An empty cached interval makes the cache coherent, whatever it holds. *)
Lemma coherent_of_empty (m : AppleseedGlassMtl) :
  m_params_validity m = Interval.SetEmpty -> coherent m.
Proof. intros He t Ht. rewrite He, InInterval_SetEmpty in Ht. discriminate. Qed.

Lemma Update_keeps_coherent_witness :
  validity_sound (m_pblock fresh_material)
  /\ coherent fresh_material
  /\ coherent (Update 160 FOREVER fresh_material).1.1.
Proof.
  assert (Hs : validity_sound (m_pblock fresh_material))
    by apply constant_pblock_validity_sound.
  assert (Hc : coherent fresh_material)
    by (apply coherent_of_empty; reflexivity).
  split; [exact Hs|]. split; [exact Hc|].
  exact (Update_keeps_coherent 160 FOREVER fresh_material Hs Hc).
Defined.

(** X4.  [Update] only narrows the caller's interval: a time of the
    interval it returns is a time of the interval passed in and of the
    cached interval; and [Validity (t)] contains [t] when the validity
    intervals of the block at [t] do. *)
Theorem Update_narrows_validity (t : TimeValue) (valid : Interval)
    (m : AppleseedGlassMtl) :
  (forall t',
      Interval.InInterval (Update t valid m).1.2 t' = true ->
      Interval.InInterval valid t' = true
      /\ Interval.InInterval (m_params_validity (Update t valid m).1.1) t' = true)
  /\ (TIME_NegInfinity <= t <= TIME_PosInfinity ->
      (forall id, Interval.InInterval (pb_validity (m_pblock m) id t) t = true) ->
      Interval.InInterval (Validity t m).1.2 t = true).
Proof.
  split.
  - destruct (Interval.InInterval (m_params_validity m) t) eqn:Hin.
    + rewrite Update_cache_hit by exact Hin. cbn [fst snd].
      intros t' Ht'. apply InInterval_inter_inv. exact Ht'.
    + rewrite Update_miss by exact Hin. cbn [fst snd].
      unfold refreshed. cbn [m_params_validity].
      intros t' Ht'. apply InInterval_inter_inv. exact Ht'.
  - intros Hr Hhost. unfold Validity.
    pose proof (Update_validity_contains t FOREVER m Hr Hhost) as Hv.
    assert (Hne : t <> TIME_NegInfinity).
    { pose proof (Hhost ParamIdIOR) as Hi. unfold Interval.InInterval in Hi.
      intros ->. rewrite Z.eqb_refl in Hi. discriminate. }
    assert (HF : Interval.InInterval FOREVER t = true)
      by (apply InInterval_infinite; lia).
    revert Hv.
    destruct (Interval.InInterval (m_params_validity m) t) eqn:Hin.
    + rewrite Update_cache_hit by exact Hin. cbn [fst snd].
      intros Hv. apply InInterval_inter; assumption.
    + rewrite Update_miss by exact Hin. cbn [fst snd].
      unfold refreshed. cbn [m_params_validity].
      intros Hv. apply InInterval_inter; assumption.
Qed.

Lemma Update_narrows_validity_witness :
  Interval.InInterval (Validity 160 fresh_material).1.2 160 = true.
Proof.
  apply (proj2 (Update_narrows_validity 160 FOREVER fresh_material)).
  - unfold TIME_NegInfinity, TIME_PosInfinity. lia.
  - intros id. reflexivity.
Defined.

(** X5.  The color given to [SetDiffuse] at [t] survives the refresh:
    the [Update] at [t] that follows reads it back from the block, and
    notifies the dependents. *)
Theorem SetDiffuse_then_Update (c : Color) (t : TimeValue) (valid : Interval)
    (m : AppleseedGlassMtl) :
  let r := Update t valid (SetDiffuse c t m) in
  GetDiffuse r.1.1 = c
  /\ r.2 = [mkNotification FOREVER PART_ALL REFMSG_CHANGE]
  /\ (forall id, id <> ParamIdSurfaceColor ->
                 pb_color (m_pblock r.1.1) id t = pb_color (m_pblock m) id t).
Proof.
  cbv zeta. rewrite Update_miss by apply InInterval_SetEmpty.
  cbn [fst snd]. unfold GetDiffuse, refreshed.
  cbn [m_surface_color m_pblock].
  unfold SetDiffuse, pblock_SetValue_color, set_m_surface_color, NotifyRefChanged,
    set_m_params_validity, set_m_pblock.
  cbn [m_pblock]. unfold SetValue_color. cbn [pb_color].
  split; [|split; [reflexivity|]].
  - destruct (decide (ParamIdSurfaceColor = ParamIdSurfaceColor)); [reflexivity|contradiction].
  - intros id Hid.
    destruct (decide (id = ParamIdSurfaceColor)); [contradiction|reflexivity].
Qed.

(* ===================================================================== *)
(** ** The tables, the references and the sub-texmaps *)
(* ===================================================================== *)

Lemma array_at_Some {A : Type} (a : list A) (i : Z) (x : A) :
  array_at a i = Some x -> 0 <= i < Z.of_nat (length a).
Proof.
  unfold array_at. destruct (0 <=? i) eqn:Hi; [|discriminate].
  intros Hx. apply lookup_lt_Some in Hx. lia.
Qed.

Lemma array_at_is_Some {A : Type} (a : list A) (i : Z) :
  0 <= i < Z.of_nat (length a) -> is_Some (array_at a i).
Proof.
  intros Hi. unfold array_at.
  destruct (0 <=? i) eqn:H0; [|lia]. apply lookup_lt_is_Some. lia.
Qed.

(** A slot index is one of the seven enumerators. *)
Lemma slot_cases (i : Z) :
  0 <= i < NumSubTexmaps ->
  i = 0 \/ i = 1 \/ i = 2 \/ i = 3 \/ i = 4 \/ i = 5 \/ i = 6.
Proof. unfold NumSubTexmaps, TexmapCount. lia. Qed.

Ltac slots H :=
  apply slot_cases in H;
  destruct H as [->|[->|[->|[->|[->|[->| ->]]]]]].

(** No two slots share a parameter. *)
Lemma g_texmap_id_to_param_id_inj (i j : Z) (id : ParamId) :
  array_at g_texmap_id_to_param_id i = Some id ->
  array_at g_texmap_id_to_param_id j = Some id ->
  i = j.
Proof.
  intros Hi Hj.
  pose proof (array_at_Some _ _ _ Hi) as Ri.
  pose proof (array_at_Some _ _ _ Hj) as Rj.
  change (Z.of_nat (length g_texmap_id_to_param_id)) with NumSubTexmaps in Ri, Rj.
  slots Ri; slots Rj; first [reflexivity | cbv in Hi, Hj; congruence].
Qed.

Lemma pblock_SetValue_texmap_pblock (id : ParamId) (t : TimeValue)
    (texmap : option Texmap) (m : AppleseedGlassMtl) :
  m_pblock (pblock_SetValue_texmap id t texmap m)
  = SetValue_texmap (m_pblock m) id t texmap.
Proof. reflexivity. Qed.

Lemma pblock_SetValue_texmap_validity (id : ParamId) (t : TimeValue)
    (texmap : option Texmap) (m : AppleseedGlassMtl) :
  m_params_validity (pblock_SetValue_texmap id t texmap m) = Interval.SetEmpty.
Proof. reflexivity. Qed.

Lemma SetSubTexmap_material (i : Z) (texmap : option Texmap) (maps : ParamMaps)
    (m : AppleseedGlassMtl) :
  0 <= i < NumSubTexmaps ->
  exists id,
    array_at g_texmap_id_to_param_id i = Some id
    /\ SetSubTexmap i texmap maps m
       = Some (pblock_SetValue_texmap id 0 texmap m,
               if maps ParamMapIdGlass
               then [SetText ParamMapIdGlass id
                       match texmap with None => EmptyString | Some _ => "M" end]
               else []).
Proof.
  intros Hi.
  destruct (array_at_is_Some g_texmap_id_to_param_id i Hi) as [id Hid].
  exists id. split; [exact Hid|].
  unfold SetSubTexmap. rewrite Hid. destruct (maps ParamMapIdGlass); reflexivity.
Qed.

(** X6.  [SetSubTexmap] then [GetSubTexmap]: a texmap put in a slot is
    the one read back from it, the other slots and the parameters that are
    no texmaps keep their values, the cached members are not assigned and
    the cached interval is emptied; outside the seven slots neither
    function has a result. *)
Theorem SetSubTexmap_GetSubTexmap (i : Z) (texmap : option Texmap)
    (maps : ParamMaps) (m : AppleseedGlassMtl) :
  match SetSubTexmap i texmap maps m with
  | Some (m', _) =>
      0 <= i < NumSubTexmaps
      /\ GetSubTexmap i m' = Some texmap
      /\ (forall j, j <> i -> GetSubTexmap j m' = GetSubTexmap j m)
      /\ pb_color (m_pblock m') = pb_color (m_pblock m)
      /\ pb_float (m_pblock m') = pb_float (m_pblock m)
      /\ pb_int (m_pblock m') = pb_int (m_pblock m)
      /\ same_snapshot m m'
      /\ m_params_validity m' = Interval.SetEmpty
  | None => ~ 0 <= i < NumSubTexmaps /\ GetSubTexmap i m = None
  end.
Proof.
  destruct (array_at g_texmap_id_to_param_id i) as [id|] eqn:Hid.
  - pose proof (array_at_Some _ _ _ Hid) as Hi.
    change (Z.of_nat (length g_texmap_id_to_param_id)) with NumSubTexmaps in Hi.
    destruct (SetSubTexmap_material i texmap maps m Hi) as (id' & Hid' & ->).
    assert (id' = id) as -> by congruence.
    split; [exact Hi|]. split; [|split].
    + unfold GetSubTexmap. rewrite Hid. unfold GetValue.
      rewrite pblock_SetValue_texmap_pblock. cbn [SetValue_texmap pb_texmap].
      destruct (decide (id = id)); [reflexivity|contradiction].
    + intros j Hj. unfold GetSubTexmap.
      destruct (array_at g_texmap_id_to_param_id j) as [idj|] eqn:Hidj; [|reflexivity].
      unfold GetValue. rewrite pblock_SetValue_texmap_pblock.
      cbn [SetValue_texmap pb_texmap].
      destruct (decide (idj = id)) as [->|]; [|reflexivity].
      exfalso. apply Hj. exact (g_texmap_id_to_param_id_inj _ _ _ Hidj Hid).
    + repeat split.
  - unfold SetSubTexmap, GetSubTexmap. rewrite Hid. split; [|reflexivity].
    intros Hi. destruct (array_at_is_Some g_texmap_id_to_param_id i Hi) as [? Hx].
    congruence.
Qed.

(** X7.  A texmap put in a slot reaches the cached member of that slot at
    the next [Update], at whatever time, and the dependents are notified. *)
Theorem SetSubTexmap_then_Update (i : Z) (texmap : option Texmap)
    (maps : ParamMaps) (m : AppleseedGlassMtl) (t : TimeValue) (valid : Interval) :
  0 <= i < NumSubTexmaps ->
  exists m' calls id,
    SetSubTexmap i texmap maps m = Some (m', calls)
    /\ array_at g_texmap_id_to_param_id i = Some id
    /\ cached_texmap id (Update t valid m').1.1 = Some texmap
    /\ (Update t valid m').2 = [mkNotification FOREVER PART_ALL REFMSG_CHANGE].
Proof.
  intros Hi.
  destruct (SetSubTexmap_material i texmap maps m Hi) as (id & Hid & ->).
  eexists _, _, id. split; [reflexivity|]. split; [exact Hid|].
  rewrite Update_miss by apply InInterval_SetEmpty. cbn [fst snd].
  split; [|reflexivity].
  rewrite pblock_SetValue_texmap_pblock. unfold refreshed, cached_texmap.
  slots Hi; cbv in Hid; injection Hid as <-;
    cbn [m_surface_color_texmap m_reflection_tint_texmap m_refraction_tint_texmap
         m_roughness_texmap m_anisotropy_texmap m_volume_color_texmap m_bump_texmap
         SetValue_texmap pb_texmap];
    match goal with
    | |- context [decide (?x = ?x)] =>
        destruct (decide (x = x)); [reflexivity|contradiction]
    end.
Qed.

Lemma SetSubTexmap_then_Update_witness :
  0 <= TexmapIdBumpMap < NumSubTexmaps
  /\ exists m' calls id,
       SetSubTexmap TexmapIdBumpMap (Some noise_texmap) (fun _ => true) fresh_material
       = Some (m', calls)
       /\ array_at g_texmap_id_to_param_id TexmapIdBumpMap = Some id
       /\ cached_texmap id (Update 160 FOREVER m').1.1 = Some (Some noise_texmap)
       /\ (Update 160 FOREVER m').2 = [mkNotification FOREVER PART_ALL REFMSG_CHANGE].
Proof.
  assert (Hi : 0 <= TexmapIdBumpMap < NumSubTexmaps)
    by (unfold TexmapIdBumpMap, NumSubTexmaps, TexmapCount; lia).
  split; [exact Hi|].
  exact (SetSubTexmap_then_Update TexmapIdBumpMap (Some noise_texmap)
           (fun _ => true) fresh_material 160 FOREVER Hi).
Defined.

(** X8.  The dialog calls of [SetSubTexmap]: none while the Glass rollup
    is not displayed; otherwise one [SetText], on the Glass rollup, for
    the parameter of the slot, with the text M exactly when the texmap is
    not null.  The Bump rollup is never addressed, although the descriptor
    puts the button of the last slot there and those of the six others in
    the Glass rollup. *)
Theorem SetSubTexmap_button_text (i : Z) (texmap : option Texmap)
    (maps : ParamMaps) (m : AppleseedGlassMtl) :
  0 <= i < NumSubTexmaps ->
  exists m' calls id d,
    SetSubTexmap i texmap maps m = Some (m', calls)
    /\ array_at g_texmap_id_to_param_id i = Some id
    /\ param_def id = Some d
    /\ calls = (if maps ParamMapIdGlass
                then [SetText ParamMapIdGlass id
                        (if bool_decide (texmap = None) then EmptyString else "M")]
                else [])
    /\ (forall c, c ∈ calls -> ui_map c <> ParamMapIdBump)
    /\ pd_control d = TYPE_TEXMAPBUTTON
    /\ pd_map d = (if i =? TexmapIdBumpMap then ParamMapIdBump else ParamMapIdGlass).
Proof.
  intros Hi.
  destruct (SetSubTexmap_material i texmap maps m Hi) as (id & Hid & ->).
  assert (Hd : exists d, param_def id = Some d
                         /\ pd_control d = TYPE_TEXMAPBUTTON
                         /\ pd_map d = (if i =? TexmapIdBumpMap
                                        then ParamMapIdBump else ParamMapIdGlass)).
  { slots Hi; cbv in Hid; injection Hid as <-;
      (eexists; split; [reflexivity|split; reflexivity]). }
  destruct Hd as (d & Hd & Hc & Hm).
  eexists _, _, id, d. split; [reflexivity|]. split; [exact Hid|].
  split; [exact Hd|]. split; [|split; [|split; assumption]].
  - destruct (maps ParamMapIdGlass); [|reflexivity]. destruct texmap; reflexivity.
  - intros c Hc'. destruct (maps ParamMapIdGlass).
    + apply list_elem_of_singleton in Hc' as ->. discriminate.
    + apply elem_of_nil in Hc'. contradiction.
Qed.

Lemma SetSubTexmap_button_text_witness :
  0 <= TexmapIdBumpMap < NumSubTexmaps
  /\ exists m' calls id d,
       SetSubTexmap TexmapIdBumpMap (Some noise_texmap) (fun _ => true) fresh_material
       = Some (m', calls)
       /\ array_at g_texmap_id_to_param_id TexmapIdBumpMap = Some id
       /\ param_def id = Some d
       /\ calls = [SetText ParamMapIdGlass id "M"]
       /\ (forall c, c ∈ calls -> ui_map c <> ParamMapIdBump)
       /\ pd_control d = TYPE_TEXMAPBUTTON
       /\ pd_map d = ParamMapIdBump.
Proof.
  assert (Hi : 0 <= TexmapIdBumpMap < NumSubTexmaps)
    by (unfold TexmapIdBumpMap, NumSubTexmaps, TexmapCount; lia).
  split; [exact Hi|].
  exact (SetSubTexmap_button_text TexmapIdBumpMap (Some noise_texmap)
           (fun _ => true) fresh_material Hi).
Defined.

(** X9.  The descriptor and the slot table agree: the descriptor specifies
    each of the eighteen parameters once, in the order of their numbers;
    slot [i] of [g_texmap_id_to_param_id] is the parameter whose
    [p_subtexno] is [i]; the parameters with a [p_subtexno] are the texmap
    parameters; and there is a slot name for exactly the slots of the
    table. *)
Theorem block_desc_subtexno_table :
  map (fun d => ParamId_value (pd_id d)) g_block_desc = seqZ 0 18
  /\ (forall i id,
        array_at g_texmap_id_to_param_id i = Some id
        <-> exists d, param_def id = Some d /\ pd_subtexno d = Some i)
  /\ (forall d, d ∈ g_block_desc ->
        (pd_type d = TYPE_TEXMAP <-> is_Some (pd_subtexno d))
        /\ param_def (pd_id d) = Some d)
  /\ (forall i, is_Some (GetSubTexmapSlotName i) <-> 0 <= i < NumSubTexmaps).
Proof.
  split; [reflexivity|]. split; [|split].
  - intros i id. split.
    + intros Hid. pose proof (array_at_Some _ _ _ Hid) as Hi.
      change (Z.of_nat (length g_texmap_id_to_param_id)) with NumSubTexmaps in Hi.
      slots Hi; cbv in Hid; injection Hid as <-; eexists; split; reflexivity.
    + intros (d & Hd & Hs).
      destruct id; cbv in Hd; injection Hd as <-; cbv in Hs;
        first [discriminate | injection Hs as <-; reflexivity].
  - intros d Hd. unfold g_block_desc in Hd.
    repeat (apply elem_of_cons in Hd as [->|Hd];
            [split; [split; [intros; first [discriminate | eexists; reflexivity]
                            |intros [? Hx]; first [discriminate | reflexivity]]
                    |reflexivity]|]).
    apply elem_of_nil in Hd. contradiction.
  - intros i. unfold GetSubTexmapSlotName. split.
    + intros [x Hx]. apply array_at_Some in Hx. exact Hx.
    + intros Hi. apply array_at_is_Some. exact Hi.
Qed.

(** X10.  The member initializers of the constructor are the defaults of
    the descriptor: against the block [MakeAutoParamBlocks] builds, the
    members agree with the block at every time, so that the first
    [Update] changes none of them; and every default lies within the
    [p_range] or among the [p_vals] of its parameter. *)
Theorem constructor_matches_block_desc (t : TimeValue) (valid : Interval) :
  snapshot_agrees (AppleseedGlassMtl_new MakeAutoParamBlock) MakeAutoParamBlock t
  /\ same_snapshot (AppleseedGlassMtl_new MakeAutoParamBlock)
       (Update t valid (AppleseedGlassMtl_new MakeAutoParamBlock)).1.1
  /\ (forall d, d ∈ g_block_desc ->
        match pd_default d with
        | Some (VFloat f) => in_range f (pd_range d) = true
        | Some (VInt i) => i ∈ pd_vals d
        | Some (VColor _) => pd_type d = TYPE_RGBA
        | None => pd_type d = TYPE_TEXMAP
        end).
Proof.
  split; [|split].
  - unfold snapshot_agrees. cbn. repeat split.
  - rewrite Update_miss by apply InInterval_SetEmpty. cbn [fst].
    unfold same_snapshot, refreshed. cbn. repeat split.
  - intros d Hd. unfold g_block_desc in Hd.
    repeat (apply elem_of_cons in Hd as [->|Hd];
            [cbn [pd_default pd_range pd_vals pd_type];
             first [reflexivity
                   | apply list_elem_of_here
                   | apply list_elem_of_further, list_elem_of_here]|]).
    apply elem_of_nil in Hd. contradiction.
Qed.

(** X11.  References: the material has the one reference
    [ParamBlockRefGlassMtl]; a parameter block set there is the one got
    back; a null target, a target of another class or another index change
    nothing, so that the reference cannot be cleared; and [SetReference]
    assigns no cached member and leaves the cached interval as it is. *)
Theorem SetReference_GetReference (i : Z) (rtarg : option RefTarget)
    (pblock : IParamBlock2) (m : AppleseedGlassMtl) :
  GetReference ParamBlockRefGlassMtl
    (SetReference ParamBlockRefGlassMtl (Some (RefParamBlock pblock)) m)
  = Some pblock
  /\ (is_Some (GetReference i m) <-> 0 <= i < NumRefs m)
  /\ (SubAnimName i = "Parameters" <-> 0 <= i < NumSubs m)
  /\ GetParamBlock i m = GetReference i m
  /\ ((i <> ParamBlockRefGlassMtl
       \/ rtarg = None
       \/ exists class_name, rtarg = Some (RefOther class_name)) ->
      SetReference i rtarg m = m)
  /\ same_snapshot m (SetReference i rtarg m)
  /\ m_params_validity (SetReference i rtarg m) = m_params_validity m.
Proof.
  unfold GetReference, SetReference, SubAnimName, GetParamBlock, NumSubs, NumRefs,
    ParamBlockRefGlassMtl.
  split; [reflexivity|]. split; [|split; [|split; [reflexivity|split; [|split]]]].
  - destruct (i =? 0) eqn:Hi.
    + apply Z.eqb_eq in Hi. split; [lia|]. intros _. eexists. reflexivity.
    + apply Z.eqb_neq in Hi. split; [intros [? Hx]; discriminate|lia].
  - destruct (i =? 0) eqn:Hi.
    + apply Z.eqb_eq in Hi. split; [lia|reflexivity].
    + apply Z.eqb_neq in Hi. split; [discriminate|lia].
  - intros [Hi|[->|[cn ->]]].
    + apply Z.eqb_neq in Hi. rewrite Hi. reflexivity.
    + destruct (i =? 0); reflexivity.
    + destruct (i =? 0); reflexivity.
  - destruct (i =? 0); [|repeat split]. destruct rtarg as [[pb|cn]|]; repeat split.
  - destruct (i =? 0); [|reflexivity]. destruct rtarg as [[pb|cn]|]; reflexivity.
Qed.

(** Whether two blocks hold the same values at a time. *)
Lemma snapshot_agrees_values (m : AppleseedGlassMtl) (pb pb' : IParamBlock2)
    (t : TimeValue) :
  (forall id, pb_color pb' id t = pb_color pb id t
              /\ pb_float pb' id t = pb_float pb id t
              /\ pb_int pb' id t = pb_int pb id t
              /\ pb_texmap pb' id t = pb_texmap pb id t) ->
  snapshot_agrees m pb' t -> snapshot_agrees m pb t.
Proof.
  intros Hv. unfold snapshot_agrees.
  intros (H1&H2&H3&H4&H5&H6&H7&H8&H9&H10&H11&H12&H13&H14&H15&H16&H17&H18).
  repeat split;
    match goal with
    | |- _ = _ _ ?id _ => destruct (Hv id) as (?&?&?&?); congruence
    end.
Qed.

(** X12.  [Clone]: the clone has the base-class state of the original and
    the clone of its parameter block, but the cached members of a newly
    constructed material, whatever the original cached, with an empty
    cached interval; its first [Update] reads the cloned block, so that
    the clone then holds the values of the original's block when the
    cloned block does. *)
Theorem Clone_then_Update {MtlBase : Type} (new_base : MtlBase)
    (CloneRef : IParamBlock2 -> IParamBlock2)
    (this : MtlBase * AppleseedGlassMtl) (t : TimeValue) (valid : Interval) :
  (forall id, pb_color (CloneRef (m_pblock this.2)) id t = pb_color (m_pblock this.2) id t
              /\ pb_float (CloneRef (m_pblock this.2)) id t = pb_float (m_pblock this.2) id t
              /\ pb_int (CloneRef (m_pblock this.2)) id t = pb_int (m_pblock this.2) id t
              /\ pb_texmap (CloneRef (m_pblock this.2)) id t
                 = pb_texmap (m_pblock this.2) id t) ->
  let clone := Clone new_base CloneRef this in
  clone.1 = this.1
  /\ m_pblock clone.2 = CloneRef (m_pblock this.2)
  /\ same_snapshot clone.2 (AppleseedGlassMtl_new MakeAutoParamBlock)
  /\ m_params_validity clone.2 = Interval.SetEmpty
  /\ snapshot_agrees (Update t valid clone.2).1.1 (m_pblock this.2) t
  /\ (Update t valid clone.2).2 = [mkNotification FOREVER PART_ALL REFMSG_CHANGE].
Proof.
  intros Hv clone. subst clone. unfold Clone. cbn [fst snd].
  unfold SetReference. rewrite Z.eqb_refl.
  split; [reflexivity|]. split; [reflexivity|]. split; [repeat split|].
  split; [reflexivity|].
  rewrite Update_miss by apply InInterval_SetEmpty. cbn [fst snd].
  split; [|reflexivity].
  apply (snapshot_agrees_values _ _ (CloneRef (m_pblock this.2)) t Hv).
  apply refreshed_agrees.
Qed.

Lemma Clone_then_Update_witness :
  (forall id, pb_color (m_pblock grey_tinted_material) id 160
              = pb_color (m_pblock grey_tinted_material) id 160
              /\ pb_float (m_pblock grey_tinted_material) id 160
                 = pb_float (m_pblock grey_tinted_material) id 160
              /\ pb_int (m_pblock grey_tinted_material) id 160
                 = pb_int (m_pblock grey_tinted_material) id 160
              /\ pb_texmap (m_pblock grey_tinted_material) id 160
                 = pb_texmap (m_pblock grey_tinted_material) id 160)
  /\ m_refraction_tint (Clone tt (fun pb => pb) (tt, grey_tinted_material)).2 = white
  /\ m_refraction_tint grey_tinted_material = grey50.
Proof.
  assert (Hv : forall id,
             pb_color (m_pblock grey_tinted_material) id 160
             = pb_color (m_pblock grey_tinted_material) id 160
             /\ pb_float (m_pblock grey_tinted_material) id 160
                = pb_float (m_pblock grey_tinted_material) id 160
             /\ pb_int (m_pblock grey_tinted_material) id 160
                = pb_int (m_pblock grey_tinted_material) id 160
             /\ pb_texmap (m_pblock grey_tinted_material) id 160
                = pb_texmap (m_pblock grey_tinted_material) id 160)
    by (intros id; repeat split).
  split; [exact Hv|]. split; [|reflexivity].
  pose proof (Clone_then_Update tt (fun pb => pb) (tt, grey_tinted_material)
                160 FOREVER Hv) as (_ & _ & Hs & _).
  destruct Hs as (_ & _ & _ & _ & Hr & _). exact Hr.
Defined.

(** X13.  [Reset] then [Update]: the material is then the one a newly
    constructed material is after its first [Update]; [Reset] itself
    assigns no cached member, only the block and the cached interval. *)
Theorem Reset_then_Update (m : AppleseedGlassMtl) (t : TimeValue) (valid : Interval) :
  Update t valid (Reset m)
  = Update t valid (AppleseedGlassMtl_new MakeAutoParamBlock)
  /\ same_snapshot (Update t valid (Reset m)).1.1
       (AppleseedGlassMtl_new MakeAutoParamBlock)
  /\ same_snapshot (Reset m) m
  /\ m_params_validity (Reset m) = Interval.SetEmpty.
Proof.
  rewrite !Update_miss by apply InInterval_SetEmpty.
  split; [reflexivity|]. cbn [fst].
  split; [|split; [repeat split|reflexivity]].
  unfold same_snapshot, Reset, refreshed. cbn. repeat split.
Qed.

(** What a refresh leaves is coherent, for a block whose validity
    intervals are sound. *)
Lemma refreshed_coherent (pb : IParamBlock2) (t : TimeValue) :
  validity_sound pb -> coherent (refreshed pb t).
Proof.
  intros Hs. unfold coherent, snapshot_agrees, refreshed.
  cbn [m_pblock m_params_validity m_surface_color m_surface_color_texmap
       m_reflection_tint m_reflection_tint_texmap m_refraction_tint
       m_refraction_tint_texmap m_ior m_roughness m_roughness_texmap
       m_anisotropy m_anisotropy_texmap m_volume_color m_volume_color_texmap
       m_scale m_bump_method m_bump_texmap m_bump_amount m_bump_up_vector].
  intros t' Ht'.
  assert (Hv : forall id, Interval.InInterval (pb_validity pb id t) t' = true)
    by (intros id; exact (refreshed_validity_in _ _ _ id Ht')).
  repeat split; symmetry;
    match goal with
    | |- _ _ ?id _ = _ => destruct (Hs id t t' (Hv id)) as (?&?&?&?); assumption
    end.
Qed.

(** X3.  Which operations empty the cached interval.  The constructor, a
    change message to [NotifyRefChanged], [SetDiffuse], [SetSubTexmap] and
    [Reset] leave it empty, and an empty interval makes the cache coherent
    whatever it holds; a message that is no change message leaves the
    material as it is.  [SetReference] is the exception: it replaces the
    block and keeps the interval, so that [Update] at a time of the
    interval reads nothing from the new block.  The cache is then not
    coherent in general: a material refreshed against a block of white,
    then given a block of grey, still answers white after [Update]. *)
Theorem cache_emptied_except_by_SetReference :
  (forall pb, m_params_validity (AppleseedGlassMtl_new pb) = Interval.SetEmpty)
  /\ (forall m, m_params_validity (NotifyRefChanged REFMSG_CHANGE m) = Interval.SetEmpty)
  /\ (forall code m, NotifyRefChanged (REFMSG_OTHER code) m = m)
  /\ (forall c t m, m_params_validity (SetDiffuse c t m) = Interval.SetEmpty)
  /\ (forall i texmap maps m m' calls,
        SetSubTexmap i texmap maps m = Some (m', calls) ->
        m_params_validity m' = Interval.SetEmpty)
  /\ (forall m, m_params_validity (Reset m) = Interval.SetEmpty)
  /\ (forall m, m_params_validity m = Interval.SetEmpty -> coherent m)
  /\ (forall pblock m t valid,
        Interval.InInterval (m_params_validity m) t = true ->
        let m' := SetReference ParamBlockRefGlassMtl (Some (RefParamBlock pblock)) m in
        m_pblock m' = pblock
        /\ m_params_validity m' = m_params_validity m
        /\ Update t valid m' = (m', valid &&& m_params_validity m', []))
  /\ (let m := (Update 160 FOREVER fresh_material).1.1 in
      let pblock := constant_pblock grey50 F32.zero 0 None in
      let m' := SetReference ParamBlockRefGlassMtl (Some (RefParamBlock pblock)) m in
      coherent m
      /\ validity_sound pblock
      /\ ~ coherent m'
      /\ GetDiffuse (Update 160 FOREVER m').1.1 = white
      /\ pb_color (m_pblock m') ParamIdSurfaceColor 160 = grey50).
Proof.
  split; [reflexivity|]. split; [reflexivity|]. split; [reflexivity|].
  split; [reflexivity|]. split.
  { intros i texmap maps m m' calls Hs.
    unfold SetSubTexmap in Hs.
    destruct (array_at g_texmap_id_to_param_id i) as [id|]; [|discriminate].
    destruct (maps ParamMapIdGlass); injection Hs as <- _;
      apply pblock_SetValue_texmap_validity. }
  split; [reflexivity|]. split; [exact coherent_of_empty|]. split.
  { intros pblock m t valid Hin. cbv zeta.
    unfold SetReference. rewrite Z.eqb_refl.
    split; [reflexivity|]. split; [reflexivity|].
    apply Update_cache_hit. exact Hin. }
  cbv zeta.
  assert (Hm : (Update 160 FOREVER fresh_material).1.1
               = refreshed (constant_pblock white F32.zero 0 None) 160)
    by (rewrite Update_miss by apply InInterval_SetEmpty; reflexivity).
  rewrite Hm.
  split; [apply refreshed_coherent, constant_pblock_validity_sound|].
  split; [apply constant_pblock_validity_sound|].
  split; [|split; [vm_compute; reflexivity|reflexivity]].
  intros Hc.
  assert (Hin : Interval.InInterval
                  (m_params_validity
                     (SetReference ParamBlockRefGlassMtl
                        (Some (RefParamBlock (constant_pblock grey50 F32.zero 0 None)))
                        (refreshed (constant_pblock white F32.zero 0 None) 160)))
                  160 = true)
    by (vm_compute; reflexivity).
  destruct (Hc 160 Hin) as [H _].
  apply (f_equal Color.r) in H. vm_compute in H. discriminate.
Qed.

(* ===================================================================== *)
(** ** More on persistence *)
(* ===================================================================== *)

Section PersistenceRoundTrip.

Context `{DataChunks} `{MtlBaseIO}.

Ltac load_turn' :=
  cbn [Load_loop OpenChunk ld_items IOResult_eqb negb];
  unfold Load_chunk, read_USHORT, ILoad_Read, MtlBase_Load;
  cbn -[USHORT_of_bytes take drop Z.eqb Nat.leb Load_loop].

(** Where [Load] stops on an item that does not load cleanly: the items
    after it are left in the stream, and the base-class state is the one
    the item gives. *)
Lemma Load_loop_stop_at (base : MtlBase) (it : StreamItem)
    (rest : list StreamItem) (cur : option (Chunk * IOResult))
    (trace : list LoadEvent) :
  loads_cleanly it = false ->
  exists out,
    (forall fuel, Load_loop (S fuel) base (mkILoad (it :: rest) cur) trace = Some out)
    /\ lo_result out <> IO_OK
    /\ ld_items (lo_stream out) = rest
    /\ lo_base out = item_base base it.
Proof.
  destruct it as [[id data] close|].
  2:{ intros _. eexists; split; [intros fuel; reflexivity|]. cbn.
      split; [discriminate|]. split; reflexivity. }
  unfold loads_cleanly, item_base. cbn [chunk_id chunk_data]. intros Hc.
  destruct (id =? ChunkFileFormatVersion) eqn:E1;
    [|destruct (id =? ChunkMtlBase) eqn:E2].
  - destruct (2 <=? length data)%nat eqn:E.
    + rewrite andb_true_r in Hc.
      eexists; split.
      * intros fuel. load_turn'. rewrite E1, E. apply Nat.leb_le in E.
        rewrite length_take, Nat.min_l by exact E.
        load_turn'. rewrite Hc. load_turn'. reflexivity.
      * cbn. split; [apply IOResult_eqb_neq; exact Hc|]. split; reflexivity.
    + eexists; split.
      * intros fuel. load_turn'. rewrite E1, E. load_turn'. reflexivity.
      * cbn. split; [discriminate|]. split; reflexivity.
  - destruct (MtlBase_parse data) as [base'|] eqn:Hp.
    + rewrite andb_true_r in Hc.
      eexists; split.
      * intros fuel. load_turn'. rewrite E1, E2, Hp. load_turn'.
        rewrite Hc. load_turn'. reflexivity.
      * cbn. split; [apply IOResult_eqb_neq; exact Hc|]. split; reflexivity.
    + eexists; split.
      * intros fuel. load_turn'. rewrite E1, E2, Hp. load_turn'. reflexivity.
      * cbn. split; [discriminate|]. split; reflexivity.
  - rewrite andb_true_r in Hc.
    eexists; split.
    + intros fuel. load_turn'. rewrite E1, E2. load_turn'.
      rewrite Hc. load_turn'. reflexivity.
    + cbn. split; [apply IOResult_eqb_neq; exact Hc|]. split; reflexivity.
Qed.

Lemma Load_loop_first_failure (good : list StreamItem) (bad : StreamItem)
    (rest : list StreamItem) :
  forall (fuel : nat) (base : MtlBase) (cur : option (Chunk * IOResult))
         (trace : list LoadEvent),
    forallb loads_cleanly good = true ->
    loads_cleanly bad = false ->
    (length good < fuel)%nat ->
    exists out,
      Load_loop fuel base (mkILoad (good ++ bad :: rest) cur) trace = Some out
      /\ lo_result out <> IO_OK
      /\ ld_items (lo_stream out) = rest
      /\ lo_base out = foldl item_base base (good ++ [bad]).
Proof.
  induction good as [|it good IH]; intros fuel base cur trace Hg Hb Hf.
  - destruct fuel as [|fuel]; [simpl in Hf; lia|].
    destruct (Load_loop_stop_at base bad rest cur trace Hb) as (out & Ho & Hr & Hi & Hbase).
    exists out. split; [apply Ho|]. split; [exact Hr|]. split; [exact Hi|exact Hbase].
  - destruct fuel as [|fuel]; [simpl in Hf; lia|].
    cbn [forallb] in Hg. apply andb_prop in Hg as [Hit Hg].
    cbn [app]. rewrite Load_loop_step by exact Hit.
    cbn [length] in Hf.
    destruct (IH fuel (item_base base it) None (trace ++ item_events it) Hg Hb
                ltac:(lia)) as (out & Ho & Hr & Hi & Hbase).
    exists out. split; [exact Ho|]. split; [exact Hr|]. split; [exact Hi|].
    exact Hbase.
Qed.

(** X14.  [Save] on any stream: the chunks already closed stay, and
    exactly two chunks are added and closed after them, the version chunk
    then the base-state chunk, also when a write fails (the base state is
    still written after a failed version write); each holds a prefix of
    the bytes meant for it, and the result is [IO_OK] exactly when both
    are complete. *)
Theorem Save_appends_two_chunks (base : MtlBase) (isave : ISave) :
  exists d1 d2,
    (Save base isave).2
    = mkISave (sv_chunks isave
               ++ [mkChunk ChunkFileFormatVersion d1; mkChunk ChunkMtlBase d2])
        None (sv_capacity isave - length d1 - length d2)
    /\ d1 `prefix_of` USHORT_bytes FileFormatVersion
    /\ d2 `prefix_of` MtlBase_bytes base
    /\ ((Save base isave).1 = IO_OK
        <-> d1 = USHORT_bytes FileFormatVersion /\ d2 = MtlBase_bytes base).
Proof.
  rewrite Save_unfold. cbv zeta.
  unfold write_USHORT, MtlBase_Save, ISave_Write, BeginChunk, EndChunk.
  cbn [sv_open sv_chunks sv_capacity chunk_id chunk_data fst snd app].
  assert (L2 : length (USHORT_bytes FileFormatVersion) = 2%nat) by reflexivity.
  rewrite L2.
  destruct (2 <=? sv_capacity isave)%nat eqn:E1;
    [apply Nat.leb_le in E1|apply Nat.leb_gt in E1];
    cbn [sv_open sv_chunks sv_capacity chunk_id chunk_data fst snd app
         IOResult_eqb andb Nat.eqb];
    match goal with
    | |- context [(length (MtlBase_bytes base) <=? ?c)%nat] =>
        destruct (length (MtlBase_bytes base) <=? c)%nat eqn:E2;
        [apply Nat.leb_le in E2|apply Nat.leb_gt in E2]
    end;
    cbn [sv_open sv_chunks sv_capacity chunk_id chunk_data fst snd app
         IOResult_eqb andb];
    match goal with
    | |- context [mkISave (_ ++ [mkChunk _ ?d1] ++ [mkChunk _ ?d2]) _ _] =>
        exists d1, d2
    | |- context [mkISave ((_ ++ [mkChunk _ ?d1]) ++ [mkChunk _ ?d2]) _ _] =>
        exists d1, d2
    end;
    (split;
     [f_equal; first [rewrite <- app_assoc; reflexivity
                     | rewrite ?length_take, ?L2; lia]|]);
    (split; [first [reflexivity | apply prefix_take]|]);
    (split; [first [reflexivity | apply prefix_take]|]).
  - split; [intros _; split; reflexivity|reflexivity].
  - split; [discriminate|]. intros [_ Hd].
    apply (f_equal length) in Hd. rewrite length_take in Hd. lia.
  - split; [discriminate|]. intros [Hd _].
    apply (f_equal length) in Hd. rewrite length_take, L2 in Hd. lia.
  - split; [discriminate|]. intros [Hd _].
    apply (f_equal length) in Hd. rewrite length_take, L2 in Hd. lia.
Qed.

(** X15.  [Load] stops at the first item it cannot get through: it
    returns then, with a result that is not [IO_OK], leaves the items
    after it in the stream unread, and keeps the base-class state loaded
    up to and including that item; nothing is rolled back. *)
Theorem Load_stops_at_first_failure (base : MtlBase) (good : list StreamItem)
    (bad : StreamItem) (rest : list StreamItem) :
  forallb loads_cleanly good = true ->
  loads_cleanly bad = false ->
  exists out,
    Load base (ILoad_new (good ++ bad :: rest)) = Some out
    /\ lo_result out <> IO_OK
    /\ ld_items (lo_stream out) = rest
    /\ lo_base out = foldl item_base base (good ++ [bad]).
Proof.
  intros Hg Hb. unfold Load, ILoad_new. cbn [ld_items].
  apply Load_loop_first_failure; [exact Hg|exact Hb|].
  rewrite length_app. cbn [length]. lia.
Qed.

(** X16.  What [Save] writes, [Load] reads back: for a base-class state
    that the host reads back from its own bytes, and a medium that takes
    them, loading the saved file succeeds, reads the version tag, leaves
    the saved base-class state in the material whatever it held, and
    reaches the end of the stream. *)
Theorem Save_Load_round_trip (base base0 : MtlBase) (capacity : nat) :
  MtlBase_parse (MtlBase_bytes base) = Some base ->
  (2 + length (MtlBase_bytes base) <= capacity)%nat ->
  (Save base (ISave_new capacity)).1 = IO_OK
  /\ exists out,
       Load base0 (reopen (Save base (ISave_new capacity)).2) = Some out
       /\ lo_result out = IO_OK
       /\ lo_base out = base
       /\ lo_trace out = [ReadVersion FileFormatVersion; LoadedMtlBase]
       /\ ld_items (lo_stream out) = [].
Proof.
  intros Hcodec Hcap. rewrite Save_fresh.
  pose proof (proj2 (Nat.leb_le _ _) Hcap) as Hcap'. rewrite Hcap'. cbn [fst snd].
  split; [reflexivity|].
  rewrite !take_ge
    by (first [change (length (USHORT_bytes FileFormatVersion)) with 2%nat; lia | lia]).
  assert (L2 : length (USHORT_bytes FileFormatVersion) = 2%nat) by reflexivity.
  unfold reopen, Load, ILoad_new. cbn [sv_chunks map ld_items length].
  pose proof chunk_ids_distinct as Hne.
  assert (E21 : (ChunkMtlBase =? ChunkFileFormatVersion) = false)
    by (apply Z.eqb_neq; congruence).
  rewrite Load_loop_step.
  2:{ unfold loads_cleanly. cbn [chunk_id chunk_data IOResult_eqb andb].
      rewrite Z.eqb_refl. reflexivity. }
  rewrite Load_loop_step.
  2:{ unfold loads_cleanly. cbn [chunk_id chunk_data IOResult_eqb andb].
      rewrite E21, Z.eqb_refl, Hcodec. reflexivity. }
  unfold item_base, item_events. cbn [chunk_id chunk_data app].
  rewrite E21, !Z.eqb_refl, Hcodec.
  eexists. split; [reflexivity|]. cbn.
  split; [reflexivity|]. split; [reflexivity|]. split; [|reflexivity].
  rewrite ?take_ge by (rewrite L2; lia).
  change (Z_of_byte (byte_of_Z FileFormatVersion)
          + 256 * Z_of_byte (byte_of_Z (FileFormatVersion `div` 256)))
    with (USHORT_of_bytes (USHORT_bytes FileFormatVersion)).
  rewrite USHORT_of_bytes_bytes by apply FileFormatVersion_range. reflexivity.
Qed.

End PersistenceRoundTrip.

Lemma Load_stops_at_first_failure_witness :
  forallb (@loads_cleanly sample_chunks sample_mtlbase)
    [ItemChunk (mkChunk 1 [Byte.x07; Byte.x00]) IO_OK] = true
  /\ @loads_cleanly sample_chunks sample_mtlbase
       (ItemChunk (mkChunk 4096 [Byte.x01; Byte.x67]) IO_ERROR) = false
  /\ exists out,
       @Load sample_chunks sample_mtlbase []
         (ILoad_new
            ([ItemChunk (mkChunk 1 [Byte.x07; Byte.x00]) IO_OK]
             ++ ItemChunk (mkChunk 4096 [Byte.x01; Byte.x67]) IO_ERROR
             :: [ItemChunk (mkChunk 77 [Byte.xff]) IO_OK]))
       = Some out
       /\ lo_result out <> IO_OK
       /\ ld_items (lo_stream out) = [ItemChunk (mkChunk 77 [Byte.xff]) IO_OK]
       /\ lo_base out
          = foldl (@item_base sample_chunks sample_mtlbase) []
              ([ItemChunk (mkChunk 1 [Byte.x07; Byte.x00]) IO_OK]
               ++ [ItemChunk (mkChunk 4096 [Byte.x01; Byte.x67]) IO_ERROR]).
Proof.
  split; [reflexivity|]. split; [reflexivity|].
  apply (@Load_stops_at_first_failure sample_chunks sample_mtlbase []
           [ItemChunk (mkChunk 1 [Byte.x07; Byte.x00]) IO_OK]
           (ItemChunk (mkChunk 4096 [Byte.x01; Byte.x67]) IO_ERROR)
           [ItemChunk (mkChunk 77 [Byte.xff]) IO_OK]);
    reflexivity.
Defined.

Lemma Save_Load_round_trip_witness :
  @MtlBase_parse sample_mtlbase (@MtlBase_bytes sample_mtlbase [Byte.x67; Byte.x6c])
  = Some [Byte.x67; Byte.x6c]
  /\ (@Save sample_chunks sample_mtlbase [Byte.x67; Byte.x6c] (ISave_new 16)).1 = IO_OK
  /\ exists out,
       @Load sample_chunks sample_mtlbase []
         (reopen (@Save sample_chunks sample_mtlbase [Byte.x67; Byte.x6c]
                    (ISave_new 16)).2)
       = Some out
       /\ lo_result out = IO_OK
       /\ lo_base out = [Byte.x67; Byte.x6c]
       /\ lo_trace out = [ReadVersion 1; LoadedMtlBase]
       /\ ld_items (lo_stream out) = [].
Proof.
  split; [reflexivity|].
  apply (@Save_Load_round_trip sample_chunks sample_mtlbase
           [Byte.x67; Byte.x6c] [] 16%nat).
  - reflexivity.
  - cbn. lia.
Defined.

(* ===================================================================== *)
(** ** More on the translators *)
(* ===================================================================== *)

Lemma grows_refl (a : Assembly) : grows a a 0 0.
Proof. unfold grows. rewrite !Nat.add_0_r. repeat split. Qed.

Lemma grows_trans (a a' a'' : Assembly) (n c n' c' : nat) :
  grows a a' n c -> grows a' a'' n' c' -> grows a a'' (n + n') (c + c').
Proof.
  intros (H1&H2&H3&H4&H5) (K1&K2&K3&K4&K5). unfold grows.
  rewrite K1, K2, K3, K4, K5, H1, H2, H3, H4, H5.
  repeat split; lia.
Qed.

Lemma insert_texture_and_instance_grows (a : Assembly) (texmap : option Texmap)
    (procedural : bool) (time : TimeValue) (params : ParamArray) :
  let r := insert_texture_and_instance a texmap procedural time params in
  grows a r.1 (bound texmap) 0
  /\ string_empty r.2 = match texmap with Some _ => false | None => true end.
Proof.
  pose proof (insert_texture_and_instance_spec a texmap procedural time params)
    as (_ & _ & _ & _ & Hs).
  cbv zeta in *. destruct texmap as [tex|].
  - destruct Hs as [He _]. split; [|exact He].
    unfold grows, insert_texture_and_instance.
    cbn [fst textures texture_instances colors shader_groups bsdfs bound].
    rewrite !length_app. cbn [length]. repeat split; lia.
  - rewrite Hs. split; [apply grows_refl|reflexivity].
Qed.

Lemma color_input_grows (name : string) (time : TimeValue) (key suffix : string)
    (texmap : option Texmap) (color : Color) (a0 : Assembly) (bp : ParamArray) :
  let st' := color_input name time key suffix texmap color a0 bp in
  grows a0 st'.1 (bound texmap) (unbound texmap)
  /\ dom st'.2 = {[key]} ∪ dom bp.
Proof.
  cbv zeta. unfold color_input.
  pose proof (insert_texture_and_instance_grows a0 texmap true time ∅) as [Hg He].
  cbv zeta in Hg, He.
  destruct (insert_texture_and_instance a0 texmap true time ∅) as [a1 inst].
  cbn [fst snd] in Hg, He. rewrite He.
  destruct texmap as [tex|]; cbn [negb fst snd bound unbound].
  - split; [exact Hg|apply dom_insert_L].
  - split; [|apply dom_insert_L].
    destruct Hg as (H1&H2&H3&H4&H5). unfold grows, insert_color.
    cbn [textures texture_instances colors shader_groups bsdfs bound] in *.
    rewrite length_app. cbn [length]. repeat split; first [assumption | lia].
Qed.

Lemma float_input_grows (time : TimeValue) (key : string)
    (texmap : option Texmap) (value : float) (a0 : Assembly) (bp : ParamArray) :
  let st' := float_input time key texmap value a0 bp in
  grows a0 st'.1 (bound texmap) 0
  /\ dom st'.2 = {[key]} ∪ dom bp.
Proof.
  cbv zeta. unfold float_input.
  pose proof (insert_texture_and_instance_grows a0 texmap true time ∅) as [Hg He].
  cbv zeta in Hg, He.
  destruct (insert_texture_and_instance a0 texmap true time ∅) as [a1 inst].
  cbn [fst snd] in Hg, He. rewrite He. cbn [fst snd].
  split; [exact Hg|].
  destruct texmap; cbn [negb]; apply dom_insert_L.
Qed.

(** The scene an input block starts from holds no other block. *)
Ltac innermost a :=
  lazymatch a with
  | context [color_input] => fail
  | context [float_input] => fail
  | _ => idtac
  end.

Lemma builtin_bsdf_state_grows (assembly : Assembly) (name : string)
    (time : TimeValue) (m : AppleseedGlassMtl) :
  let st := builtin_bsdf_state assembly name time m in
  grows assembly st.1
    (bound (m_surface_color_texmap m) + bound (m_reflection_tint_texmap m)
     + bound (m_refraction_tint_texmap m) + bound (m_roughness_texmap m)
     + bound (m_anisotropy_texmap m) + bound (m_volume_color_texmap m))
    (unbound (m_surface_color_texmap m) + unbound (m_reflection_tint_texmap m)
     + unbound (m_refraction_tint_texmap m) + 0 + 0
     + unbound (m_volume_color_texmap m))
  /\ dom st.2 = glass_bsdf_keys.
Proof.
  cbv zeta. unfold builtin_bsdf_state. cbv zeta. cbn [fst snd].
  repeat match goal with
  | |- context [color_input ?n ?t ?k ?s ?tx ?c ?a ?bp] =>
      innermost a;
      let G := fresh "G" in let D := fresh "D" in
      pose proof (color_input_grows n t k s tx c a bp) as [G D];
      cbv zeta in G, D;
      let st := fresh "st" in
      set (st := color_input n t k s tx c a bp) in *; clearbody st
  | |- context [float_input ?t ?k ?tx ?v ?a ?bp] =>
      innermost a;
      let G := fresh "G" in let D := fresh "D" in
      pose proof (float_input_grows t k tx v a bp) as [G D];
      cbv zeta in G, D;
      let st := fresh "st" in
      set (st := float_input t k tx v a bp) in *; clearbody st
  end.
  split.
  - repeat (eapply grows_trans; [|eassumption]). assumption.
  - repeat first
      [ rewrite dom_insert_L
      | rewrite dom_empty_L
      | match goal with D : dom _ = _ |- _ => rewrite D; clear D end ].
    unfold glass_bsdf_keys. cbn [list_to_set]. set_solver.
Qed.

Lemma displacement_params_keeps_bsdf (m : AppleseedGlassMtl) (inst : string)
    (mp : ParamArray) :
  displacement_params m inst mp !! "bsdf" = mp !! "bsdf".
Proof.
  unfold displacement_params.
  destruct (string_empty inst); cbn [negb]; [reflexivity|].
  destruct (m_bump_method m =? 0); [|destruct (m_bump_method m =? 1)];
    rewrite !lookup_insert_ne by discriminate; reflexivity.
Qed.

(** X17.  What [create_builtin_material] inserts.  Every container of
    the scene continues as it was.  One color entity is inserted for each
    of the four color inputs that has no texture, and none for the
    others; no texture and no texture instance when none of the seven
    texture maps is bound (how many there are otherwise is left open:
    the texture of a map reused across slots may be shared); no shader
    group; and one glass BSDF, under the name of the material followed by
    _bsdf, whatever BSDFs the scene holds, with the ten keys of the glass
    model.  The material is of the generic model and names that BSDF. *)
Theorem create_builtin_material_inserts (assembly : Assembly) (name : string)
    (time : TimeValue) (m : AppleseedGlassMtl) :
  let r := create_builtin_material assembly name time m in
  extends assembly r.1
  /\ (m_surface_color_texmap m = None ->
      m_reflection_tint_texmap m = None ->
      m_refraction_tint_texmap m = None ->
      m_roughness_texmap m = None ->
      m_anisotropy_texmap m = None ->
      m_volume_color_texmap m = None ->
      m_bump_texmap m = None ->
      textures r.1 = textures assembly
      /\ texture_instances r.1 = texture_instances assembly)
  /\ length (colors r.1)
     = (length (colors assembly)
        + (unbound (m_surface_color_texmap m) + unbound (m_reflection_tint_texmap m)
           + unbound (m_refraction_tint_texmap m)
           + unbound (m_volume_color_texmap m)))%nat
  /\ shader_groups r.1 = shader_groups assembly
  /\ (exists params,
        bsdfs r.1 = bsdfs assembly ++ [GlassBSDFFactory_create (name +:+ "_bsdf") params]
        /\ dom params = glass_bsdf_keys)
  /\ mat_model r.2 = "generic_material"
  /\ mat_name r.2 = name
  /\ mat_params r.2 !! "bsdf" = Some (PString (name +:+ "_bsdf")).
Proof.
  cbv zeta.
  assert (Hext : extends assembly (create_builtin_material assembly name time m).1).
  { pose proof (create_builtin_material_spec assembly name time m) as (H1 & _).
    pose proof (builtin_bsdf_state_spec assembly name time m) as (H0 & _).
    cbv zeta in H0, H1. etransitivity; eassumption. }
  split; [exact Hext|].
  destruct Hext as (_ & Ptx & Pti & _ & _). revert Ptx Pti.
  rewrite create_builtin_material_blocks. cbv zeta. cbn [fst snd].
  pose proof (builtin_bsdf_state_grows assembly name time m) as [Hg Hd].
  cbv zeta in Hg, Hd.
  set (st := builtin_bsdf_state assembly name time m) in *. clearbody st.
  pose proof (insert_texture_and_instance_grows
                (insert_bsdf (GlassBSDFFactory_create (name +:+ "_bsdf") st.2) st.1)
                (m_bump_texmap m) true time
                (<["color_space" := PString "linear_rgb"]> ∅)) as [Hb _].
  cbv zeta in Hb.
  set (r := insert_texture_and_instance _ (m_bump_texmap m) true time _) in *.
  clearbody r.
  destruct Hg as (G1&G2&G3&G4&G5). destruct Hb as (B1&B2&B3&B4&B5).
  cbn [insert_bsdf textures texture_instances colors shader_groups bsdfs] in *.
  intros Ptx Pti.
  split.
  { intros E1 E2 E3 E4 E5 E6 E7.
    rewrite E1, E2, E3, E4, E5, E6 in G1, G2. rewrite E7 in B1, B2.
    cbn [bound] in G1, G2, B1, B2.
    split; symmetry; apply prefix_length_eq; first [assumption | lia]. }
  rewrite B3, B4, B5, G3, G4, G5.
  split; [lia|]. split; [reflexivity|].
  split; [exists st.2; split; [reflexivity|exact Hd]|].
  split; [reflexivity|]. split; [reflexivity|].
  cbn [GenericMaterialFactory_create mat_params].
  rewrite displacement_params_keeps_bsdf. apply lookup_insert_eq.
Qed.

(** X18.  What [create_osl_material] inserts: one shader group, under a
    name no shader group of the scene has, and no color entity, texture,
    texture instance or BSDF, with or without texture maps.  The group has
    the six adapter nodes, one more node when a bump texture is bound, and
    last the glass node, its only surface shader, and the closure
    converter, which the glass node feeds; the material is of the OSL
    model and names the group. *)
Theorem create_osl_material_inserts (assembly : Assembly) (name : string)
    (time : TimeValue) (m : AppleseedGlassMtl) :
  let r := create_osl_material assembly name time m in
  colors r.1 = colors assembly
  /\ textures r.1 = textures assembly
  /\ texture_instances r.1 = texture_instances assembly
  /\ bsdfs r.1 = bsdfs assembly
  /\ exists g,
       shader_groups r.1 = shader_groups assembly ++ [g]
       /\ (sg_name g ∉ map sg_name (shader_groups assembly))
       /\ r.2 = OSLMaterialFactory_create name (<["osl_surface" := PString (sg_name g)]> ∅)
       /\ length (sg_shaders g) = (8 + bound (m_bump_texmap m))%nat
       /\ length (sg_connections g) = (7 + 2 * bound (m_bump_texmap m))%nat
       /\ filter (fun sh => sh_type sh = "surface") (sg_shaders g)
          = [mkShader "surface" "as_max_glass_material" name (glass_node_params m)]
       /\ last (sg_shaders g)
          = Some (mkShader "shader" "as_max_closure2surface"
                    (name +:+ "_closure2surface") ∅)
       /\ connections_into (name +:+ "_closure2surface") "in_input" g
          = [mkConnection name "ClosureOut" (name +:+ "_closure2surface") "in_input"].
Proof.
  cbv zeta.
  assert (Hname :
            (create_osl_material assembly name time m).2
            = OSLMaterialFactory_create name
                (<["osl_surface" :=
                     PString (make_unique_name (map sg_name (shader_groups assembly))
                                (name +:+ "_shader_group"))]> ∅))
    by reflexivity.
  destruct (create_osl_material_graph assembly name time m)
    as (l1 & l2 & l3 & l4 & l5 & l6 & gname & bump & bump_conns & Hg & Hbump).
  rewrite Hg in Hname |- *. cbn [fst snd] in Hname |- *.
  assert (gname = make_unique_name (map sg_name (shader_groups assembly))
                    (name +:+ "_shader_group")) as Hgn.
  { apply (f_equal (fun mat => mat_params mat !! "osl_surface")) in Hname.
    cbn [OSLMaterialFactory_create mat_params] in Hname.
    rewrite !lookup_insert_eq in Hname. congruence. }
  cbn [insert_shader_group colors textures texture_instances bsdfs shader_groups].
  split; [reflexivity|]. split; [reflexivity|]. split; [reflexivity|].
  split; [reflexivity|].
  eexists. split; [reflexivity|]. cbn [sg_name sg_shaders sg_connections].
  split; [rewrite Hgn; apply make_unique_name_fresh|].
  split; [reflexivity|].
  unfold connections_into, color_texture_shader, float_texture_shader.
  cbn [sg_shaders sg_connections].
  assert (Hb : length bump = bound (m_bump_texmap m)
               /\ length bump_conns = (2 * bound (m_bump_texmap m))%nat
               /\ filter (fun sh => sh_type sh = "surface") bump = []
               /\ filter (fun c => cn_dst_layer c = name +:+ "_closure2surface"
                                   /\ cn_dst_param c = "in_input") bump_conns = []).
  { destruct (m_bump_texmap m) as [tex|].
    - destruct Hbump as (l7 & -> & ->). cbn [length bound].
      split; [reflexivity|]. split; [reflexivity|].
      split; [destruct (m_bump_method m =? 0); repeat filter_step; reflexivity|].
      repeat filter_step. reflexivity.
    - destruct Hbump as [-> ->]. repeat split. }
  destruct Hb as (Hb1 & Hb2 & Hb3 & Hb4).
  split; [rewrite !length_app, Hb1; cbn [length]; lia|].
  split; [rewrite !length_app, Hb2; cbn [length]; lia|].
  split; [|split].
  - rewrite !filter_app, Hb3. repeat filter_step. reflexivity.
  - rewrite !app_assoc.
    change ([mkShader "surface" "as_max_glass_material" name (glass_node_params m);
             mkShader "shader" "as_max_closure2surface"
               (name +:+ "_closure2surface") ∅])
      with ([mkShader "surface" "as_max_glass_material" name (glass_node_params m)]
            ++ [mkShader "shader" "as_max_closure2surface"
                  (name +:+ "_closure2surface") ∅]).
    rewrite app_assoc. apply last_snoc.
  - rewrite !filter_app, Hb4. repeat filter_step. reflexivity.
Qed.

(** X19.  Translating twice under one name, into the same scene: the
    fixed-function path inserts two BSDFs of the same name, which both
    materials name; the procedural path inserts two shader groups of
    different names, and each material names its own. *)
Theorem same_name_translated_twice (assembly : Assembly) (name : string)
    (time time' : TimeValue) (m m' : AppleseedGlassMtl) :
  (let r1 := create_builtin_material assembly name time m in
   let r2 := create_builtin_material r1.1 name time' m' in
   exists b1 b2,
     bsdfs r2.1 = bsdfs assembly ++ [b1; b2]
     /\ bsdf_name b1 = bsdf_name b2
     /\ mat_params r1.2 !! "bsdf" = Some (PString (bsdf_name b1))
     /\ mat_params r2.2 !! "bsdf" = Some (PString (bsdf_name b2)))
  /\ (let r1 := create_osl_material assembly name time m in
      let r2 := create_osl_material r1.1 name time' m' in
      exists g1 g2,
        shader_groups r2.1 = shader_groups assembly ++ [g1; g2]
        /\ sg_name g1 <> sg_name g2
        /\ mat_params r1.2 !! "osl_surface" = Some (PString (sg_name g1))
        /\ mat_params r2.2 !! "osl_surface" = Some (PString (sg_name g2))).
Proof.
  split; cbv zeta.
  - pose proof (create_builtin_material_blocks assembly name time m) as E1.
    pose proof (builtin_bsdf_state_grows assembly name time m) as [(_&_&_&_&G1) _].
    pose proof (insert_texture_and_instance_grows
                  (insert_bsdf
                     (GlassBSDFFactory_create (name +:+ "_bsdf")
                        (builtin_bsdf_state assembly name time m).2)
                     (builtin_bsdf_state assembly name time m).1)
                  (m_bump_texmap m) true time
                  (<["color_space" := PString "linear_rgb"]> ∅)) as [(_&_&_&_&B1) _].
    cbv zeta in E1, G1, B1.
    set (r1 := create_builtin_material assembly name time m) in *.
    assert (H1 : bsdfs r1.1
                 = bsdfs assembly
                   ++ [GlassBSDFFactory_create (name +:+ "_bsdf")
                         (builtin_bsdf_state assembly name time m).2]).
    { rewrite E1. cbn [fst]. rewrite B1. cbn [insert_bsdf bsdfs]. rewrite G1.
      reflexivity. }
    assert (M1 : mat_params r1.2 !! "bsdf" = Some (PString (name +:+ "_bsdf"))).
    { rewrite E1. cbn [snd GenericMaterialFactory_create mat_params].
      rewrite displacement_params_keeps_bsdf. apply lookup_insert_eq. }
    clearbody r1.
    pose proof (create_builtin_material_blocks r1.1 name time' m') as E2.
    pose proof (builtin_bsdf_state_grows r1.1 name time' m') as [(_&_&_&_&G2) _].
    pose proof (insert_texture_and_instance_grows
                  (insert_bsdf
                     (GlassBSDFFactory_create (name +:+ "_bsdf")
                        (builtin_bsdf_state r1.1 name time' m').2)
                     (builtin_bsdf_state r1.1 name time' m').1)
                  (m_bump_texmap m') true time'
                  (<["color_space" := PString "linear_rgb"]> ∅)) as [(_&_&_&_&B2) _].
    cbv zeta in E2, G2, B2.
    eexists _, _. split; [|split; [|split]].
    + rewrite E2. cbn [fst]. rewrite B2. cbn [insert_bsdf bsdfs]. rewrite G2, H1.
      rewrite <- app_assoc. reflexivity.
    + reflexivity.
    + exact M1.
    + rewrite E2. cbn [snd GenericMaterialFactory_create mat_params].
      rewrite displacement_params_keeps_bsdf. apply lookup_insert_eq.
  - destruct (create_osl_material_spec assembly name time m) as (g1 & E1 & _).
    set (r1 := create_osl_material assembly name time m) in *.
    assert (H1 : shader_groups r1.1 = shader_groups assembly ++ [g1])
      by (rewrite E1; reflexivity).
    assert (M1 : mat_params r1.2 !! "osl_surface" = Some (PString (sg_name g1)))
      by (rewrite E1; apply lookup_insert_eq).
    clearbody r1.
    assert (Hname :
              (create_osl_material r1.1 name time' m').2
              = OSLMaterialFactory_create name
                  (<["osl_surface" :=
                       PString (make_unique_name (map sg_name (shader_groups r1.1))
                                  (name +:+ "_shader_group"))]> ∅))
      by reflexivity.
    destruct (create_osl_material_spec r1.1 name time' m') as (g2 & E2 & _).
    rewrite E2 in Hname |- *. cbn [fst snd] in Hname |- *.
    apply (f_equal (fun mat => mat_params mat !! "osl_surface")) in Hname.
    cbn [OSLMaterialFactory_create mat_params] in Hname.
    rewrite !lookup_insert_eq in Hname.
    exists g1, g2. split; [|split; [|split]].
    + cbn [insert_shader_group shader_groups]. rewrite H1, <- app_assoc. reflexivity.
    + intros Heq.
      apply (make_unique_name_fresh (map sg_name (shader_groups r1.1))
               (name +:+ "_shader_group")).
      assert (sg_name g2 = make_unique_name (map sg_name (shader_groups r1.1))
                             (name +:+ "_shader_group")) as <- by congruence.
      rewrite H1, map_app, <- Heq. apply elem_of_app. right.
      apply list_elem_of_here.
    + exact M1.
    + apply lookup_insert_eq.
Qed.

(** X20.  From the sub-texmap interface to the scene: a texture map put
    in the bump slot, then [Update] and [create_material] at a time, is
    the displacement map of the material on the fixed-function path, and
    the input of the node that drives the normal of the glass node on the
    procedural path. *)
Theorem bump_slot_reaches_scene (tex : Texmap) (maps : ParamMaps)
    (m : AppleseedGlassMtl) (t : TimeValue) (valid : Interval)
    (assembly : Assembly) (name : string) :
  match SetSubTexmap TexmapIdBumpMap (Some tex) maps m with
  | None => False
  | Some (m', _) =>
      let m'' := (Update t valid m').1.1 in
      (let r := create_material assembly name true t m'' in
       exists inst tx,
         mat_params r.2 !! "displacement_map" = Some (PString inst)
         /\ texture_of_instance r.1 inst = Some tx
         /\ tx_source tx = tex)
      /\ (let r := create_material assembly name false t m'' in
          exists g l7 node,
            r.1 = insert_shader_group g assembly
            /\ connections_into name "Normal" g
               = [mkConnection l7 "NormalOut" name "Normal"]
            /\ node ∈ sg_shaders g
            /\ sh_layer node = l7
            /\ sh_params node !! "Input" = Some (PTexture tex t))
  end.
Proof.
  assert (Hi : 0 <= TexmapIdBumpMap < NumSubTexmaps)
    by (unfold TexmapIdBumpMap, NumSubTexmaps, TexmapCount; lia).
  destruct (SetSubTexmap_material TexmapIdBumpMap (Some tex) maps m Hi)
    as (id & Hid & ->).
  cbv in Hid. injection Hid as <-. cbv zeta.
  assert (Hb : m_bump_texmap
                 (Update t valid (pblock_SetValue_texmap ParamIdBumpTexmap 0 (Some tex) m)).1.1
               = Some tex).
  { rewrite Update_miss by apply InInterval_SetEmpty. cbn [fst].
    rewrite pblock_SetValue_texmap_pblock. unfold refreshed.
    cbn [m_bump_texmap SetValue_texmap pb_texmap].
    destruct (decide (ParamIdBumpTexmap = ParamIdBumpTexmap)); [reflexivity|contradiction]. }
  set (m'' := (Update t valid _).1.1) in *. clearbody m''.
  unfold create_material. split.
  - pose proof (create_builtin_material_spec assembly name t m'') as (_ & _ & H).
    cbv zeta in H. rewrite Hb in H. destruct H as (inst & tx & He & Hr & Ht & Hs & _).
    exists inst, tx. split; [|split; assumption].
    rewrite Hr. cbn [GenericMaterialFactory_create mat_params].
    apply (displacement_params_bound m'' inst (name +:+ "_bsdf") He).
  - destruct (create_osl_material_spec assembly name t m'')
      as (g & E & _ & _ & _ & _ & _ & _ & _ & H).
    rewrite Hb in H. destruct H as (l7 & Hc & Hn).
    unfold nodes_of_shader in Hn.
    destruct (m_bump_method m'' =? 0); destruct Hn as [Hn _].
    + match type of Hn with _ = [?n] => exists g, l7, n end. split; [rewrite E; reflexivity|]. split; [exact Hc|].
      split; [|split; [reflexivity|]].
      * eapply proj2, list_elem_of_filter. rewrite Hn. apply list_elem_of_here.
      * cbn [sh_params]. rewrite lookup_insert_ne by discriminate.
        apply lookup_insert_eq.
    + match type of Hn with _ = [?n] => exists g, l7, n end. split; [rewrite E; reflexivity|]. split; [exact Hc|].
      split; [|split; [reflexivity|]].
      * eapply proj2, list_elem_of_filter. rewrite Hn. apply list_elem_of_here.
      * cbn [sh_params]. rewrite !lookup_insert_ne by discriminate.
        apply lookup_insert_eq.
Qed.
